(** * Offers, invoices and the per-connection error history

    A shallow embedding of the BOLT12 offers code of the wallet
    application and of the error history kept in [streams.ts]:

    - [src/lib/streams.ts]                    ([connectionErrors$])
    - [src/lib/wallets/coreln/offers.ts]      (module [Wallet])
    - the connection backend that reports to an error channel
      (module [Conn])
    - [src/lib/connections/coreln/offers.ts]  (module [Legacy])

    Asynchronous code is embedded as a state-and-exception monad over a
    world that records what the code does to its surroundings: the RPC
    calls it issues, the errors it pushes on the connection's channel
    and the number of times it reads the clock and the random source. *)

From Stdlib Require Import ZArith String Ascii List DecimalString DecimalN.
From stdpp Require Import gmap strings list fin_maps.

Open Scope string_scope.
Open Scope list_scope.
Open Scope Z_scope.

(** ** JavaScript values met in the code *)

(** An optional property is [None] when it is [undefined]. Truthiness of
    an optional string: [undefined] and the empty string are falsy. *)
Definition truthy_str (v : option string) : bool :=
  match v with
  | Some s => negb (String.eqb s "")
  | None => false
  end.

(** Truthiness of an optional number: [undefined] and [0] are falsy. *)
Definition truthy_num (v : option Z) : bool :=
  match v with
  | Some n => negb (Z.eqb n 0)
  | None => false
  end.

(** [a || b] on optional strings. *)
Definition or_str (a b : option string) : option string :=
  if truthy_str a then a else b.

(** [s.startsWith(p)] *)
Definition startsWith (s p : string) : bool := String.prefix p s.

(** ** Errors *)

(** What the RPC layer or a helper throws: a [{code, message}] object. *)
Record CoreLnError := {
  code : option Z;
  message : string
}.

(** The part of an application error that [streams.ts] reads is [key]
    and [detail.connectionId]; [detail] also carries the context of the
    failing operation and the raw error. *)
Record ErrorDetail := {
  context : string;
  connectionId : option string;
  payload : CoreLnError
}.

Record AppError := {
  key : string;
  detail : ErrorDetail
}.

(** ** [streams.ts]: the error history of each connection *)

Module Streams.

(** The accumulator of the reducer is an object literal, [{}], used as a
    dictionary from connection ids to arrays of errors. Besides the
    properties that the reducer stores in it, it has the ones that every
    object inherits from [Object.prototype]: under each of these names
    [acc[name]] is a function, or the prototype itself under
    [__proto__]. *)
Definition inherited : list string :=
  ["constructor"; "__defineGetter__"; "__defineSetter__"; "hasOwnProperty";
   "__lookupGetter__"; "__lookupSetter__"; "isPrototypeOf";
   "propertyIsEnumerable"; "toString"; "valueOf"; "__proto__";
   "toLocaleString"].

Definition is_inherited (name : string) : bool :=
  existsb (String.eqb name) inherited.

(** What [acc[name]] is when it is not [undefined]: an array that the
    reducer stored, or an inherited property. Both are truthy, an empty
    array too. *)
Inductive Property : Type :=
| Errors (errors : list AppError)
| Inherited.

(** [acc[name]], the own properties of the accumulator being [acc]. *)
Definition get (acc : gmap string (list AppError)) (name : string)
  : option Property :=
  match acc !! name with
  | Some errors => Some (Errors errors)
  | None => if is_inherited name then Some Inherited else None
  end.

(** The reducer given to [scan]; [None] when it throws: an inherited
    property has no [push], and [errors.push(value)] is a [TypeError]. *)
Definition scan_step (acc : gmap string (list AppError)) (value : AppError)
  : option (gmap string (list AppError)) :=
  let connectionId := connectionId (detail value) in
  if negb (truthy_str connectionId) then Some acc
  else
    match connectionId with
    | None => Some acc
    | Some cid =>
        (* if (!acc[connectionId]) acc[connectionId] = [] *)
        let acc := match get acc cid with
                   | None => <[cid := []]> acc
                   | Some _ => acc
                   end in
        match get acc cid with
        | Some (Errors errors) =>
            (* errors.push(value) *)
            let errors := errors ++ [value] in
            (* errors.length = Math.min(errors.length, 10) *)
            let errors := take (Nat.min (length errors) 10) errors in
            Some (<[cid := errors]> acc)
        | _ => None
        end
    end.

(** The predicate given to [filter]. *)
Definition is_connection_error (error : AppError) : bool :=
  startsWith (key error) "connection_".

(** [scan]: the accumulator passed on last, and whether the stream has
    ended. When the reducer throws, [scan] passes the error on and the
    stream ends: no later value reaches the reducer. *)
Record Scanned := {
  latest : gmap string (list AppError);
  ended : bool
}.

Definition scan_next (state : Scanned) (value : AppError) : Scanned :=
  if ended state then state
  else
    match scan_step (latest state) value with
    | Some acc => {| latest := acc; ended := false |}
    | None => {| latest := latest state; ended := true |}
    end.

(** [connectionErrors$] once [errors$] has emitted [emitted], oldest
    first, for a subscriber that was there from the start:
    [startWith({})] gives the empty dictionary before any error passes
    the filter. *)
Definition connectionErrors_scanned (emitted : list AppError) : Scanned :=
  fold_left scan_next (List.filter is_connection_error emitted)
    {| latest := ∅; ended := false |}.

(** The value of [connectionErrors$] that the subscriber received
    last. *)
Definition connectionErrors (emitted : list AppError)
  : gmap string (list AppError) :=
  latest (connectionErrors_scanned emitted).

End Streams.

(** ** Outcomes, worlds and the monad of asynchronous code *)

(** A settled promise, or a completed [try] block: a value or a thrown
    error. *)
Inductive Outcome (E A : Type) : Type :=
| Ok (a : A)
| Throw (e : E).

Arguments Ok {E A} a.
Arguments Throw {E A} e.

Definition outcome_map {E A B} (f : A -> B) (o : Outcome E A) : Outcome E B :=
  match o with
  | Ok a => Ok (f a)
  | Throw e => Throw e
  end.

(** What the caller of an operation can catch: the error an operation
    mapped with [handleError], or a raw error that got past its [catch]. *)
Inductive Thrown : Type :=
| Raw (e : CoreLnError)
| Mapped (e : AppError).

(** [Promise.all]: every task has a slot in the result array, filled when
    the task completes, whatever the order of completion; the first
    rejection to happen rejects the whole. [order] names tasks in the
    order they complete; indices out of range or named twice are
    skipped. *)
Fixpoint settle {E A} (tasks : list (Outcome E A)) (order : list nat)
    (slots : list (option A)) : Outcome E (list (option A)) :=
  match order with
  | [] => Ok slots
  | i :: order =>
      match slots !! i, tasks !! i with
      | Some None, Some (Ok v) => settle tasks order (<[i := Some v]> slots)
      | Some None, Some (Throw e) => Throw e
      | _, _ => settle tasks order slots
      end
  end.

(** Every list of indices is a schedule: the tasks it names complete in
    that order and the tasks it leaves out complete after them, in index
    order. Every completion order of [n] tasks is the schedule given by a
    permutation of [seq 0 n]. *)
Definition Promise_all {E A} (tasks : list (Outcome E A)) (order : list nat)
  : Outcome E (list A) :=
  let n := length tasks in
  match settle tasks (order ++ seq 0 n) (replicate n None) with
  | Ok slots => Ok (omap (fun slot => slot) slots)
  | Throw e => Throw e
  end.

(** The calls the code can make on the node, with their parameters. *)

Module OfferParams.
Record t := {
  amount : option string;
  description : string;
  issuer : option string;
  label : string;
  quantity_max : option Z;
  absolute_expiry : option Z;
  single_use : option bool
}.
End OfferParams.

Module InvoiceRequestParams.
Record t := {
  amount : option string;
  description : string;
  issuer : option string;
  label : string;
  absolute_expiry : option Z;
  single_use : option bool
}.
End InvoiceRequestParams.

Module FetchInvoiceParams.
Record t := {
  offer : string;
  amount_msat : option string;
  quantity : option Z;
  timeout : option Z;
  payer_note : option string
}.
End FetchInvoiceParams.

(** An element of a positional parameter list. *)
Inductive JsVal : Type :=
| JUndefined
| JStr (s : string)
| JNum (n : Z).

Definition of_str (v : option string) : JsVal :=
  match v with Some s => JStr s | None => JUndefined end.

Definition of_num (v : option Z) : JsVal :=
  match v with Some n => JNum n | None => JUndefined end.

(** A call of [connection.rpc({ method, params })]. *)
Module Rpc.
Inductive Call : Type :=
| listoffers
| listinvoicerequests
| offer (params : OfferParams.t)
| disableoffer (offer_id : string)
| invoicerequest (params : InvoiceRequestParams.t)
| disableinvoicerequest (invreq_id : string)
| fetchinvoice (params : FetchInvoiceParams.t)
| sendinvoice (params : list JsVal)
| pay (params : list JsVal).
End Rpc.

(** What an operation has done to its surroundings: the RPC calls issued
    and the errors pushed on [connection.errors$], both oldest first, and
    how often [nowSeconds] and [createRandomHex] were called. *)
Record World := {
  calls : list Rpc.Call;
  pushed : list AppError;
  clock_reads : nat;
  random_draws : nat
}.

Definition initial : World :=
  {| calls := []; pushed := []; clock_reads := 0%nat; random_draws := 0%nat |}.

(** What the surroundings decide: the clock reading and the random
    identifier of each call, and the completion order of the tasks of
    each [Promise.all] of an operation. *)
Record Env := {
  time_at : nat -> Z;
  hex_at : nat -> string;
  completion : nat -> list nat
}.

Definition M (E A : Type) : Type := World -> Outcome E A * World.

Definition ret {E A} (a : A) : M E A := fun w => (Ok a, w).

Definition throw {E A} (e : E) : M E A := fun w => (Throw e, w).

Definition bind {E A B} (m : M E A) (k : A -> M E B) : M E B :=
  fun w =>
    match m w with
    | (Ok a, w') => k a w'
    | (Throw e, w') => (Throw e, w')
    end.

Notation "'let*' x ':=' c 'in' k" := (bind c (fun x => k))
  (at level 10, x name, c at level 100, k at level 200).

Notation "c ';;' k" := (bind c (fun _ => k))
  (at level 100, k at level 200, right associativity).

(** [await] of a promise that settles with [o]. *)
Definition await {E A} (o : Outcome E A) : M E A := fun w => (o, w).

(** [try { body } catch (error) { handler }] *)
Definition try_catch {E E' A} (body : M E A) (handler : E -> M E' A) : M E' A :=
  fun w =>
    match body w with
    | (Ok a, w') => (Ok a, w')
    | (Throw e, w') => handler e w'
    end.

(** An [async] function that returns a promise without awaiting it
    settles the way that promise does, outside of its own [try]. *)
Definition settle_as {A} (p : Outcome CoreLnError A) : M Thrown A :=
  fun w =>
    match p with
    | Ok a => (Ok a, w)
    | Throw e => (Throw (Raw e), w)
    end.

(** [nowSeconds()] *)
Definition nowSeconds {E} (env : Env) : M E Z :=
  fun w =>
    (Ok (time_at env (clock_reads w)),
     {| calls := calls w; pushed := pushed w;
        clock_reads := S (clock_reads w); random_draws := random_draws w |}).

(** [createRandomHex()] *)
Definition createRandomHex {E} (env : Env) : M E string :=
  fun w =>
    (Ok (hex_at env (random_draws w)),
     {| calls := calls w; pushed := pushed w;
        clock_reads := clock_reads w; random_draws := S (random_draws w) |}).

(** Calling [connection.rpc] puts the call on the wire. *)
Definition issue {E} (call : Rpc.Call) : M E unit :=
  fun w =>
    (Ok tt,
     {| calls := calls w ++ [call]; pushed := pushed w;
        clock_reads := clock_reads w; random_draws := random_draws w |}).

(** [await connection.rpc(call)], the node answering [reply]. *)
Definition rpc {R} (call : Rpc.Call) (reply : Outcome CoreLnError R)
  : M CoreLnError R :=
  issue call ;; await reply.

(** [connection.errors$.next(error)] *)
Definition errors_next {E} (error : AppError) : M E unit :=
  fun w =>
    (Ok tt,
     {| calls := calls w; pushed := pushed w ++ [error];
        clock_reads := clock_reads w; random_draws := random_draws w |}).

(** ** The types of [@types/offers.js] and [coreln/types.js], as the code
    uses them *)

Inductive OfferType : Type := pay_offer | withdraw_offer.

Inductive Denomination : Type :=
| btc
| sats
| msats
| fiat (unit : string).

Module CreatePayOfferOptions.
Record t := {
  amount : option string;
  description : string;
  issuer : option string;
  label : string;
  quantityMax : option Z;
  expiry : option Z;
  singleUse : option bool
}.
End CreatePayOfferOptions.

Module CreateWithdrawOfferOptions.
Record t := {
  amount : string;
  description : string;
  issuer : option string;
  label : string;
  expiry : option Z;
  singleUse : option bool
}.
End CreateWithdrawOfferOptions.

Module FetchInvoiceOptions.
Record t := {
  amount : option string;
  offer : string;
  quantity : option Z;
  timeout : option Z;
  payerNote : option string
}.
End FetchInvoiceOptions.

Module SendInvoiceOptions.
Record t := {
  offer : string;
  label : string;
  amount : option string;
  timeout : option Z;
  quantity : option Z
}.
End SendInvoiceOptions.

Module OfferSummary.
Record t := {
  offer_id : string;
  bolt12 : string;
  active : bool;
  single_use : bool;
  used : bool;
  label : option string
}.
End OfferSummary.

Module InvoiceRequestSummary.
Record t := {
  invreq_id : string;
  bolt12 : string;
  active : bool;
  single_use : bool;
  used : bool;
  label : option string
}.
End InvoiceRequestSummary.

Module CreatePayOfferResponse.
Record t := {
  offer_id : string;
  bolt12 : string;
  used : bool;
  single_use : bool;
  active : bool
}.
End CreatePayOfferResponse.

Module CreateWithdrawOfferResponse.
Record t := {
  invreq_id : string;
  bolt12 : string;
  used : bool;
  single_use : bool;
  active : bool
}.
End CreateWithdrawOfferResponse.

Module SendInvoiceResponse.
Record t := {
  payment_hash : string;
  payment_preimage : option string;
  status : string;
  bolt12 : option string;
  expires_at : option Z;
  paid_at : option Z;
  amount_received_msat : option string;
  pay_index : option Z
}.
End SendInvoiceResponse.

Module PayResponse.
Record t := {
  payment_hash : string;
  payment_preimage : option string;
  created_at : Z;
  amount_msat : option string;
  amount_sent_msat : option string;
  status : string;
  destination : option string
}.
End PayResponse.

(** An offer; of [walletId], [nodeId] and [connectionId] a backend sets
    the ones it knows. *)
Module Offer.
Record t := {
  id : string;
  bolt12 : string;
  type : OfferType;
  denomination : Denomination;
  amount : option string;
  description : string;
  walletId : option string;
  nodeId : option string;
  connectionId : option string;
  used : bool;
  singleUse : bool;
  active : bool;
  label : option string;
  expiry : option Z;
  issuer : option string;
  quantityMax : option Z
}.
End Offer.

(** What [decodeBolt12] reads in an offer. *)
Module DecodedOffer.
Record t := {
  description : string;
  denomination : Denomination;
  amount : option string;
  issuer : option string
}.
End DecodedOffer.

(** The two answers awaited together by [get]. *)
Inductive ListingResponse : Type :=
| ListOffersResponse (offers : list OfferSummary.t)
| ListInvoiceRequestsResponse (invoicerequests : list InvoiceRequestSummary.t).

(** [const { offers } = response as ListOffersResponse]: the cast checks
    nothing, a response of another shape has no such property. *)
Definition offers_of (response : option ListingResponse)
  : option (list OfferSummary.t) :=
  match response with
  | Some (ListOffersResponse offers) => Some offers
  | _ => None
  end.

Definition invoicerequests_of (response : option ListingResponse)
  : option (list InvoiceRequestSummary.t) :=
  match response with
  | Some (ListInvoiceRequestsResponse invoicerequests) => Some invoicerequests
  | _ => None
  end.

(** Calling a method of [undefined] throws a [TypeError]. *)
Definition TypeError : CoreLnError :=
  {| code := None; message := "TypeError: Cannot read properties of undefined" |}.

Definition defined {A} (v : option A) : M CoreLnError A :=
  match v with
  | Some a => ret a
  | None => throw TypeError
  end.

Inductive PaymentType : Type := type_bolt12.

Inductive Direction : Type := receive | send.

(** An element of [[...offers, ...invoicerequests]] in the connection
    backends, read once as an [OfferSummary] and once as an
    [InvoiceRequestSummary]: a property the element does not have is
    [undefined]. *)
Module Listed.
Definition t : Type := OfferSummary.t + InvoiceRequestSummary.t.

Definition offer_id (offer : t) : option string :=
  match offer with
  | inl o => Some (OfferSummary.offer_id o)
  | inr _ => None
  end.

Definition invreq_id (offer : t) : option string :=
  match offer with
  | inl _ => None
  | inr r => Some (InvoiceRequestSummary.invreq_id r)
  end.

Definition bolt12 (offer : t) : string :=
  match offer with
  | inl o => OfferSummary.bolt12 o
  | inr r => InvoiceRequestSummary.bolt12 r
  end.

Definition active (offer : t) : bool :=
  match offer with
  | inl o => OfferSummary.active o
  | inr r => InvoiceRequestSummary.active r
  end.

Definition single_use (offer : t) : bool :=
  match offer with
  | inl o => OfferSummary.single_use o
  | inr r => InvoiceRequestSummary.single_use r
  end.

Definition used (offer : t) : bool :=
  match offer with
  | inl o => OfferSummary.used o
  | inr r => InvoiceRequestSummary.used r
  end.

Definition label (offer : t) : option string :=
  match offer with
  | inl o => OfferSummary.label o
  | inr r => InvoiceRequestSummary.label r
  end.
End Listed.

(** What [get] of the connection backends returns for an element:
    [{ ...formattedOffer, active, single_use, used, bolt12, label }]. *)
Module FormattedOffer.
Record t := {
  formattedOffer : Offer.t;
  active : bool;
  single_use : bool;
  used : bool;
  bolt12 : string;
  label : option string
}.
End FormattedOffer.

(** The invoice of the connection backends; [request] is called
    [invoice] in [connections/coreln/offers.ts]. *)
Module Payment.
Record t := {
  id : string;
  hash : string;
  preimage : option string;
  type : PaymentType;
  direction : Direction;
  nodeId : string;
  value : string;
  completedAt : Z;
  expiresAt : option Z;
  startedAt : Z;
  fee : option string;
  status : string;
  request : option string;
  payIndex : option Z;
  connectionId : option string
}.
End Payment.

(** ** What the operations are given *)

(** The node at the other end of [connection.rpc]: what it answers to
    each method. *)
Module Node.
Record t := {
  listoffers : Outcome CoreLnError (list OfferSummary.t);
  listinvoicerequests : Outcome CoreLnError (list InvoiceRequestSummary.t);
  offer : OfferParams.t -> Outcome CoreLnError CreatePayOfferResponse.t;
  disableoffer : string -> Outcome CoreLnError unit;
  invoicerequest :
    InvoiceRequestParams.t -> Outcome CoreLnError CreateWithdrawOfferResponse.t;
  disableinvoicerequest : string -> Outcome CoreLnError unit;
  fetchinvoice : FetchInvoiceParams.t -> Outcome CoreLnError string;
  sendinvoice : list JsVal -> Outcome CoreLnError SendInvoiceResponse.t;
  pay : list JsVal -> Outcome CoreLnError PayResponse.t
}.
End Node.

(** [CorelnConnectionInterface]: [walletId] in the wallet backend,
    [info.id] and [info.connectionId] in the connection backends. *)
Module Connection.
Record t := {
  walletId : string;
  info_id : string;
  info_connectionId : string;
  node : Node.t
}.
End Connection.

(** The helpers the three files import from modules that are not among
    the sources ([$lib/conversion.js], [$lib/invoices.js], [$lib/utils.js],
    [./utils.js], [./error.js]). The operations are embedded over any
    implementation of them; a helper that can fail returns an outcome. *)
Module Lib.
Record t := {
  satsToMsats : string -> Outcome CoreLnError string;
  msatsToSats : string -> Outcome CoreLnError string;
  formatMsatString : option string -> Outcome CoreLnError string;
  stripMsatSuffix : option string -> Outcome CoreLnError string;
  formatMsat : option string -> Outcome CoreLnError string;
  decodeBolt12 : string -> Outcome CoreLnError DecodedOffer.t;
  bolt12ToOffer : string -> option string -> Outcome CoreLnError Offer.t;
  invoiceStatusToPaymentStatus : string -> option Z -> string;
  errorKey : CoreLnError -> string
}.
End Lib.

(** Modelled from the spec: [handleError] of [./error.js], which is not
    among the sources. The spec has it a pure mapping that never throws,
    from the raw error, the context string and the connection identifier
    to one structured error that carries all three and a [key] naming the
    error class. The three are laid out under [detail], where [streams.ts]
    reads the connection identifier; the connection identifier is
    [undefined] when the caller passes two arguments. *)
Definition handleError (lib : Lib.t) (error : CoreLnError) (context : string)
    (connectionId : option string) : AppError :=
  {| key := Lib.errorKey lib error;
     detail := {| context := context;
                  connectionId := connectionId;
                  payload := error |} |}.

(** ** [big.js], as far as the code uses it *)

(** Decimal strings of natural numbers and of integers. *)
Definition parse_nat (s : string) : option N :=
  if String.eqb s "" then None
  else option_map N.of_uint (NilEmpty.uint_of_string s).

Definition print_nat (n : N) : string :=
  NilEmpty.string_of_uint (N.to_uint n).

Definition parse_int (s : string) : option Z :=
  match s with
  | String "-"%char digits => option_map (fun n => - Z.of_N n) (parse_nat digits)
  | _ => option_map Z.of_N (parse_nat s)
  end.

Definition print_int (z : Z) : string :=
  if z <? 0 then String "-"%char (print_nat (Z.to_N (- z)))
  else print_nat (Z.to_N z).

Definition BigError : CoreLnError :=
  {| code := None; message := "[big.js] Invalid number" |}.

(** [Big(s)] on the strings of integers, which is what amounts in
    millisatoshis are and what the properties of this file are stated
    for. [big.js] also reads fractions and exponents: these are left out
    of the model, which throws on them as on any string that is not an
    integer. *)
Definition Big (s : string) : Outcome CoreLnError Z :=
  match parse_int s with
  | Some z => Ok z
  | None => Throw BigError
  end.

(** [x.minus(s)] *)
Definition Big_minus (x : Z) (s : string) : Outcome CoreLnError Z :=
  match parse_int s with
  | Some y => Ok (x - y)
  | None => Throw BigError
  end.

(** Drop the zeros that start a list of digits. *)
Fixpoint drop_zeros (digits : list ascii) : list ascii :=
  match digits with
  | "0"%char :: digits' => drop_zeros digits'
  | _ => digits
  end.

(** [x.toString()]: plain digits below [1e21], and from there on the
    digits without the zeros that end them, a point after the first one
    and the exponent. *)
Definition Big_toString (x : Z) : string :=
  let digits := list_ascii_of_string (print_nat (Z.abs_N x)) in
  let sign := if x <? 0 then "-" else "" in
  if (length digits <=? 21)%nat then sign ++ string_of_list_ascii digits
  else
    match rev (drop_zeros (rev digits)) with
    | [] => sign ++ string_of_list_ascii digits
    | d :: [] =>
        sign ++ String d ("e+" ++ print_nat (N.of_nat (length digits - 1)))
    | d :: more =>
        sign ++ String d ("." ++ string_of_list_ascii more
                              ++ "e+" ++ print_nat (N.of_nat (length digits - 1)))
    end.

(** ** [src/lib/wallets/coreln/offers.ts] *)

Module Wallet.

Module Invoice.
Record t := {
  id : string;
  hash : string;
  preimage : option string;
  nodeId : option string;
  type : PaymentType;
  direction : Direction;
  amount : string;
  completedAt : Z;
  expiresAt : option Z;
  createdAt : Z;
  fee : option string;
  status : string;
  request : option string;
  payIndex : option Z;
  walletId : string
}.
End Invoice.

Section Offers.

Variable lib : Lib.t.
Variable connection : Connection.t.
Variable env : Env.

Definition get : M Thrown (list Offer.t) :=
  try_catch
    (issue Rpc.listoffers ;;
     issue Rpc.listinvoicerequests ;;
     let* responses :=
       await (Promise_all
                [outcome_map ListOffersResponse
                   (Node.listoffers (Connection.node connection));
                 outcome_map ListInvoiceRequestsResponse
                   (Node.listinvoicerequests (Connection.node connection))]
                (completion env 0)) in
     let offersResponse := responses !! 0%nat in
     let invoiceRequestsResponse := responses !! 1%nat in
     let* offers := defined (offers_of offersResponse) in
     let* formattedOffers :=
       await (Promise_all
                (map (fun offer =>
                        outcome_map
                          (fun decoded =>
                             {| Offer.id := OfferSummary.offer_id offer;
                                Offer.active := OfferSummary.active offer;
                                Offer.singleUse := OfferSummary.single_use offer;
                                Offer.used := OfferSummary.used offer;
                                Offer.bolt12 := OfferSummary.bolt12 offer;
                                Offer.label := OfferSummary.label offer;
                                Offer.walletId := Some (Connection.walletId connection);
                                Offer.nodeId := None;
                                Offer.connectionId := None;
                                Offer.description := DecodedOffer.description decoded;
                                Offer.type := pay_offer;
                                Offer.denomination := DecodedOffer.denomination decoded;
                                Offer.amount := DecodedOffer.amount decoded;
                                Offer.issuer := DecodedOffer.issuer decoded;
                                Offer.expiry := None;
                                Offer.quantityMax := None |})
                          (Lib.decodeBolt12 lib (OfferSummary.bolt12 offer)))
                     offers)
                (completion env 1)) in
     let* invoicerequests := defined (invoicerequests_of invoiceRequestsResponse) in
     let* formattedInvoiceRequests :=
       await (Promise_all
                (map (fun offer =>
                        outcome_map
                          (fun decoded =>
                             {| Offer.id := InvoiceRequestSummary.invreq_id offer;
                                Offer.active := InvoiceRequestSummary.active offer;
                                Offer.singleUse := InvoiceRequestSummary.single_use offer;
                                Offer.used := InvoiceRequestSummary.used offer;
                                Offer.bolt12 := InvoiceRequestSummary.bolt12 offer;
                                Offer.label := InvoiceRequestSummary.label offer;
                                Offer.walletId := Some (Connection.walletId connection);
                                Offer.nodeId := None;
                                Offer.connectionId := None;
                                Offer.description := DecodedOffer.description decoded;
                                Offer.type := withdraw_offer;
                                Offer.denomination := DecodedOffer.denomination decoded;
                                Offer.amount := DecodedOffer.amount decoded;
                                Offer.issuer := DecodedOffer.issuer decoded;
                                Offer.expiry := None;
                                Offer.quantityMax := None |})
                          (Lib.decodeBolt12 lib (InvoiceRequestSummary.bolt12 offer)))
                     invoicerequests)
                (completion env 2)) in
     ret (formattedOffers ++ formattedInvoiceRequests))
    (fun error =>
       let context := "get (offers)" in
       let connectionError :=
         handleError lib error context (Some (Connection.walletId connection)) in
       errors_next connectionError ;;
       throw (Mapped connectionError)).

Definition createPay (options : CreatePayOfferOptions.t) : M Thrown Offer.t :=
  try_catch
    (let amount := CreatePayOfferOptions.amount options in
     let description := CreatePayOfferOptions.description options in
     let issuer := CreatePayOfferOptions.issuer options in
     let label := CreatePayOfferOptions.label options in
     let quantityMax := CreatePayOfferOptions.quantityMax options in
     let expiry := CreatePayOfferOptions.expiry options in
     let singleUse := CreatePayOfferOptions.singleUse options in
     (* expiry && nowSeconds() + expiry *)
     let* absoluteExpiry :=
       if truthy_num expiry
       then let* now := nowSeconds env in ret (option_map (Z.add now) expiry)
       else ret expiry in
     (* amount ? satsToMsats(amount) : 'any' *)
     let* amountParam :=
       if truthy_str amount
       then await (Lib.satsToMsats lib (default "" amount))
       else ret "any" in
     let params :=
       {| OfferParams.amount := Some amountParam;
          OfferParams.description := description;
          OfferParams.issuer := issuer;
          OfferParams.label := label;
          OfferParams.quantity_max := quantityMax;
          OfferParams.absolute_expiry := absoluteExpiry;
          OfferParams.single_use := singleUse |} in
     let* result :=
       rpc (Rpc.offer params) (Node.offer (Connection.node connection) params) in
     ret {| Offer.id := CreatePayOfferResponse.offer_id result;
            Offer.bolt12 := CreatePayOfferResponse.bolt12 result;
            Offer.type := pay_offer;
            Offer.denomination := sats;
            Offer.amount := amount;
            Offer.description := description;
            Offer.walletId := Some (Connection.walletId connection);
            Offer.nodeId := None;
            Offer.connectionId := None;
            Offer.used := CreatePayOfferResponse.used result;
            Offer.singleUse := CreatePayOfferResponse.single_use result;
            Offer.active := CreatePayOfferResponse.active result;
            Offer.label := Some label;
            Offer.expiry := absoluteExpiry;
            Offer.issuer := issuer;
            Offer.quantityMax := quantityMax |})
    (fun error =>
       let context := "createPay (offers)" in
       let connectionError :=
         handleError lib error context (Some (Connection.walletId connection)) in
       errors_next connectionError ;;
       throw (Mapped connectionError)).

Definition disablePay (offerId : string) : M Thrown unit :=
  try_catch
    (rpc (Rpc.disableoffer offerId)
         (Node.disableoffer (Connection.node connection) offerId))
    (fun error =>
       let context := "disablePay (offers)" in
       let connectionError :=
         handleError lib error context (Some (Connection.walletId connection)) in
       errors_next connectionError ;;
       throw (Mapped connectionError)).

Definition createWithdraw (options : CreateWithdrawOfferOptions.t) : M Thrown Offer.t :=
  try_catch
    (let amount := CreateWithdrawOfferOptions.amount options in
     let description := CreateWithdrawOfferOptions.description options in
     let issuer := CreateWithdrawOfferOptions.issuer options in
     let label := CreateWithdrawOfferOptions.label options in
     let expiry := CreateWithdrawOfferOptions.expiry options in
     let singleUse := CreateWithdrawOfferOptions.singleUse options in
     (* expiry && expiry + nowSeconds() *)
     let* absoluteExpiry :=
       if truthy_num expiry
       then let* now := nowSeconds env in
            ret (option_map (fun expiry => expiry + now) expiry)
       else ret expiry in
     let* amountParam := await (Lib.satsToMsats lib amount) in
     let params :=
       {| InvoiceRequestParams.amount := Some amountParam;
          InvoiceRequestParams.description := description;
          InvoiceRequestParams.issuer := issuer;
          InvoiceRequestParams.label := label;
          InvoiceRequestParams.absolute_expiry := absoluteExpiry;
          InvoiceRequestParams.single_use := singleUse |} in
     let* result :=
       rpc (Rpc.invoicerequest params)
           (Node.invoicerequest (Connection.node connection) params) in
     ret {| Offer.id := CreateWithdrawOfferResponse.invreq_id result;
            Offer.bolt12 := CreateWithdrawOfferResponse.bolt12 result;
            Offer.type := withdraw_offer;
            Offer.denomination := sats;
            Offer.amount := Some amount;
            Offer.description := description;
            Offer.walletId := Some (Connection.walletId connection);
            Offer.nodeId := None;
            Offer.connectionId := None;
            Offer.used := CreateWithdrawOfferResponse.used result;
            Offer.singleUse := CreateWithdrawOfferResponse.single_use result;
            Offer.active := CreateWithdrawOfferResponse.active result;
            Offer.label := Some label;
            Offer.expiry := expiry;
            Offer.issuer := issuer;
            Offer.quantityMax := None |})
    (fun error =>
       let context := "createWithdraw (offers)" in
       let connectionError :=
         handleError lib error context (Some (Connection.walletId connection)) in
       errors_next connectionError ;;
       throw (Mapped connectionError)).

Definition disableWithdraw (invoiceRequestId : string) : M Thrown unit :=
  try_catch
    (rpc (Rpc.disableinvoicerequest invoiceRequestId)
         (Node.disableinvoicerequest (Connection.node connection) invoiceRequestId))
    (fun error =>
       let context := "disableWithdraw (offers)" in
       let connectionError :=
         handleError lib error context (Some (Connection.walletId connection)) in
       errors_next connectionError ;;
       throw (Mapped connectionError)).

Definition fetchInvoice (options : FetchInvoiceOptions.t) : M Thrown string :=
  try_catch
    (let amount := FetchInvoiceOptions.amount options in
     let offer := FetchInvoiceOptions.offer options in
     let quantity := FetchInvoiceOptions.quantity options in
     let timeout := FetchInvoiceOptions.timeout options in
     let payerNote := FetchInvoiceOptions.payerNote options in
     (* amount && satsToMsats(amount) *)
     let* amount_msat :=
       if truthy_str amount
       then await (outcome_map Some (Lib.satsToMsats lib (default "" amount)))
       else ret amount in
     let params :=
       {| FetchInvoiceParams.offer := offer;
          FetchInvoiceParams.amount_msat := amount_msat;
          FetchInvoiceParams.quantity := quantity;
          FetchInvoiceParams.timeout := timeout;
          FetchInvoiceParams.payer_note := payerNote |} in
     let* invoice :=
       rpc (Rpc.fetchinvoice params)
           (Node.fetchinvoice (Connection.node connection) params) in
     ret invoice)
    (fun error =>
       let context := "fetchInvoice (offers)" in
       let connectionError :=
         handleError lib error context (Some (Connection.walletId connection)) in
       errors_next connectionError ;;
       throw (Mapped connectionError)).

Definition sendInvoice (options : SendInvoiceOptions.t) : M Thrown Invoice.t :=
  try_catch
    (let offer := SendInvoiceOptions.offer options in
     let label := SendInvoiceOptions.label options in
     let amount := SendInvoiceOptions.amount options in
     let timeout := SendInvoiceOptions.timeout options in
     let quantity := SendInvoiceOptions.quantity options in
     let* createdAt := nowSeconds env in
     (* amount && satsToMsats(amount) *)
     let* amountMsat :=
       if truthy_str amount
       then await (outcome_map Some (Lib.satsToMsats lib (default "" amount)))
       else ret amount in
     let orderedParams :=
       if truthy_str amountMsat
       then [JStr offer; JStr label; of_str amountMsat; of_num timeout; of_num quantity]
       else [JStr offer; JStr label; of_num timeout; of_num quantity] in
     let* result :=
       rpc (Rpc.sendinvoice orderedParams)
           (Node.sendinvoice (Connection.node connection) orderedParams) in
     let payment_hash := SendInvoiceResponse.payment_hash result in
     let payment_preimage := SendInvoiceResponse.payment_preimage result in
     let status := SendInvoiceResponse.status result in
     let bolt12 := SendInvoiceResponse.bolt12 result in
     let expires_at := SendInvoiceResponse.expires_at result in
     let paid_at := SendInvoiceResponse.paid_at result in
     let amount_received_msat := SendInvoiceResponse.amount_received_msat result in
     let pay_index := SendInvoiceResponse.pay_index result in
     let* formatted :=
       await (Lib.formatMsatString lib (or_str amount_received_msat amountMsat)) in
     let* amountSats := await (Lib.msatsToSats lib formatted) in
     (* paid_at ? paid_at : nowSeconds() *)
     let* completedAt :=
       if truthy_num paid_at then ret (default 0 paid_at) else nowSeconds env in
     ret {| Invoice.id := label;
            Invoice.hash := payment_hash;
            Invoice.preimage := payment_preimage;
            Invoice.nodeId := None;
            Invoice.type := type_bolt12;
            Invoice.direction := receive;
            Invoice.amount := amountSats;
            Invoice.completedAt := completedAt;
            Invoice.expiresAt := expires_at;
            Invoice.createdAt := createdAt;
            Invoice.fee := None;
            Invoice.status := Lib.invoiceStatusToPaymentStatus lib status expires_at;
            Invoice.request := bolt12;
            Invoice.payIndex := pay_index;
            Invoice.walletId := Connection.walletId connection |})
    (fun error =>
       let context := "sendInvoice (offers)" in
       let connectionError :=
         handleError lib error context (Some (Connection.walletId connection)) in
       errors_next connectionError ;;
       throw (Mapped connectionError)).

Definition payInvoice (bolt12 : string) : M Thrown Invoice.t :=
  try_catch
    (let params := [JStr bolt12] in
     let* result :=
       rpc (Rpc.pay params) (Node.pay (Connection.node connection) params) in
     let payment_hash := PayResponse.payment_hash result in
     let payment_preimage := PayResponse.payment_preimage result in
     let created_at := PayResponse.created_at result in
     let amount_msat := PayResponse.amount_msat result in
     let amount_sent_msat := PayResponse.amount_sent_msat result in
     let status := PayResponse.status result in
     let destination := PayResponse.destination result in
     let* id := createRandomHex env in
     let* formatted := await (Lib.formatMsatString lib amount_msat) in
     let* amountSats := await (Lib.msatsToSats lib formatted) in
     let* completedAt := nowSeconds env in
     (* Big(formatMsatString(amount_sent_msat))
          .minus(formatMsatString(amount_msat)).toString() *)
     let* sent := await (Lib.formatMsatString lib amount_sent_msat) in
     let* x := await (Big sent) in
     let* requested := await (Lib.formatMsatString lib amount_msat) in
     let* difference := await (Big_minus x requested) in
     let* fee := await (Lib.msatsToSats lib (Big_toString difference)) in
     ret {| Invoice.id := id;
            Invoice.hash := payment_hash;
            Invoice.preimage := payment_preimage;
            Invoice.nodeId := destination;
            Invoice.type := type_bolt12;
            Invoice.direction := send;
            Invoice.amount := amountSats;
            Invoice.completedAt := completedAt;
            Invoice.expiresAt := None;
            Invoice.createdAt := created_at;
            Invoice.fee := Some fee;
            Invoice.status := status;
            Invoice.request := Some bolt12;
            Invoice.payIndex := None;
            Invoice.walletId := Connection.walletId connection |})
    (fun error =>
       let context := "sendInvoice (offers)" in
       let connectionError :=
         handleError lib error context (Some (Connection.walletId connection)) in
       errors_next connectionError ;;
       throw (Mapped connectionError)).

End Offers.

End Wallet.

(** ** The connection backend that reports to the error channel *)

Module Conn.

Section Offers.

Variable lib : Lib.t.
Variable connection : Connection.t.
Variable env : Env.

(** [get] returns [Promise.all(formatted)] without awaiting it: the promise
    leaves the [try] block unsettled and [get] settles the way it does. *)
Definition get : M Thrown (list FormattedOffer.t) :=
  let* promise :=
    try_catch
      (issue Rpc.listoffers ;;
       issue Rpc.listinvoicerequests ;;
       let* responses :=
         await (Promise_all
                  [outcome_map ListOffersResponse
                     (Node.listoffers (Connection.node connection));
                   outcome_map ListInvoiceRequestsResponse
                     (Node.listinvoicerequests (Connection.node connection))]
                  (completion env 0)) in
       let offersResponse := responses !! 0%nat in
       let invoiceRequestsResponse := responses !! 1%nat in
       let* offers := defined (offers_of offersResponse) in
       let* invoicerequests := defined (invoicerequests_of invoiceRequestsResponse) in
       let formatted :=
         map (fun offer : Listed.t =>
                outcome_map
                  (fun formattedOffer =>
                     {| FormattedOffer.formattedOffer := formattedOffer;
                        FormattedOffer.active := Listed.active offer;
                        FormattedOffer.single_use := Listed.single_use offer;
                        FormattedOffer.used := Listed.used offer;
                        FormattedOffer.bolt12 := Listed.bolt12 offer;
                        FormattedOffer.label := Listed.label offer |})
                  (Lib.bolt12ToOffer lib (Listed.bolt12 offer)
                     (or_str (Listed.offer_id offer) (Listed.invreq_id offer))))
             (map inl offers ++ map inr invoicerequests) in
       ret (Promise_all formatted (completion env 1)))
      (fun error =>
         let context := "get (offers)" in
         let connectionError :=
           handleError lib error context
             (Some (Connection.info_connectionId connection)) in
         errors_next connectionError ;;
         throw (Mapped connectionError)) in
  settle_as promise.

Definition createPay (options : CreatePayOfferOptions.t) : M Thrown Offer.t :=
  try_catch
    (let amount := CreatePayOfferOptions.amount options in
     let description := CreatePayOfferOptions.description options in
     let issuer := CreatePayOfferOptions.issuer options in
     let label := CreatePayOfferOptions.label options in
     let quantityMax := CreatePayOfferOptions.quantityMax options in
     let expiry := CreatePayOfferOptions.expiry options in
     let singleUse := CreatePayOfferOptions.singleUse options in
     let params :=
       {| OfferParams.amount := amount;
          OfferParams.description := description;
          OfferParams.issuer := issuer;
          OfferParams.label := label;
          OfferParams.quantity_max := quantityMax;
          OfferParams.absolute_expiry := expiry;
          OfferParams.single_use := singleUse |} in
     let* result :=
       rpc (Rpc.offer params) (Node.offer (Connection.node connection) params) in
     ret {| Offer.id := CreatePayOfferResponse.offer_id result;
            Offer.bolt12 := CreatePayOfferResponse.bolt12 result;
            Offer.type := pay_offer;
            Offer.denomination := msats;
            Offer.amount := amount;
            Offer.description := description;
            Offer.walletId := None;
            Offer.nodeId := Some (Connection.info_id connection);
            Offer.connectionId := Some (Connection.info_connectionId connection);
            Offer.used := CreatePayOfferResponse.used result;
            Offer.singleUse := CreatePayOfferResponse.single_use result;
            Offer.active := CreatePayOfferResponse.active result;
            Offer.label := Some label;
            Offer.expiry := expiry;
            Offer.issuer := issuer;
            Offer.quantityMax := quantityMax |})
    (fun error =>
       let context := "createPay (offers)" in
       let connectionError :=
         handleError lib error context
           (Some (Connection.info_connectionId connection)) in
       errors_next connectionError ;;
       throw (Mapped connectionError)).

Definition disablePay (offerId : string) : M Thrown unit :=
  try_catch
    (rpc (Rpc.disableoffer offerId)
         (Node.disableoffer (Connection.node connection) offerId))
    (fun error =>
       let context := "disablePay (offers)" in
       let connectionError :=
         handleError lib error context
           (Some (Connection.info_connectionId connection)) in
       errors_next connectionError ;;
       throw (Mapped connectionError)).

Definition createWithdraw (options : CreateWithdrawOfferOptions.t) : M Thrown Offer.t :=
  try_catch
    (let amount := CreateWithdrawOfferOptions.amount options in
     let description := CreateWithdrawOfferOptions.description options in
     let issuer := CreateWithdrawOfferOptions.issuer options in
     let label := CreateWithdrawOfferOptions.label options in
     let expiry := CreateWithdrawOfferOptions.expiry options in
     let singleUse := CreateWithdrawOfferOptions.singleUse options in
     let params :=
       {| InvoiceRequestParams.amount := Some amount;
          InvoiceRequestParams.description := description;
          InvoiceRequestParams.issuer := issuer;
          InvoiceRequestParams.label := label;
          InvoiceRequestParams.absolute_expiry := expiry;
          InvoiceRequestParams.single_use := singleUse |} in
     let* result :=
       rpc (Rpc.invoicerequest params)
           (Node.invoicerequest (Connection.node connection) params) in
     ret {| Offer.id := CreateWithdrawOfferResponse.invreq_id result;
            Offer.bolt12 := CreateWithdrawOfferResponse.bolt12 result;
            Offer.type := withdraw_offer;
            Offer.denomination := msats;
            Offer.amount := Some amount;
            Offer.description := description;
            Offer.walletId := None;
            Offer.nodeId := Some (Connection.info_id connection);
            Offer.connectionId := Some (Connection.info_connectionId connection);
            Offer.used := CreateWithdrawOfferResponse.used result;
            Offer.singleUse := CreateWithdrawOfferResponse.single_use result;
            Offer.active := CreateWithdrawOfferResponse.active result;
            Offer.label := Some label;
            Offer.expiry := expiry;
            Offer.issuer := issuer;
            Offer.quantityMax := None |})
    (fun error =>
       let context := "createWithdraw (offers)" in
       let connectionError :=
         handleError lib error context
           (Some (Connection.info_connectionId connection)) in
       errors_next connectionError ;;
       throw (Mapped connectionError)).

Definition disableWithdraw (invoiceRequestId : string) : M Thrown unit :=
  try_catch
    (rpc (Rpc.disableinvoicerequest invoiceRequestId)
         (Node.disableinvoicerequest (Connection.node connection) invoiceRequestId))
    (fun error =>
       let context := "disableWithdraw (offers)" in
       let connectionError :=
         handleError lib error context
           (Some (Connection.info_connectionId connection)) in
       errors_next connectionError ;;
       throw (Mapped connectionError)).

Definition fetchInvoice (options : FetchInvoiceOptions.t) : M Thrown string :=
  try_catch
    (let amount := FetchInvoiceOptions.amount options in
     let offer := FetchInvoiceOptions.offer options in
     let quantity := FetchInvoiceOptions.quantity options in
     let timeout := FetchInvoiceOptions.timeout options in
     let payerNote := FetchInvoiceOptions.payerNote options in
     let params :=
       {| FetchInvoiceParams.offer := offer;
          FetchInvoiceParams.amount_msat := amount;
          FetchInvoiceParams.quantity := quantity;
          FetchInvoiceParams.timeout := timeout;
          FetchInvoiceParams.payer_note := payerNote |} in
     let* invoice :=
       rpc (Rpc.fetchinvoice params)
           (Node.fetchinvoice (Connection.node connection) params) in
     ret invoice)
    (fun error =>
       let context := "fetchInvoice (offers)" in
       let connectionError :=
         handleError lib error context
           (Some (Connection.info_connectionId connection)) in
       errors_next connectionError ;;
       throw (Mapped connectionError)).

Definition sendInvoice (options : SendInvoiceOptions.t) : M Thrown Payment.t :=
  try_catch
    (let offer := SendInvoiceOptions.offer options in
     let label := SendInvoiceOptions.label options in
     let amount := SendInvoiceOptions.amount options in
     let timeout := SendInvoiceOptions.timeout options in
     let quantity := SendInvoiceOptions.quantity options in
     let* createdAt := nowSeconds env in
     let orderedParams :=
       if truthy_str amount
       then [JStr offer; JStr label; of_str amount; of_num timeout; of_num quantity]
       else [JStr offer; JStr label; of_num timeout; of_num quantity] in
     let* result :=
       rpc (Rpc.sendinvoice orderedParams)
           (Node.sendinvoice (Connection.node connection) orderedParams) in
     let payment_hash := SendInvoiceResponse.payment_hash result in
     let payment_preimage := SendInvoiceResponse.payment_preimage result in
     let status := SendInvoiceResponse.status result in
     let bolt12 := SendInvoiceResponse.bolt12 result in
     let expires_at := SendInvoiceResponse.expires_at result in
     let paid_at := SendInvoiceResponse.paid_at result in
     let amount_received_msat := SendInvoiceResponse.amount_received_msat result in
     let pay_index := SendInvoiceResponse.pay_index result in
     let* value :=
       await (Lib.stripMsatSuffix lib (or_str amount_received_msat amount)) in
     (* paid_at ? paid_at : nowSeconds() *)
     let* completedAt :=
       if truthy_num paid_at then ret (default 0 paid_at) else nowSeconds env in
     ret {| Payment.id := label;
            Payment.hash := payment_hash;
            Payment.preimage := payment_preimage;
            Payment.type := type_bolt12;
            Payment.direction := receive;
            Payment.nodeId := Connection.info_id connection;
            Payment.value := value;
            Payment.completedAt := completedAt;
            Payment.expiresAt := expires_at;
            Payment.startedAt := createdAt;
            Payment.fee := None;
            Payment.status := Lib.invoiceStatusToPaymentStatus lib status None;
            Payment.request := bolt12;
            Payment.payIndex := pay_index;
            Payment.connectionId := Some (Connection.info_connectionId connection) |})
    (fun error =>
       let context := "sendInvoice (offers)" in
       let connectionError :=
         handleError lib error context
           (Some (Connection.info_connectionId connection)) in
       errors_next connectionError ;;
       throw (Mapped connectionError)).

End Offers.

End Conn.

(** ** [src/lib/connections/coreln/offers.ts] *)

Module Legacy.

Section Offers.

Variable lib : Lib.t.
Variable connection : Connection.t.
Variable env : Env.

(** [get] returns [Promise.all(formatted)] without awaiting it, as in the
    other connection backend; the [catch] blocks of this file call
    [handleError] with two arguments and push nothing. *)
Definition get : M Thrown (list FormattedOffer.t) :=
  let* promise :=
    try_catch
      (issue Rpc.listoffers ;;
       issue Rpc.listinvoicerequests ;;
       let* responses :=
         await (Promise_all
                  [outcome_map ListOffersResponse
                     (Node.listoffers (Connection.node connection));
                   outcome_map ListInvoiceRequestsResponse
                     (Node.listinvoicerequests (Connection.node connection))]
                  (completion env 0)) in
       let offersResponse := responses !! 0%nat in
       let invoiceRequestsResponse := responses !! 1%nat in
       let* offers := defined (offers_of offersResponse) in
       let* invoicerequests := defined (invoicerequests_of invoiceRequestsResponse) in
       let formatted :=
         map (fun offer : Listed.t =>
                outcome_map
                  (fun formattedOffer =>
                     {| FormattedOffer.formattedOffer := formattedOffer;
                        FormattedOffer.active := Listed.active offer;
                        FormattedOffer.single_use := Listed.single_use offer;
                        FormattedOffer.used := Listed.used offer;
                        FormattedOffer.bolt12 := Listed.bolt12 offer;
                        FormattedOffer.label := Listed.label offer |})
                  (Lib.bolt12ToOffer lib (Listed.bolt12 offer)
                     (or_str (Listed.offer_id offer) (Listed.invreq_id offer))))
             (map inl offers ++ map inr invoicerequests) in
       ret (Promise_all formatted (completion env 1)))
      (fun error =>
         let context := "get (offers)" in
         throw (Mapped (handleError lib error context None))) in
  settle_as promise.

Definition createPay (options : CreatePayOfferOptions.t) : M Thrown Offer.t :=
  try_catch
    (let amount := CreatePayOfferOptions.amount options in
     let description := CreatePayOfferOptions.description options in
     let issuer := CreatePayOfferOptions.issuer options in
     let label := CreatePayOfferOptions.label options in
     let quantityMax := CreatePayOfferOptions.quantityMax options in
     let expiry := CreatePayOfferOptions.expiry options in
     let singleUse := CreatePayOfferOptions.singleUse options in
     let params :=
       {| OfferParams.amount := amount;
          OfferParams.description := description;
          OfferParams.issuer := issuer;
          OfferParams.label := label;
          OfferParams.quantity_max := quantityMax;
          OfferParams.absolute_expiry := expiry;
          OfferParams.single_use := singleUse |} in
     let* result :=
       rpc (Rpc.offer params) (Node.offer (Connection.node connection) params) in
     ret {| Offer.id := CreatePayOfferResponse.offer_id result;
            Offer.bolt12 := CreatePayOfferResponse.bolt12 result;
            Offer.type := pay_offer;
            Offer.denomination := msats;
            Offer.amount := amount;
            Offer.description := description;
            Offer.walletId := None;
            Offer.nodeId := Some (Connection.info_id connection);
            Offer.connectionId := None;
            Offer.used := CreatePayOfferResponse.used result;
            Offer.singleUse := CreatePayOfferResponse.single_use result;
            Offer.active := CreatePayOfferResponse.active result;
            Offer.label := Some label;
            Offer.expiry := expiry;
            Offer.issuer := issuer;
            Offer.quantityMax := quantityMax |})
    (fun error =>
       let context := "createPay (offers)" in
       throw (Mapped (handleError lib error context None))).

Definition disablePay (offerId : string) : M Thrown unit :=
  try_catch
    (rpc (Rpc.disableoffer offerId)
         (Node.disableoffer (Connection.node connection) offerId))
    (fun error =>
       let context := "disablePay (offers)" in
       throw (Mapped (handleError lib error context None))).

Definition createWithdraw (options : CreateWithdrawOfferOptions.t) : M Thrown Offer.t :=
  try_catch
    (let amount := CreateWithdrawOfferOptions.amount options in
     let description := CreateWithdrawOfferOptions.description options in
     let issuer := CreateWithdrawOfferOptions.issuer options in
     let label := CreateWithdrawOfferOptions.label options in
     let expiry := CreateWithdrawOfferOptions.expiry options in
     let singleUse := CreateWithdrawOfferOptions.singleUse options in
     let params :=
       {| InvoiceRequestParams.amount := Some amount;
          InvoiceRequestParams.description := description;
          InvoiceRequestParams.issuer := issuer;
          InvoiceRequestParams.label := label;
          InvoiceRequestParams.absolute_expiry := expiry;
          InvoiceRequestParams.single_use := singleUse |} in
     let* result :=
       rpc (Rpc.invoicerequest params)
           (Node.invoicerequest (Connection.node connection) params) in
     ret {| Offer.id := CreateWithdrawOfferResponse.invreq_id result;
            Offer.bolt12 := CreateWithdrawOfferResponse.bolt12 result;
            Offer.type := withdraw_offer;
            Offer.denomination := msats;
            Offer.amount := Some amount;
            Offer.description := description;
            Offer.walletId := None;
            Offer.nodeId := Some (Connection.info_id connection);
            Offer.connectionId := None;
            Offer.used := CreateWithdrawOfferResponse.used result;
            Offer.singleUse := CreateWithdrawOfferResponse.single_use result;
            Offer.active := CreateWithdrawOfferResponse.active result;
            Offer.label := Some label;
            Offer.expiry := expiry;
            Offer.issuer := issuer;
            Offer.quantityMax := None |})
    (fun error =>
       let context := "createWithdraw (offers)" in
       throw (Mapped (handleError lib error context None))).

Definition disableWithdraw (invoiceRequestId : string) : M Thrown unit :=
  try_catch
    (rpc (Rpc.disableinvoicerequest invoiceRequestId)
         (Node.disableinvoicerequest (Connection.node connection) invoiceRequestId))
    (fun error =>
       let context := "disableWithdraw (offers)" in
       throw (Mapped (handleError lib error context None))).

Definition fetchInvoice (options : FetchInvoiceOptions.t) : M Thrown string :=
  try_catch
    (let amount := FetchInvoiceOptions.amount options in
     let offer := FetchInvoiceOptions.offer options in
     let quantity := FetchInvoiceOptions.quantity options in
     let timeout := FetchInvoiceOptions.timeout options in
     let payerNote := FetchInvoiceOptions.payerNote options in
     let params :=
       {| FetchInvoiceParams.offer := offer;
          FetchInvoiceParams.amount_msat := amount;
          FetchInvoiceParams.quantity := quantity;
          FetchInvoiceParams.timeout := timeout;
          FetchInvoiceParams.payer_note := payerNote |} in
     let* invoice :=
       rpc (Rpc.fetchinvoice params)
           (Node.fetchinvoice (Connection.node connection) params) in
     ret invoice)
    (fun error =>
       let context := "fetchInvoice (offers)" in
       throw (Mapped (handleError lib error context None))).

Definition sendInvoice (options : SendInvoiceOptions.t) : M Thrown Payment.t :=
  try_catch
    (let offer := SendInvoiceOptions.offer options in
     let label := SendInvoiceOptions.label options in
     let amount := SendInvoiceOptions.amount options in
     let timeout := SendInvoiceOptions.timeout options in
     let quantity := SendInvoiceOptions.quantity options in
     let* createdAt := nowSeconds env in
     let orderedParams :=
       if truthy_str amount
       then [JStr offer; JStr label; of_str amount; of_num timeout; of_num quantity]
       else [JStr offer; JStr label; of_num timeout; of_num quantity] in
     let* result :=
       rpc (Rpc.sendinvoice orderedParams)
           (Node.sendinvoice (Connection.node connection) orderedParams) in
     let payment_hash := SendInvoiceResponse.payment_hash result in
     let payment_preimage := SendInvoiceResponse.payment_preimage result in
     let status := SendInvoiceResponse.status result in
     let bolt12 := SendInvoiceResponse.bolt12 result in
     let expires_at := SendInvoiceResponse.expires_at result in
     let paid_at := SendInvoiceResponse.paid_at result in
     let amount_received_msat := SendInvoiceResponse.amount_received_msat result in
     let pay_index := SendInvoiceResponse.pay_index result in
     let* value :=
       await (Lib.formatMsat lib (or_str amount_received_msat amount)) in
     (* paid_at ? paid_at : nowSeconds() *)
     let* completedAt :=
       if truthy_num paid_at then ret (default 0 paid_at) else nowSeconds env in
     ret {| Payment.id := label;
            Payment.hash := payment_hash;
            Payment.preimage := payment_preimage;
            Payment.type := type_bolt12;
            Payment.direction := receive;
            Payment.nodeId := Connection.info_id connection;
            Payment.value := value;
            Payment.completedAt := completedAt;
            Payment.expiresAt := expires_at;
            Payment.startedAt := createdAt;
            Payment.fee := None;
            Payment.status := Lib.invoiceStatusToPaymentStatus lib status None;
            Payment.request := bolt12;
            Payment.payIndex := pay_index;
            Payment.connectionId := None |})
    (fun error =>
       let context := "sendInvoice (offers)" in
       throw (Mapped (handleError lib error context None))).

End Offers.

End Legacy.

(** ** The helpers as the spec describes them *)

Module SpecLib.

Definition FormatError : CoreLnError :=
  {| code := None; message := "FormatError" |}.

Definition DecodeError : CoreLnError :=
  {| code := None; message := "DecodeError" |}.

(** Modelled from the spec: [satsToMsats] of [$lib/conversion.js], which is
    not among the sources; it multiplies integral sats by 1000, exactly. *)
Definition satsToMsats (sats : string) : Outcome CoreLnError string :=
  match parse_nat sats with
  | Some n => Ok (print_nat (n * 1000))
  | None => Throw FormatError
  end.

(** Modelled from the spec: [msatsToSats] of [$lib/conversion.js], which is
    not among the sources; it divides by 1000 and gives whole sats,
    rounded to the nearest integer. *)
Definition msatsToSats (msats : string) : Outcome CoreLnError string :=
  match parse_nat msats with
  | Some n => Ok (print_nat ((n + 500) / 1000))
  | None => Throw FormatError
  end.

(** [s] without the [suffix] it ends with, if it does. *)
Definition strip_suffix (suffix s : string) : string :=
  let n := (String.length s - String.length suffix)%nat in
  if String.eqb (String.substring n (String.length suffix) s) suffix
  then String.substring 0 n s
  else s.

(** Modelled from the spec: [formatMsatString] of [./utils.js], which is
    not among the sources; it strips a trailing [msat] and fails with a
    format error when what remains is not a non-negative integer. *)
Definition formatMsatString (raw : option string) : Outcome CoreLnError string :=
  match raw with
  | Some s =>
      let bare := strip_suffix "msat" s in
      match parse_nat bare with
      | Some _ => Ok bare
      | None => Throw FormatError
      end
  | None => Throw FormatError
  end.

(** A stand-in for the external BOLT12 codec in the concrete runs of
    this file: it accepts the strings that start with [ln] and reads the
    same fields in all of them. *)
Definition decodeBolt12 (bolt12 : string) : Outcome CoreLnError DecodedOffer.t :=
  if String.prefix "ln" bolt12
  then Ok {| DecodedOffer.description := "coffee";
             DecodedOffer.denomination := msats;
             DecodedOffer.amount := None;
             DecodedOffer.issuer := None |}
  else Throw DecodeError.

(** A stand-in for [bolt12ToOffer] in the concrete runs of this file,
    over the codec above: offers start with [lno], invoice requests with
    [lnr]. *)
Definition bolt12ToOffer (bolt12 : string) (id : option string)
  : Outcome CoreLnError Offer.t :=
  outcome_map
    (fun decoded =>
       {| Offer.id := default "" id;
          Offer.bolt12 := bolt12;
          Offer.type := if String.prefix "lno" bolt12 then pay_offer else withdraw_offer;
          Offer.denomination := DecodedOffer.denomination decoded;
          Offer.amount := DecodedOffer.amount decoded;
          Offer.description := DecodedOffer.description decoded;
          Offer.walletId := None;
          Offer.nodeId := None;
          Offer.connectionId := None;
          Offer.used := false;
          Offer.singleUse := false;
          Offer.active := true;
          Offer.label := None;
          Offer.expiry := None;
          Offer.issuer := DecodedOffer.issuer decoded;
          Offer.quantityMax := None |})
    (decodeBolt12 bolt12).

(** A stand-in for [invoiceStatusToPaymentStatus] in the concrete runs of
    this file. *)
Definition invoiceStatusToPaymentStatus (status : string) (expires_at : option Z)
  : string :=
  if String.eqb status "paid" then "complete"
  else if String.eqb status "expired" then "expired"
  else "pending".

Definition lib : Lib.t :=
  {| Lib.satsToMsats := satsToMsats;
     Lib.msatsToSats := msatsToSats;
     Lib.formatMsatString := formatMsatString;
     Lib.stripMsatSuffix := formatMsatString;
     Lib.formatMsat := formatMsatString;
     Lib.decodeBolt12 := decodeBolt12;
     Lib.bolt12ToOffer := bolt12ToOffer;
     Lib.invoiceStatusToPaymentStatus := invoiceStatusToPaymentStatus;
     Lib.errorKey := fun _ => "connection_error" |}.

End SpecLib.

(** ** The vocabulary of the properties *)

(** The errors of [emitted] that reach the history of [cid]. *)
Definition reaches (cid : string) (error : AppError) : bool :=
  match connectionId (detail error) with
  | Some c => String.eqb c cid
  | None => false
  end.

(** An error on which the reducer of [connectionErrors$] throws: its
    connection identifier names a property that the accumulator
    inherits. *)
Definition ends_stream (error : AppError) : bool :=
  match connectionId (detail error) with
  | Some c => Streams.is_inherited c
  | None => false
  end.

(** The errors that the reducer takes in: those that come before the
    first one on which it throws. *)
Fixpoint before_end (errors : list AppError) : list AppError :=
  match errors with
  | error :: errors' =>
      if ends_stream error then [] else error :: before_end errors'
  | [] => []
  end.




(** The parameters of the [offer] call: the amount and the expiry, and
    what goes from the options into the call as it is. *)
Definition offer_params (options : CreatePayOfferOptions.t)
    (amount : option string) (absolute_expiry : option Z) : OfferParams.t :=
  {| OfferParams.amount := amount;
     OfferParams.description := CreatePayOfferOptions.description options;
     OfferParams.issuer := CreatePayOfferOptions.issuer options;
     OfferParams.label := CreatePayOfferOptions.label options;
     OfferParams.quantity_max := CreatePayOfferOptions.quantityMax options;
     OfferParams.absolute_expiry := absolute_expiry;
     OfferParams.single_use := CreatePayOfferOptions.singleUse options |}.



(** The offer that [get] of the wallet backend makes of a listed entry
    and of what [decodeBolt12] reads in it. *)
Definition listed_offer (connection : Connection.t) (type : OfferType)
    (id bolt12 : string) (active single_use used : bool) (label : option string)
    (decoded : DecodedOffer.t) : Offer.t :=
  {| Offer.id := id;
     Offer.active := active;
     Offer.singleUse := single_use;
     Offer.used := used;
     Offer.bolt12 := bolt12;
     Offer.label := label;
     Offer.walletId := Some (Connection.walletId connection);
     Offer.nodeId := None;
     Offer.connectionId := None;
     Offer.description := DecodedOffer.description decoded;
     Offer.type := type;
     Offer.denomination := DecodedOffer.denomination decoded;
     Offer.amount := DecodedOffer.amount decoded;
     Offer.issuer := DecodedOffer.issuer decoded;
     Offer.expiry := None;
     Offer.quantityMax := None |}.

Definition lists_pay (lib : Lib.t) (connection : Connection.t)
    (offer : OfferSummary.t) (formatted : Offer.t) : Prop :=
  exists decoded,
    Lib.decodeBolt12 lib (OfferSummary.bolt12 offer) = Ok decoded
    /\ formatted
       = listed_offer connection pay_offer
           (OfferSummary.offer_id offer) (OfferSummary.bolt12 offer)
           (OfferSummary.active offer) (OfferSummary.single_use offer)
           (OfferSummary.used offer) (OfferSummary.label offer) decoded.

Definition lists_withdraw (lib : Lib.t) (connection : Connection.t)
    (offer : InvoiceRequestSummary.t) (formatted : Offer.t) : Prop :=
  exists decoded,
    Lib.decodeBolt12 lib (InvoiceRequestSummary.bolt12 offer) = Ok decoded
    /\ formatted
       = listed_offer connection withdraw_offer
           (InvoiceRequestSummary.invreq_id offer)
           (InvoiceRequestSummary.bolt12 offer)
           (InvoiceRequestSummary.active offer)
           (InvoiceRequestSummary.single_use offer)
           (InvoiceRequestSummary.used offer)
           (InvoiceRequestSummary.label offer) decoded.

(** What [get] of the connection backends makes of a listed entry. *)
Definition lists_entry (lib : Lib.t) (offer : Listed.t)
    (formatted : FormattedOffer.t) : Prop :=
  Lib.bolt12ToOffer lib (Listed.bolt12 offer)
    (or_str (Listed.offer_id offer) (Listed.invreq_id offer))
  = Ok (FormattedOffer.formattedOffer formatted)
  /\ FormattedOffer.active formatted = Listed.active offer
  /\ FormattedOffer.single_use formatted = Listed.single_use offer
  /\ FormattedOffer.used formatted = Listed.used offer
  /\ FormattedOffer.bolt12 formatted = Listed.bolt12 offer
  /\ FormattedOffer.label formatted = Listed.label offer.

(** ** Concrete surroundings and inputs *)

Definition connection_lost : CoreLnError :=
  {| code := Some (-1); message := "connection lost" |}.

(** A node that cannot be reached: every call is rejected. *)
Definition unreachable : Node.t :=
  {| Node.listoffers := Throw connection_lost;
     Node.listinvoicerequests := Throw connection_lost;
     Node.offer := fun _ => Throw connection_lost;
     Node.disableoffer := fun _ => Throw connection_lost;
     Node.invoicerequest := fun _ => Throw connection_lost;
     Node.disableinvoicerequest := fun _ => Throw connection_lost;
     Node.fetchinvoice := fun _ => Throw connection_lost;
     Node.sendinvoice := fun _ => Throw connection_lost;
     Node.pay := fun _ => Throw connection_lost |}.

(** A node that answers every call. *)
Definition cooperative : Node.t :=
  {| Node.listoffers :=
       Ok [{| OfferSummary.offer_id := "o1";
              OfferSummary.bolt12 := "lno1pay";
              OfferSummary.active := true;
              OfferSummary.single_use := false;
              OfferSummary.used := false;
              OfferSummary.label := Some "coffee" |}];
     Node.listinvoicerequests :=
       Ok [{| InvoiceRequestSummary.invreq_id := "w1";
              InvoiceRequestSummary.bolt12 := "lnr1withdraw";
              InvoiceRequestSummary.active := true;
              InvoiceRequestSummary.single_use := true;
              InvoiceRequestSummary.used := false;
              InvoiceRequestSummary.label := Some "refund" |}];
     Node.offer := fun _ =>
       Ok {| CreatePayOfferResponse.offer_id := "o2";
             CreatePayOfferResponse.bolt12 := "lno1new";
             CreatePayOfferResponse.used := false;
             CreatePayOfferResponse.single_use := false;
             CreatePayOfferResponse.active := true |};
     Node.disableoffer := fun _ => Ok tt;
     Node.invoicerequest := fun _ =>
       Ok {| CreateWithdrawOfferResponse.invreq_id := "w2";
             CreateWithdrawOfferResponse.bolt12 := "lnr1new";
             CreateWithdrawOfferResponse.used := false;
             CreateWithdrawOfferResponse.single_use := true;
             CreateWithdrawOfferResponse.active := true |};
     Node.disableinvoicerequest := fun _ => Ok tt;
     Node.fetchinvoice := fun _ => Ok "lni1invoice";
     Node.sendinvoice := fun _ =>
       Ok {| SendInvoiceResponse.payment_hash := "hash-1";
             SendInvoiceResponse.payment_preimage := Some "preimage-1";
             SendInvoiceResponse.status := "paid";
             SendInvoiceResponse.bolt12 := Some "lni1invoice";
             SendInvoiceResponse.expires_at := Some 1700003600;
             SendInvoiceResponse.paid_at := Some 1700000042;
             SendInvoiceResponse.amount_received_msat := Some "5000000msat";
             SendInvoiceResponse.pay_index := Some 7 |};
     Node.pay := fun _ =>
       Ok {| PayResponse.payment_hash := "hash-2";
             PayResponse.payment_preimage := Some "preimage-2";
             PayResponse.created_at := 1700000000;
             PayResponse.amount_msat := Some "100000";
             PayResponse.amount_sent_msat := Some "101000";
             PayResponse.status := "complete";
             PayResponse.destination := Some "02abc" |} |}.



(** A node that lists one offer, whose [bolt12] does not decode. *)
Definition garbled : Node.t :=
  {| Node.listoffers :=
       Ok [{| OfferSummary.offer_id := "o9";
              OfferSummary.bolt12 := "garbage";
              OfferSummary.active := true;
              OfferSummary.single_use := false;
              OfferSummary.used := false;
              OfferSummary.label := None |}];
     Node.listinvoicerequests := Ok [];
     Node.offer := Node.offer cooperative;
     Node.disableoffer := Node.disableoffer cooperative;
     Node.invoicerequest := Node.invoicerequest cooperative;
     Node.disableinvoicerequest := Node.disableinvoicerequest cooperative;
     Node.fetchinvoice := Node.fetchinvoice cooperative;
     Node.sendinvoice := Node.sendinvoice cooperative;
     Node.pay := Node.pay cooperative |}.

Definition connection_to (node : Node.t) : Connection.t :=
  {| Connection.walletId := "wallet-1";
     Connection.info_id := "node-1";
     Connection.info_connectionId := "connection-1";
     Connection.node := node |}.

(** A clock that starts at 1700000000 and advances by a second at each
    reading; tasks complete in the order they were started. *)
Definition surroundings : Env :=
  {| time_at := fun n => 1700000000 + Z.of_nat n;
     hex_at := fun _ => "a1b2c3d4";
     completion := fun _ => [] |}.

(** The fifteen errors of the bounded-history scenario, all of the
    connection [c1], numbered in the order they are pushed. *)
Definition numbered_error (n : Z) : AppError :=
  {| key := "connection_error";
     detail := {| context := "get (offers)";
                  connectionId := Some "c1";
                  payload := {| code := Some n; message := "failed" |} |} |}.

Definition fifteen_errors : list AppError :=
  map numbered_error [1; 2; 3; 4; 5; 6; 7; 8; 9; 10; 11; 12; 13; 14; 15].

(** The options of the amount-conditional scenario:
    [{offer, label, amount: "5000", timeout: 30, quantity: 1}]. *)
Definition send_5000 : SendInvoiceOptions.t :=
  {| SendInvoiceOptions.offer := "lno1qcp4256ypq";
     SendInvoiceOptions.label := "invoice-1";
     SendInvoiceOptions.amount := Some "5000";
     SendInvoiceOptions.timeout := Some 30;
     SendInvoiceOptions.quantity := Some 1 |}.

(** The options of a pay offer that expires in an hour. *)
Definition pay_in_an_hour : CreatePayOfferOptions.t :=
  {| CreatePayOfferOptions.amount := Some "1000";
     CreatePayOfferOptions.description := "coffee";
     CreatePayOfferOptions.issuer := None;
     CreatePayOfferOptions.label := "offer-1";
     CreatePayOfferOptions.quantityMax := None;
     CreatePayOfferOptions.expiry := Some 3600;
     CreatePayOfferOptions.singleUse := None |}.

(** The options of a pay offer for any amount. *)
Definition pay_any_amount : CreatePayOfferOptions.t :=
  {| CreatePayOfferOptions.amount := None;
     CreatePayOfferOptions.description := "donation";
     CreatePayOfferOptions.issuer := None;
     CreatePayOfferOptions.label := "offer-2";
     CreatePayOfferOptions.quantityMax := None;
     CreatePayOfferOptions.expiry := None;
     CreatePayOfferOptions.singleUse := None |}.

(** The options of a withdraw offer that expires in an hour. *)
Definition withdraw_in_an_hour : CreateWithdrawOfferOptions.t :=
  {| CreateWithdrawOfferOptions.amount := "1000";
     CreateWithdrawOfferOptions.description := "refund";
     CreateWithdrawOfferOptions.issuer := None;
     CreateWithdrawOfferOptions.label := "withdraw-1";
     CreateWithdrawOfferOptions.expiry := Some 3600;
     CreateWithdrawOfferOptions.singleUse := Some true |}.

(** * More of the code *)

(** ** [streams.ts]: the recent logs *)

(** [while (allLogs.length > limit) { allLogs.shift() }] *)
Fixpoint shift_while_longer (limit : nat) (allLogs : list string) : list string :=
  match allLogs with
  | [] => []
  | _ :: shifted =>
      if (limit <? length allLogs)%nat
      then shift_while_longer limit shifted
      else allLogs
  end.

(** The reducer given to [scan] in [recentLogs$]. *)
Definition recentLogs_step (allLogs : list string) (newLog : string)
  : list string :=
  if String.eqb newLog "CLEAR_ALL_LOGS" then []
  else
    (* allLogs.push(newLog) *)
    let allLogs := allLogs ++ [newLog] in
    shift_while_longer 50 allLogs.

(** The value of [recentLogs$] once [log$] has emitted [emitted], oldest
    first. *)
Definition recentLogs (emitted : list string) : list string :=
  fold_left recentLogs_step emitted [].

(** ** The vocabulary of the further properties *)

(** A computation that issues no call. *)
Definition silent {E A} (m : M E A) : Prop :=
  forall w : World, calls (snd (m w)) = calls w.

(** The parameters of the [invoicerequest] call: the amount and the
    expiry, and what goes from the options into the call as it is. *)
Definition invoicerequest_params (options : CreateWithdrawOfferOptions.t)
    (amount : option string) (absolute_expiry : option Z)
  : InvoiceRequestParams.t :=
  {| InvoiceRequestParams.amount := amount;
     InvoiceRequestParams.description :=
       CreateWithdrawOfferOptions.description options;
     InvoiceRequestParams.issuer := CreateWithdrawOfferOptions.issuer options;
     InvoiceRequestParams.label := CreateWithdrawOfferOptions.label options;
     InvoiceRequestParams.absolute_expiry := absolute_expiry;
     InvoiceRequestParams.single_use :=
       CreateWithdrawOfferOptions.singleUse options |}.

(** The parameters of the [fetchinvoice] call: the amount, and what goes
    from the options into the call as it is. *)
Definition fetchinvoice_params (options : FetchInvoiceOptions.t)
    (amount_msat : option string) : FetchInvoiceParams.t :=
  {| FetchInvoiceParams.offer := FetchInvoiceOptions.offer options;
     FetchInvoiceParams.amount_msat := amount_msat;
     FetchInvoiceParams.quantity := FetchInvoiceOptions.quantity options;
     FetchInvoiceParams.timeout := FetchInvoiceOptions.timeout options;
     FetchInvoiceParams.payer_note := FetchInvoiceOptions.payerNote options |}.

(** ** Further surroundings and inputs *)

(** A node that answers like [cooperative] and does not say what it
    received for an invoice sent. *)
Definition silent_on_amount : Node.t :=
  {| Node.listoffers := Node.listoffers cooperative;
     Node.listinvoicerequests := Node.listinvoicerequests cooperative;
     Node.offer := Node.offer cooperative;
     Node.disableoffer := Node.disableoffer cooperative;
     Node.invoicerequest := Node.invoicerequest cooperative;
     Node.disableinvoicerequest := Node.disableinvoicerequest cooperative;
     Node.fetchinvoice := Node.fetchinvoice cooperative;
     Node.sendinvoice := fun _ =>
       Ok {| SendInvoiceResponse.payment_hash := "hash-1";
             SendInvoiceResponse.payment_preimage := None;
             SendInvoiceResponse.status := "unpaid";
             SendInvoiceResponse.bolt12 := Some "lni1invoice";
             SendInvoiceResponse.expires_at := Some 1700003600;
             SendInvoiceResponse.paid_at := None;
             SendInvoiceResponse.amount_received_msat := None;
             SendInvoiceResponse.pay_index := None |};
     Node.pay := Node.pay cooperative |}.

(** ** The utilities of the second unnamed source file

    Its strings are modelled by the lists of their code units, a code
    unit being a character below 256; the regular expressions and
    [parseInt] tell apart no two code units above that. *)

Module Utils.

(** The code units of a string literal. *)
Definition units (s : string) : list ascii := list_ascii_of_string s.

(** [s.slice(start, stop)], [stop] being [s.length] when it is left out:
    a negative index counts from the end, and both are brought into
    range. *)
Definition slice (s : list ascii) (start : Z) (stop : option Z) : list ascii :=
  let len := Z.of_nat (length s) in
  let clamp := fun k : Z => if k <? 0 then Z.max (len + k) 0 else Z.min k len in
  let from := clamp start in
  let to := match stop with
            | Some k => clamp k
            | None => len
            end in
  take (Z.to_nat (to - from)) (drop (Z.to_nat from) s).

Definition truncateValue (request : list ascii) : list ascii :=
  slice request 0 (Some 9) ++ units "..." ++ slice request (-9) None.

(** [\d] and [[0-9]] *)
Definition is_digit (c : ascii) : bool :=
  (48 <=? nat_of_ascii c)%nat && (nat_of_ascii c <=? 57)%nat.

(** [[0-9a-fA-F]] *)
Definition is_hex (c : ascii) : bool :=
  is_digit c
  || ((97 <=? nat_of_ascii c)%nat && (nat_of_ascii c <=? 102)%nat)
  || ((65 <=? nat_of_ascii c)%nat && (nat_of_ascii c <=? 70)%nat).

(** [\w], the characters between which [\B] holds *)
Definition is_word (c : ascii) : bool :=
  is_digit c
  || ((97 <=? nat_of_ascii c)%nat && (nat_of_ascii c <=? 122)%nat)
  || ((65 <=? nat_of_ascii c)%nat && (nat_of_ascii c <=? 90)%nat)
  || (nat_of_ascii c =? 95)%nat.

(** [[a-zA-HJ-NP-Z0-9]] *)
Definition is_invoice_char (c : ascii) : bool :=
  ((97 <=? nat_of_ascii c)%nat && (nat_of_ascii c <=? 122)%nat)
  || ((65 <=? nat_of_ascii c)%nat && (nat_of_ascii c <=? 72)%nat)
  || ((74 <=? nat_of_ascii c)%nat && (nat_of_ascii c <=? 78)%nat)
  || ((80 <=? nat_of_ascii c)%nat && (nat_of_ascii c <=? 90)%nat)
  || is_digit c.

(** [n] characters of a class at the start of [s]. *)
Fixpoint starts_with (class : ascii -> bool) (n : nat) (s : list ascii) : bool :=
  match n with
  | O => true
  | S n' =>
      match s with
      | c :: s' => class c && starts_with class n' s'
      | [] => false
      end
  end.

(** [nodePublicKeyRegex = /[0-9a-fA-F]{66}/], tested against [s]: the
    expression is not anchored, the 66 digits may start anywhere. *)
Fixpoint nodePublicKeyRegex (s : list ascii) : bool :=
  starts_with is_hex 66 s
  || match s with
     | _ :: s' => nodePublicKeyRegex s'
     | [] => false
     end.

(** [s] without the [prefix] it starts with. *)
Fixpoint strip_prefix (prefix s : list ascii) : option (list ascii) :=
  match prefix, s with
  | [], _ => Some s
  | p :: prefix', c :: s' =>
      if Ascii.eqb p c then strip_prefix prefix' s' else None
  | _ :: _, [] => None
  end.

(** [[a-zA-HJ-NP-Z0-9]{1,}$] *)
Definition invoice_data (rest : option (list ascii)) : bool :=
  match rest with
  | Some (c :: s) => forallb is_invoice_char (c :: s)
  | _ => false
  end.

(** [lightningInvoiceRegex = /^(lnbcrt|lnbc)[a-zA-HJ-NP-Z0-9]{1,}$/],
    tested against [s]: one alternative or the other. *)
Definition lightningInvoiceRegex (s : list ascii) : bool :=
  invoice_data (strip_prefix (units "lnbcrt") s)
  || invoice_data (strip_prefix (units "lnbc") s).

(** The result is a [PaymentType] or [null]. *)
Definition getPaymentType (value : list ascii) : option string :=
  if nodePublicKeyRegex value then Some "node_public_key"
  else if lightningInvoiceRegex value then Some "payment_request"
  else None.

Definition formatDestination (destination : list ascii) (type : option string)
  : list ascii :=
  match type with
  | Some type =>
      if String.eqb type "payment_request" || String.eqb type "node_public_key"
      then truncateValue destination
      else destination
  | None => destination
  end.

(** The digits at the start of [s], counted. *)
Fixpoint digit_run (s : list ascii) : nat :=
  match s with
  | c :: s' => if is_digit c then S (digit_run s') else O
  | [] => O
  end.

(** [(?=(\d{3})+(?!\d))] at the start of [s]: a number of digits that is
    a multiple of three and not zero, and no digit after them. *)
Definition groups_of_three (s : list ascii) : bool :=
  (0 <? digit_run s)%nat && (digit_run s mod 3 =? 0)%nat.

(** [s.replace(/\B(?=(\d{3})+(?!\d))/g, ',')] from the second character
    on, [previous] being the character before [s]: the place between
    [previous] and [s] is not a word boundary when [previous] is a word
    character, as the digit that follows is. *)
Fixpoint commas_after (previous : ascii) (s : list ascii) : list ascii :=
  match s with
  | [] => []
  | c :: s' =>
      if is_word previous && groups_of_three s
      then ","%char :: c :: commas_after c s'
      else c :: commas_after c s'
  end.

(** [s.replace(/\B(?=(\d{3})+(?!\d))/g, ',')]: the start of the string
    is a word boundary when a digit follows. *)
Definition with_commas (s : list ascii) : list ascii :=
  match s with
  | [] => []
  | c :: s' => c :: commas_after c s'
  end.

(** [s.split(separator)] for a separator of one character. *)
Fixpoint split (separator : ascii) (s : list ascii) : list (list ascii) :=
  match s with
  | [] => [[]]
  | c :: s' =>
      if Ascii.eqb c separator then [] :: split separator s'
      else
        match split separator s' with
        | part :: parts => (c :: part) :: parts
        | [] => [[c]]
        end
  end.

(** [parts.join(separator)] *)
Fixpoint join (separator : ascii) (parts : list (list ascii)) : list ascii :=
  match parts with
  | [] => []
  | [part] => part
  | part :: parts' => part ++ separator :: join separator parts'
  end.

Definition formatWithCommas (val : list ascii) (commasAfterDecimal : option bool)
  : list ascii :=
  if default false commasAfterDecimal then with_commas val
  else
    let parts := split "."%char val in
    (* parts[0] = parts[0].replace(...) *)
    let parts := match parts with
                 | part :: parts' => with_commas part :: parts'
                 | [] => []
                 end in
    join "."%char parts.

(** What the functions below read of a payment, of a channel and of an
    output of [listfunds]. *)
Module Payment.
Record t := {
  payIndex : option Z
}.
End Payment.

Module Channel.
Record t := {
  our_amount_msat : string
}.
End Channel.

Module Output.
Record t := {
  amount_msat : string
}.
End Output.

Module ListfundsResponse.
Record t := {
  channels : list Channel.t;
  outputs : list Output.t
}.
End ListfundsResponse.

Definition deriveLastPayIndex (payments : list Payment.t) : Z :=
  if (length payments =? 0)%nat then 0
  else
    fold_left
      (fun currentHighestIndex payment =>
         let payIndex := Payment.payIndex payment in
         (* payIndex && payIndex > currentHighestIndex *)
         if truthy_num payIndex && (default 0 payIndex >? currentHighestIndex)
         then default 0 payIndex
         else currentHighestIndex)
      payments 0.

(** [total.add(s)] of [big.js], on integer strings as [Big] above. *)
Definition Big_add (total : Z) (s : string) : Outcome CoreLnError Z :=
  match parse_int s with
  | Some y => Ok (total + y)
  | None => Throw BigError
  end.

(** [funds.channels.reduce((total, { our_amount_msat }) =>
    total.add(our_amount_msat), Big('0'))] *)
Fixpoint add_channels (total : Z) (channels : list Channel.t)
  : Outcome CoreLnError Z :=
  match channels with
  | [] => Ok total
  | channel :: channels' =>
      match Big_add total (Channel.our_amount_msat channel) with
      | Ok total' => add_channels total' channels'
      | Throw e => Throw e
      end
  end.

Definition calculateBalance (funds : ListfundsResponse.t)
  : Outcome CoreLnError string :=
  match Big "0" with
  | Ok zero =>
      outcome_map Big_toString
        (add_channels zero (ListfundsResponse.channels funds))
  | Throw e => Throw e
  end.

(** A section of a decoded invoice: [{ name, value }], the value a
    string, a number or left out. *)
Module Section_.
Record t := {
  name : string;
  value : JsVal
}.
End Section_.

(** Truthiness of a value. *)
Definition truthy (v : JsVal) : bool :=
  match v with
  | JUndefined => false
  | JStr s => negb (String.eqb s "")
  | JNum n => negb (Z.eqb n 0)
  end.

(** [acc[name] = value] on an object used as a dictionary, the value a
    string or a number: the property [__proto__] is the prototype of the
    object, and setting it to a string or a number does nothing. *)
Definition assign (acc : gmap string JsVal) (name : string) (value : JsVal)
  : gmap string JsVal :=
  if String.eqb name "__proto__" then acc else <[name := value]> acc.

(** [{ paymentRequest, ...formattedSections }], the properties of the
    result: those of the sections come after [paymentRequest] and
    replace it. *)
Definition formatDecodedInvoice (paymentRequest : string)
    (sections : list Section_.t) : gmap string JsVal :=
  let formattedSections :=
    fold_left
      (fun acc section =>
         if truthy (JStr (Section_.name section)) && truthy (Section_.value section)
         then assign acc (Section_.name section) (Section_.value section)
         else acc)
      sections (∅ : gmap string JsVal) in
  formattedSections ∪ {[ "paymentRequest" := JStr paymentRequest ]}.

(** White space for [parseInt], among the code units below 256. *)
Definition is_whitespace (c : ascii) : bool :=
  ((9 <=? nat_of_ascii c)%nat && (nat_of_ascii c <=? 13)%nat)
  || (nat_of_ascii c =? 32)%nat
  || (nat_of_ascii c =? 160)%nat.

Fixpoint skip_whitespace (s : list ascii) : list ascii :=
  match s with
  | c :: s' => if is_whitespace c then skip_whitespace s' else s
  | [] => []
  end.

(** The value of a digit in a radix of at most 36, if it is one. *)
Definition digit_value (radix : Z) (c : ascii) : option Z :=
  let n := Z.of_nat (nat_of_ascii c) in
  let v := if is_digit c then n - 48
           else if (97 <=? n) && (n <=? 122) then n - 97 + 10
           else if (65 <=? n) && (n <=? 90) then n - 65 + 10
           else 36 in
  if v <? radix then Some v else None.

(** The number that the digits at the start of [s] write, [read] being
    the number read so far, if any. *)
Fixpoint read_digits (radix : Z) (read : option Z) (s : list ascii) : option Z :=
  match s with
  | c :: s' =>
      match digit_value radix c with
      | Some v => read_digits radix (Some (radix * default 0 read + v)) s'
      | None => read
      end
  | [] => read
  end.

(** [parseInt(s)], without a radix: white space, a sign, [0x] or [0X]
    for radix 16, and the digits there are; [None] is [NaN]. The number
    is the mathematical one: what a double rounds of it does not change
    how it compares to the port numbers. *)
Definition parseInt (s : list ascii) : option Z :=
  let s := skip_whitespace s in
  let '(negative, s) :=
    match s with
    | "-"%char :: s' => (true, s')
    | "+"%char :: s' => (false, s')
    | _ => (false, s)
    end in
  let '(radix, s) :=
    match s with
    | "0"%char :: "x"%char :: s' => (16, s')
    | "0"%char :: "X"%char :: s' => (16, s')
    | _ => (10, s)
    end in
  match read_digits radix None s with
  | Some n => Some (if negative then - n else n)
  | None => None
  end.

(** Matching a regular expression at the start of a string gives what
    is left of the string after each way to match: one character of a
    class, *)
Definition one_of (class : ascii -> bool) (s : list ascii) : list (list ascii) :=
  match s with
  | c :: s' => if class c then [s'] else []
  | [] => []
  end.

(** a given character, *)
Definition char (c : ascii) (s : list ascii) : list (list ascii) :=
  one_of (Ascii.eqb c) s.

(** a character between two, *)
Definition between (low high : ascii) (s : list ascii) : list (list ascii) :=
  one_of (fun c => (nat_of_ascii low <=? nat_of_ascii c)%nat
                   && (nat_of_ascii c <=? nat_of_ascii high)%nat) s.

(** and one expression after another. *)
Definition and_then (rests : list (list ascii))
    (next : list ascii -> list (list ascii)) : list (list ascii) :=
  flat_map next rests.

(** [(25[0-5]|(2[0-4]|1\d|[1-9]|)\d)] *)
Definition octet (s : list ascii) : list (list ascii) :=
  (* 25[0-5] *)
  and_then (and_then (char "2" s) (char "5")) (between "0" "5")
  (* (2[0-4]|1\d|[1-9]|)\d *)
  ++ and_then
       (and_then (char "2" s) (between "0" "4")
        ++ and_then (char "1" s) (one_of is_digit)
        ++ between "1" "9" s
        ++ [s])
       (one_of is_digit).

(** [(\.(?!$)|$)]: a point with something after it, or the end. *)
Definition point_or_end (s : list ascii) : list (list ascii) :=
  match s with
  | "."%char :: c :: s' => [c :: s']
  | [] => [[]]
  | _ => []
  end.

(** [((25[0-5]|(2[0-4]|1\d|[1-9]|)\d)(\.(?!$)|$))] *)
Definition octet_group (s : list ascii) : list (list ascii) :=
  and_then (octet s) point_or_end.

(** [ipRegex =
    /^((25[0-5]|(2[0-4]|1\d|[1-9]|)\d)(\.(?!$)|$)){4}$/], tested
    against [s]: four groups, and the end. *)
Definition ipRegex (s : list ascii) : bool :=
  existsb (fun rest => match rest with [] => true | _ => false end)
    (and_then (and_then (and_then (octet_group s) octet_group) octet_group)
       octet_group).

(** [!s] for a part of a split that may be missing. *)
Definition missing (part : option (list ascii)) : bool :=
  match part with
  | Some (_ :: _) => false
  | _ => true
  end.

Definition validateConnectionString (connect : list ascii) : bool :=
  let parts := split "@"%char connect in
  let publicKey := parts !! 0%nat in
  let host := parts !! 1%nat in
  if missing publicKey || missing host then false
  else
    let parts := split ":"%char (default [] host) in
    let ip := parts !! 0%nat in
    let port := parts !! 1%nat in
    if missing ip || missing port then false
    else
      let portNumber := parseInt (default [] port) in
      (* NaN is neither below 1 nor above 65535 *)
      if match portNumber with
         | Some n => (n <? 1) || (n >? 65535)
         | None => false
         end
      then false
      else if negb (nodePublicKeyRegex (default [] publicKey)) then false
      else if negb (ipRegex (default [] ip)) then false
      else true.

End Utils.

(** A string without its commas. *)
Definition without_commas (s : list ascii) : list ascii :=
  List.filter (fun c => negb (Ascii.eqb c ","%char)) s.

(** Digits in groups of three counted from the end: a comma before each
    digit, the first excepted, that has a multiple of three digits from
    itself to the end. *)
Definition in_thousands (digits : list ascii) : list ascii :=
  concat
    (imap (fun i c =>
             if (0 <? i)%nat && ((length digits - i) mod 3 =? 0)%nat
             then [","%char; c]
             else [c])
       digits).

(** The sum of amounts. *)
Definition total_of (amounts : list N) : N := fold_right N.add 0%N amounts.

(** * Properties *)

(** ** The error history of [streams.ts] *)

Section StreamsFacts.

Import Streams.

Lemma scan_step_skip (acc : gmap string (list AppError)) (value : AppError) :
  truthy_str (connectionId (detail value)) = false ->
  scan_step acc value = Some acc.
Proof.
  intros H. unfold scan_step. rewrite H. reflexivity.
Qed.

Lemma take_at_most_ten {A} (l : list A) :
  take (Nat.min (length l) 10) l = take 10 l.
Proof.
  destruct (Nat.min_spec (length l) 10) as [[Hlt ->]|[Hge ->]].
  - rewrite !firstn_all2 by lia. reflexivity.
  - reflexivity.
Qed.

(** One step of the reducer on an error it does not throw on: on the
    key of the error's own connection it appends and then cuts to the
    first ten, and it leaves the other keys alone. *)
Lemma scan_step_alive (acc : gmap string (list AppError)) (value : AppError) :
  ends_stream value = false ->
  exists acc',
    scan_step acc value = Some acc'
    /\ forall cid,
         acc' !! cid
         = if reaches cid value && negb (String.eqb cid "")
           then Some (take 10 (default [] (acc !! cid) ++ [value]))
           else acc !! cid.
Proof.
  unfold ends_stream, scan_step, reaches.
  destruct (connectionId (detail value)) as [c|]; simpl.
  - intros Hown.
    destruct (String.eqb_spec c "") as [->|Hc]; simpl.
    + exists acc. split; [reflexivity|]. intros cid.
      destruct cid; reflexivity.
    + unfold get. destruct (acc !! c) as [l|] eqn:Hl.
      * rewrite Hl. eexists. split; [reflexivity|]. intros cid.
        rewrite take_at_most_ten.
        destruct (String.eqb_spec c cid) as [<-|Hd].
        -- rewrite lookup_insert_eq, Hl.
           destruct (String.eqb_spec c "") as [|_]; [contradiction|].
           reflexivity.
        -- rewrite lookup_insert_ne by exact Hd. reflexivity.
      * rewrite Hown, lookup_insert_eq. eexists. split; [reflexivity|].
        intros cid. rewrite take_at_most_ten.
        destruct (String.eqb_spec c cid) as [<-|Hd].
        -- rewrite lookup_insert_eq, Hl.
           destruct (String.eqb_spec c "") as [|_]; [contradiction|].
           reflexivity.
        -- rewrite !lookup_insert_ne by exact Hd. reflexivity.
  - intros _. exists acc. split; reflexivity.
Qed.

(** The reducer throws on an error whose identifier names an inherited
    property; the accumulator has no property of its own under such a
    name. *)
Lemma scan_step_throws (acc : gmap string (list AppError)) (value : AppError) :
  ends_stream value = true ->
  (forall name, is_inherited name = true -> acc !! name = None) ->
  scan_step acc value = None.
Proof.
  unfold ends_stream, scan_step.
  destruct (connectionId (detail value)) as [c|]; [|discriminate].
  intros Hc Hown. simpl.
  destruct (String.eqb_spec c "") as [->|_]; [discriminate Hc|]. simpl.
  unfold get. rewrite (Hown c Hc), Hc. cbv beta iota.
  rewrite (Hown c Hc). reflexivity.
Qed.

Lemma scan_next_ended (errors : list AppError) (state : Scanned) :
  ended state = true -> fold_left scan_next errors state = state.
Proof.
  intros H. induction errors as [|e errors IH]; [reflexivity|].
  simpl. unfold scan_next at 2. rewrite H. exact IH.
Qed.

Lemma take_take_app {A} (n : nat) (l k : list A) :
  take n (take n l ++ k) = take n (l ++ k).
Proof.
  revert l. induction n as [|n IH]; intros l; [reflexivity|].
  destruct l as [|x l]; simpl; [reflexivity|].
  f_equal. apply IH.
Qed.

(** What [scan] has accumulated under [cid] after a run of errors: the
    first ten of what it had and of the errors of [cid] that came before
    the reducer threw, in order of arrival; and it has ended when the
    reducer threw. *)
Lemma fold_scan_next (errors : list AppError) :
  forall acc : gmap string (list AppError),
    (forall name, is_inherited name = true -> acc !! name = None) ->
    (forall cid,
        latest (fold_left scan_next errors {| latest := acc; ended := false |})
        !! cid
        = if String.eqb cid "" then acc !! cid
          else match List.filter (reaches cid) (before_end errors) with
               | [] => acc !! cid
               | mine => Some (take 10 (default [] (acc !! cid) ++ mine))
               end)
    /\ ended (fold_left scan_next errors {| latest := acc; ended := false |})
       = existsb ends_stream errors.
Proof.
  induction errors as [|e errors IH]; intros acc Hown.
  - split; [|reflexivity]. intros cid. simpl.
    destruct (String.eqb cid ""); reflexivity.
  - simpl fold_left. unfold scan_next at 2 4. cbn [ended latest].
    cbn [before_end existsb].
    destruct (ends_stream e) eqn:He.
    + rewrite scan_step_throws by assumption.
      rewrite scan_next_ended by reflexivity. split; [|reflexivity].
      intros cid. simpl. destruct (String.eqb cid ""); reflexivity.
    + destruct (scan_step_alive acc e He) as (acc' & -> & Hlookup).
      assert (Hown' : forall name, is_inherited name = true -> acc' !! name = None).
      { intros name Hname. rewrite Hlookup.
        assert (Hreach : reaches name e = false).
        { unfold reaches. unfold ends_stream in He.
          destruct (connectionId (detail e)) as [c|]; [|reflexivity].
          destruct (String.eqb_spec c name) as [->|_]; [congruence|reflexivity]. }
        rewrite Hreach. simpl. apply Hown. exact Hname. }
      destruct (IH acc' Hown') as [IHlookup IHended].
      split; [|exact IHended].
      intros cid. rewrite IHlookup, Hlookup.
      destruct (String.eqb_spec cid "") as [->|Hne].
      * rewrite andb_false_r. reflexivity.
      * rewrite andb_true_r. cbn [List.filter].
        destruct (reaches cid e).
        -- cbn [default from_option id].
           destruct (List.filter (reaches cid) (before_end errors)) as [|m mine].
           ++ reflexivity.
           ++ rewrite take_take_app, <- app_assoc. reflexivity.
        -- reflexivity.
Qed.

(** The history of a connection is the first ten of its connection
    errors, in order of arrival, that came before the reducer threw. *)
Lemma connectionErrors_lookup (emitted : list AppError) (cid : string) :
  cid <> "" ->
  connectionErrors emitted !! cid
  = match List.filter (reaches cid)
            (before_end (List.filter is_connection_error emitted)) with
    | [] => None
    | mine => Some (take 10 mine)
    end.
Proof.
  intros Hne. unfold connectionErrors, connectionErrors_scanned.
  rewrite (proj1 (fold_scan_next _ ∅ (fun name _ => lookup_empty name))).
  destruct (String.eqb_spec cid "") as [|_]; [contradiction|].
  rewrite lookup_empty. reflexivity.
Qed.

(** No history is kept under the empty identifier. *)
Lemma connectionErrors_lookup_empty (emitted : list AppError) :
  connectionErrors emitted !! "" = None.
Proof.
  unfold connectionErrors, connectionErrors_scanned.
  rewrite (proj1 (fold_scan_next _ ∅ (fun name _ => lookup_empty name))).
  apply lookup_empty.
Qed.

(** The stream has ended when the reducer has thrown. *)
Lemma connectionErrors_ended (emitted : list AppError) :
  ended (connectionErrors_scanned emitted)
  = existsb ends_stream (List.filter is_connection_error emitted).
Proof.
  unfold connectionErrors_scanned.
  apply (proj2 (fold_scan_next _ ∅ (fun name _ => lookup_empty name))).
Qed.

Lemma connectionErrors_ended_iff (emitted : list AppError) :
  ended (connectionErrors_scanned emitted) = true
  <-> exists error,
        In error emitted
        /\ is_connection_error error = true
        /\ ends_stream error = true.
Proof.
  rewrite connectionErrors_ended, existsb_exists. split.
  - intros (error & Hin & Hends). exists error.
    apply filter_In in Hin as [Hin Hkey]. repeat split; assumption.
  - intros (error & Hin & Hkey & Hends). exists error.
    split; [apply filter_In; split; assumption|exact Hends].
Qed.

Lemma In_before_end (error : AppError) (errors : list AppError) :
  In error (before_end errors) ->
  In error errors /\ ends_stream error = false.
Proof.
  induction errors as [|e errors IH]; simpl; [intros []|].
  destruct (ends_stream e) eqn:He; [intros []|].
  intros [<-|Hin]; [split; [left; reflexivity|exact He]|].
  destruct (IH Hin) as [H1 H2]. split; [right; exact H1|exact H2].
Qed.

End StreamsFacts.

Lemma In_take {A} (x : A) (n : nat) (l : list A) :
  In x (take n l) -> In x l.
Proof.
  revert l. induction n as [|n IH]; intros [|y l]; simpl; try tauto.
  intros [->|H]; [left; reflexivity|right; apply IH, H].
Qed.

(** The part of the bound that the code keeps: no history is longer
    than ten. *)
Lemma connectionErrors_at_most_ten (emitted : list AppError) (cid : string)
    (history : list AppError) :
  Streams.connectionErrors emitted !! cid = Some history ->
  (length history <= 10)%nat.
Proof.
  intros Hlookup.
  destruct (String.eqb_spec cid "") as [->|Hne].
  - rewrite connectionErrors_lookup_empty in Hlookup. discriminate.
  - rewrite connectionErrors_lookup in Hlookup by assumption.
    destruct (List.filter (reaches cid)
                (before_end (List.filter Streams.is_connection_error emitted)))
      as [|m mine]; [discriminate|].
    injection Hlookup as <-. simpl. rewrite length_take. lia.
Qed.

(** C2, on the code: after fifteen errors pushed for one connection the
    history holds ten errors, and they are the ten pushed first (1 to 10):
    the reducer appends the new error and then cuts the array to its first
    ten elements, so that from the eleventh on every new error is the one
    dropped. The ten most recent (6 to 15) are not what is kept. *)
Theorem connectionErrors_keeps_first_ten :
  Streams.connectionErrors fifteen_errors !! "c1"
  = Some (map numbered_error [1; 2; 3; 4; 5; 6; 7; 8; 9; 10])
  /\ Streams.connectionErrors fifteen_errors !! "c1"
     <> Some (map numbered_error [6; 7; 8; 9; 10; 11; 12; 13; 14; 15]).
Proof.
  assert (H : Streams.connectionErrors fifteen_errors !! "c1"
              = Some (map numbered_error [1; 2; 3; 4; 5; 6; 7; 8; 9; 10])).
  { rewrite connectionErrors_lookup by discriminate. reflexivity. }
  split; [exact H|].
  rewrite H. discriminate.
Qed.

(** C10: every error stored in the history of a connection identifier has
    a key that starts with [connection_] and carries that identifier in
    its detail; an error whose key does not start with [connection_], or
    whose detail has no connection identifier, leaves the histories as
    they were. *)
Theorem connectionErrors_invariant (emitted : list AppError) :
  (forall (cid : string) (history : list AppError) (error : AppError),
      Streams.connectionErrors emitted !! cid = Some history ->
      In error history ->
      startsWith (key error) "connection_" = true
      /\ connectionId (detail error) = Some cid)
  /\ (forall error : AppError,
        startsWith (key error) "connection_" = false
        \/ connectionId (detail error) = None ->
        Streams.connectionErrors (emitted ++ [error])
        = Streams.connectionErrors emitted).
Proof.
  split.
  - intros cid history error Hlookup Hin.
    destruct (String.eqb_spec cid "") as [->|Hne].
    + rewrite connectionErrors_lookup_empty in Hlookup. discriminate.
    + rewrite connectionErrors_lookup in Hlookup by assumption.
      destruct (List.filter (reaches cid)
                  (before_end (List.filter Streams.is_connection_error emitted)))
        as [|m mine] eqn:Hmine; [discriminate|].
      injection Hlookup as <-.
      apply (In_take error 10 (m :: mine)) in Hin. rewrite <- Hmine in Hin.
      apply filter_In in Hin as [Hin Hreach].
      apply In_before_end in Hin as [Hin _].
      apply filter_In in Hin as [_ Hkey].
      split; [exact Hkey|].
      unfold reaches in Hreach.
      destruct (connectionId (detail error)) as [c|]; [|discriminate].
      apply String.eqb_eq in Hreach. congruence.
  - intros error H.
    unfold Streams.connectionErrors, Streams.connectionErrors_scanned.
    rewrite List.filter_app. simpl.
    destruct (Streams.is_connection_error error) eqn:Hkey.
    + destruct H as [H|H].
      * unfold Streams.is_connection_error in Hkey. congruence.
      * rewrite fold_left_app. simpl. unfold Streams.scan_next at 1.
        destruct (Streams.ended _); [reflexivity|].
        rewrite scan_step_skip by (rewrite H; reflexivity). reflexivity.
    + rewrite app_nil_r. reflexivity.
Qed.

(** The invariant at work: an error of the connection [c1], then one with
    a key of another family and one without a connection identifier. *)
Lemma connectionErrors_invariant_witness :
  (In (numbered_error 1) [numbered_error 1] ->
   startsWith (key (numbered_error 1)) "connection_" = true
   /\ connectionId (detail (numbered_error 1)) = Some "c1")
  /\ Streams.connectionErrors
       ([numbered_error 1]
          ++ [{| key := "app_error"; detail := detail (numbered_error 2) |}])
     = Streams.connectionErrors [numbered_error 1]
  /\ Streams.connectionErrors
       ([numbered_error 1]
          ++ [{| key := "connection_error";
                 detail := {| context := "get (offers)";
                              connectionId := None;
                              payload := TypeError |} |}])
     = Streams.connectionErrors [numbered_error 1].
Proof.
  split; [|split].
  - apply (proj1 (connectionErrors_invariant [numbered_error 1]) "c1").
    rewrite connectionErrors_lookup by discriminate. reflexivity.
  - apply (proj2 (connectionErrors_invariant [numbered_error 1])).
    left. reflexivity.
  - apply (proj2 (connectionErrors_invariant [numbered_error 1])).
    right. reflexivity.
Defined.

(** ** [Promise.all] *)

Section PromiseAll.

Context {E A : Type}.

(** While every task fulfils, [settle] never rejects, keeps the slots it
    found filled, and fills the slot of every task it is told completes. *)
Lemma settle_fulfilled (values : list A) (order : list nat) :
  forall slots : list (option A),
    length slots = length values ->
    (forall (i : nat) (v : A), slots !! i = Some (Some v) -> values !! i = Some v) ->
    exists slots' : list (option A),
      settle (E := E) (map Ok values) order slots = Ok slots'
      /\ length slots' = length values
      /\ (forall (i : nat) (v : A),
             slots' !! i = Some (Some v) -> values !! i = Some v)
      /\ (forall i : nat,
             (i < length values)%nat ->
             In i order \/ (exists v, slots !! i = Some (Some v)) ->
             exists v, slots' !! i = Some (Some v)).
Proof.
  induction order as [|i order IH]; intros slots Hlen Hval.
  - exists slots. repeat split; try assumption.
    intros i Hi [[]|H]. exact H.
  - simpl.
    destruct (slots !! i) as [[v|]|] eqn:Hslot.
    + destruct (IH slots Hlen Hval) as (slots' & Hs & Hl & Hv & Hf).
      exists slots'. repeat split; try assumption.
      intros j Hj [[->|Hin]|Hfilled]; apply Hf; auto.
      right. exists v. exact Hslot.
    + assert (Hi : (i < length values)%nat).
      { rewrite <- Hlen. eapply lookup_lt_Some. exact Hslot. }
      destruct (lookup_lt_is_Some_2 values i Hi) as [v Hv].
      rewrite list_lookup_fmap, Hv. simpl.
      destruct (IH (<[i := Some v]> slots)) as (slots' & Hs & Hl & Hv' & Hf).
      * rewrite length_insert. exact Hlen.
      * intros j w Hj. destruct (Nat.eq_dec i j) as [->|Hne].
        -- rewrite list_lookup_insert_eq in Hj by lia. congruence.
        -- rewrite list_lookup_insert_ne in Hj by assumption. apply Hval, Hj.
      * exists slots'. repeat split; try assumption.
        intros j Hj [[->|Hin]|[w Hw]]; apply Hf; auto.
        -- right. exists v. apply list_lookup_insert_eq. lia.
        -- right. destruct (Nat.eq_dec i j) as [->|Hne].
           ++ exists v. apply list_lookup_insert_eq. lia.
           ++ exists w. rewrite list_lookup_insert_ne by assumption. exact Hw.
    + assert (Hi : (length values <= i)%nat).
      { rewrite <- Hlen. apply lookup_ge_None. exact Hslot. }
      destruct (IH slots Hlen Hval) as (slots' & Hs & Hl & Hv & Hf).
      exists slots'. repeat split; try assumption.
      intros j Hj [[->|Hin]|Hfilled]; [lia|apply Hf; auto|apply Hf; auto].
Qed.

(** When every task fulfils, [Promise.all] fulfils with the values in the
    order of the tasks, whatever the order in which they complete. *)
Lemma Promise_all_fulfilled (values : list A) (order : list nat) :
  Promise_all (E := E) (map Ok values) order = Ok values.
Proof.
  unfold Promise_all. rewrite length_map.
  destruct (settle_fulfilled values (order ++ seq 0 (length values))
              (replicate (length values) None))
    as (slots' & Hs & Hl & Hv & Hf).
  - apply length_replicate.
  - intros i v Hi. apply lookup_replicate in Hi as [Hi _]. discriminate.
  - rewrite Hs. f_equal.
    assert (Heq : slots' = map Some values).
    { apply list_eq. intros i. rewrite list_lookup_fmap.
      destruct (Nat.lt_ge_cases i (length values)) as [Hi|Hi].
      - destruct (Hf i Hi) as [v Hv'].
        { left. apply in_or_app. right. apply in_seq. lia. }
        rewrite Hv'. rewrite (Hv i v Hv'). reflexivity.
      - rewrite (proj2 (lookup_ge_None values i)) by assumption.
        apply lookup_ge_None. lia. }
    rewrite Heq. clear. induction values as [|v values IH]; simpl; [reflexivity|].
    f_equal. exact IH.
Qed.

End PromiseAll.

(** ** What reaches the error channel *)

Section Quiet.

Context {E : Type}.








End Quiet.






Section WalletReports.

Variable lib : Lib.t.
Variable connection : Connection.t.
Variable env : Env.

Let cid : option string := Some (Connection.walletId connection).









End WalletReports.

(** A task that rejects makes [settle] reject, once its turn comes or
    earlier. *)
Lemma settle_rejected {E A} (tasks : list (Outcome E A)) (i : nat) (e : E) :
  tasks !! i = Some (Throw e) ->
  forall (order : list nat) (slots : list (option A)),
    slots !! i = Some None ->
    In i order ->
    exists e' : E, settle tasks order slots = Throw e'.
Proof.
  intros Htask order. induction order as [|j order IH]; intros slots Hslot Hin.
  - destruct Hin.
  - simpl. destruct (Nat.eq_dec j i) as [->|Hne].
    + rewrite Hslot, Htask. exists e. reflexivity.
    + destruct Hin as [Hji|Hin]; [congruence|].
      destruct (slots !! j) as [[v|]|] eqn:Hj; [apply IH; assumption| |apply IH; assumption].
      destruct (tasks !! j) as [[v|e']|] eqn:Htj; [|exists e'; reflexivity|apply IH; assumption].
      apply IH; [|assumption].
      rewrite list_lookup_insert_ne by assumption. exact Hslot.
Qed.

(** [Promise.all] rejects as soon as one of its tasks does. *)
Lemma Promise_all_rejected {E A} (tasks : list (Outcome E A)) (order : list nat)
    (i : nat) (e : E) :
  tasks !! i = Some (Throw e) ->
  exists e' : E, Promise_all tasks order = Throw e'.
Proof.
  intros Htask. unfold Promise_all.
  assert (Hi : (i < length tasks)%nat) by (eapply lookup_lt_Some; exact Htask).
  destruct (settle_rejected tasks i e Htask (order ++ seq 0 (length tasks))
              (replicate (length tasks) None)) as [e' He'].
  - apply lookup_replicate. split; [reflexivity|exact Hi].
  - apply in_or_app. right. apply in_seq. lia.
  - exists e'. rewrite He'. reflexivity.
Qed.

Section ConnReports.

Variable lib : Lib.t.
Variable connection : Connection.t.
Variable env : Env.

Let cid : option string := Some (Connection.info_connectionId connection).








End ConnReports.

Section LegacyReports.

Variable lib : Lib.t.
Variable connection : Connection.t.
Variable env : Env.








End LegacyReports.

(** ** C1: failures and the error channel *)




(** Left out of the amended C1: a decoding failure in [get]. The wallet
    backend awaits the decoding inside its [try] and reports the failure
    like any other; the connection backends return the promise of the
    decoding without awaiting it, and its rejection reaches the caller as
    it is, not mapped and not pushed. *)
Example get_decoding_failure :
  (fst (Wallet.get SpecLib.lib (connection_to garbled) surroundings initial)
   = Throw (Mapped (handleError SpecLib.lib SpecLib.DecodeError "get (offers)"
                      (Some "wallet-1")))
   /\ pushed (snd (Wallet.get SpecLib.lib (connection_to garbled) surroundings
                     initial))
      = [handleError SpecLib.lib SpecLib.DecodeError "get (offers)"
           (Some "wallet-1")])
  /\ (fst (Conn.get SpecLib.lib (connection_to garbled) surroundings initial)
      = Throw (Raw SpecLib.DecodeError)
      /\ pushed (snd (Conn.get SpecLib.lib (connection_to garbled) surroundings
                        initial)) = [])
  /\ (fst (Legacy.get SpecLib.lib (connection_to garbled) surroundings initial)
      = Throw (Raw SpecLib.DecodeError)
      /\ pushed (snd (Legacy.get SpecLib.lib (connection_to garbled) surroundings
                        initial)) = []).
Proof.
  repeat split; vm_compute; reflexivity.
Qed.

(** ** Running an operation *)

(** Running an operation: unfold the monad and follow every outcome. *)
Ltac run_all :=
  unfold try_catch, bind, rpc, issue, await, ret, throw, nowSeconds,
    createRandomHex, errors_next, settle_as, defined, outcome_map;
  simpl;
  repeat match goal with
         | |- context [match ?x with _ => _ end] =>
             lazymatch x with
             | context [match _ with _ => _ end] => fail
             | _ => destruct x eqn:?; simpl
             end
         end.

(** ** C3: the parameters of [sendinvoice] *)

Section SendInvoiceParams.

Variable lib : Lib.t.
Variable connection : Connection.t.
Variable env : Env.
Variable options : SendInvoiceOptions.t.

Let offer := JStr (SendInvoiceOptions.offer options).
Let label := JStr (SendInvoiceOptions.label options).
Let amount := SendInvoiceOptions.amount options.
Let timeout := of_num (SendInvoiceOptions.timeout options).
Let quantity := of_num (SendInvoiceOptions.quantity options).

Lemma Conn_sendInvoice_calls (w : World) :
  calls (snd (Conn.sendInvoice lib connection env options w))
  = calls w
    ++ [Rpc.sendinvoice
          (if truthy_str amount
           then [offer; label; of_str amount; timeout; quantity]
           else [offer; label; timeout; quantity])].
Proof.
  unfold Conn.sendInvoice, offer, label, amount, timeout, quantity. run_all; reflexivity.
Qed.

Lemma Legacy_sendInvoice_calls (w : World) :
  calls (snd (Legacy.sendInvoice lib connection env options w))
  = calls w
    ++ [Rpc.sendinvoice
          (if truthy_str amount
           then [offer; label; of_str amount; timeout; quantity]
           else [offer; label; timeout; quantity])].
Proof.
  unfold Legacy.sendInvoice, offer, label, amount, timeout, quantity. run_all; reflexivity.
Qed.

Lemma Wallet_sendInvoice_calls (w : World) :
  calls (snd (Wallet.sendInvoice lib connection env options w))
  = calls w
    ++ (if truthy_str amount
        then match Lib.satsToMsats lib (default "" amount) with
             | Ok amountMsat =>
                 [Rpc.sendinvoice
                    (if truthy_str (Some amountMsat)
                     then [offer; label; JStr amountMsat; timeout; quantity]
                     else [offer; label; timeout; quantity])]
             | Throw _ => []
             end
        else [Rpc.sendinvoice [offer; label; timeout; quantity]]).
Proof.
  unfold Wallet.sendInvoice, offer, label, amount, timeout, quantity.
  run_all; try reflexivity; try congruence.
  all: rewrite app_nil_r; reflexivity.
Qed.

End SendInvoiceParams.

(** C3, its counterexample: in [wallets/coreln/offers.ts] the amount of
    the options is converted with [satsToMsats] before it is put in the
    list, so that [amount: "5000"] issues [sendinvoice] with ["5000000"]
    in the amount slot, not with ["5000"]. *)
Lemma Wallet_sendInvoice_5000_sends_msats :
  calls (snd (Wallet.sendInvoice SpecLib.lib (connection_to unreachable)
                surroundings send_5000 initial))
  = [Rpc.sendinvoice
       [JStr "lno1qcp4256ypq"; JStr "invoice-1"; JStr "5000000"; JNum 30; JNum 1]]
  /\ calls (snd (Wallet.sendInvoice SpecLib.lib (connection_to unreachable)
                   surroundings send_5000 initial))
     <> [Rpc.sendinvoice
           [JStr "lno1qcp4256ypq"; JStr "invoice-1"; JStr "5000"; JNum 30; JNum 1]].
Proof.
  split; [reflexivity|discriminate].
Qed.

(** C3, amended: the two connection backends issue [sendinvoice] with
    [[offer, label, amount, timeout, quantity]] when [amount] is a string
    that is not empty, and with [[offer, label, timeout, quantity]] when
    it is absent or empty. The wallet backend, whose amounts are in sats,
    puts [satsToMsats(amount)] in the amount slot, leaves the slot out
    when [amount] is absent or empty or the converted amount is empty,
    and issues no call when the conversion fails. *)
Theorem sendInvoice_params (lib : Lib.t) (connection : Connection.t) (env : Env)
    (options : SendInvoiceOptions.t) (w : World) :
  let offer := JStr (SendInvoiceOptions.offer options) in
  let label := JStr (SendInvoiceOptions.label options) in
  let amount := SendInvoiceOptions.amount options in
  let timeout := of_num (SendInvoiceOptions.timeout options) in
  let quantity := of_num (SendInvoiceOptions.quantity options) in
  calls (snd (Conn.sendInvoice lib connection env options w))
  = calls w
    ++ [Rpc.sendinvoice
          (if truthy_str amount
           then [offer; label; of_str amount; timeout; quantity]
           else [offer; label; timeout; quantity])]
  /\ calls (snd (Legacy.sendInvoice lib connection env options w))
     = calls w
       ++ [Rpc.sendinvoice
             (if truthy_str amount
              then [offer; label; of_str amount; timeout; quantity]
              else [offer; label; timeout; quantity])]
  /\ calls (snd (Wallet.sendInvoice lib connection env options w))
     = calls w
       ++ (if truthy_str amount
           then match Lib.satsToMsats lib (default "" amount) with
                | Ok amountMsat =>
                    [Rpc.sendinvoice
                       (if truthy_str (Some amountMsat)
                        then [offer; label; JStr amountMsat; timeout; quantity]
                        else [offer; label; timeout; quantity])]
                | Throw _ => []
                end
           else [Rpc.sendinvoice [offer; label; timeout; quantity]]).
Proof.
  intros offer label amount timeout quantity. split; [|split].
  - apply Conn_sendInvoice_calls.
  - apply Legacy_sendInvoice_calls.
  - apply Wallet_sendInvoice_calls.
Qed.

(** The scenario of the spec on the connection backend: the amount goes
    into the list as it is given. *)
Example Conn_sendInvoice_5000 :
  calls (snd (Conn.sendInvoice SpecLib.lib (connection_to unreachable)
                surroundings send_5000 initial))
  = [Rpc.sendinvoice
       [JStr "lno1qcp4256ypq"; JStr "invoice-1"; JStr "5000"; JNum 30; JNum 1]].
Proof. reflexivity. Qed.

(** And without an amount: four parameters, no slot for the amount. *)
Example Conn_sendInvoice_no_amount :
  calls (snd (Conn.sendInvoice SpecLib.lib (connection_to unreachable) surroundings
                {| SendInvoiceOptions.offer := "lno1qcp4256ypq";
                   SendInvoiceOptions.label := "invoice-1";
                   SendInvoiceOptions.amount := None;
                   SendInvoiceOptions.timeout := Some 30;
                   SendInvoiceOptions.quantity := Some 1 |} initial))
  = [Rpc.sendinvoice [JStr "lno1qcp4256ypq"; JStr "invoice-1"; JNum 30; JNum 1]].
Proof. reflexivity. Qed.

(** ** C4: the context of a failure *)

(** A [catch] block that maps with [handleError] throws nothing else,
    whatever it does with the mapped error before. *)
Lemma try_catch_mapped {A} (lib : Lib.t) (context : string) (cid : option string)
    (body : M CoreLnError A) (w : World) :
  match fst (try_catch body
               (fun error =>
                  errors_next (handleError lib error context cid) ;;
                  throw (Mapped (handleError lib error context cid))) w) with
  | Ok _ => True
  | Throw thrown =>
      exists error : CoreLnError, thrown = Mapped (handleError lib error context cid)
  end.
Proof.
  unfold try_catch. destruct (body w) as [[a|e] w']; simpl; [exact I|].
  exists e. reflexivity.
Qed.

(** C4, on the code: whatever fails in [payInvoice] of
    [wallets/coreln/offers.ts], the error the caller gets has the context
    ["sendInvoice (offers)"], the literal of the operation above it in the
    file, and not one that names [payInvoice]; its connection identifier
    is the wallet's. On an unreachable node [createPay] fails with the
    context ["createPay (offers)"] and [payInvoice] with
    ["sendInvoice (offers)"]. *)
Theorem Wallet_payInvoice_context :
  (forall (lib : Lib.t) (connection : Connection.t) (env : Env) (bolt12 : string)
          (w : World),
      match fst (Wallet.payInvoice lib connection env bolt12 w) with
      | Ok _ => True
      | Throw thrown =>
          exists error : CoreLnError,
            thrown = Mapped (handleError lib error "sendInvoice (offers)"
                               (Some (Connection.walletId connection)))
      end)
  /\ fst (Wallet.payInvoice SpecLib.lib (connection_to unreachable) surroundings
            "lni1invoice" initial)
     = Throw (Mapped {| key := "connection_error";
                        detail := {| context := "sendInvoice (offers)";
                                     connectionId := Some "wallet-1";
                                     payload := connection_lost |} |})
  /\ fst (Wallet.createPay SpecLib.lib (connection_to unreachable) surroundings
            {| CreatePayOfferOptions.amount := None;
               CreatePayOfferOptions.description := "coffee";
               CreatePayOfferOptions.issuer := None;
               CreatePayOfferOptions.label := "offer-1";
               CreatePayOfferOptions.quantityMax := None;
               CreatePayOfferOptions.expiry := None;
               CreatePayOfferOptions.singleUse := None |} initial)
     = Throw (Mapped {| key := "connection_error";
                        detail := {| context := "createPay (offers)";
                                     connectionId := Some "wallet-1";
                                     payload := connection_lost |} |}).
Proof.
  split; [|split; reflexivity].
  intros lib connection env bolt12 w.
  apply (try_catch_mapped lib "sendInvoice (offers)").
Qed.

(** ** C6: relative and absolute expiry *)

(** C6, on the code: at 1700000000, with [expiry: 3600], both
    [createPay] and [createWithdraw] of [wallets/coreln/offers.ts] send
    [absolute_expiry: 1700003600]; the offer that [createPay] returns has
    [expiry = 1700003600], the one that [createWithdraw] returns has
    [expiry = 3600], the relative value of the options. *)
Theorem Wallet_createWithdraw_expiry_mixed :
  (exists offer w',
      Wallet.createPay SpecLib.lib (connection_to cooperative) surroundings
        pay_in_an_hour initial = (Ok offer, w')
      /\ map (fun call => match call with
                          | Rpc.offer params => OfferParams.absolute_expiry params
                          | _ => None
                          end) (calls w') = [Some 1700003600]
      /\ Offer.expiry offer = Some 1700003600)
  /\ (exists offer w',
         Wallet.createWithdraw SpecLib.lib (connection_to cooperative) surroundings
           withdraw_in_an_hour initial = (Ok offer, w')
         /\ map (fun call => match call with
                             | Rpc.invoicerequest params =>
                                 InvoiceRequestParams.absolute_expiry params
                             | _ => None
                             end) (calls w') = [Some 1700003600]
         /\ Offer.expiry offer = Some 3600).
Proof.
  split; do 2 eexists; (split; [reflexivity|split; reflexivity]).
Qed.

(** ** C7: the amount of a pay offer *)

Section CreatePayParams.

Variable lib : Lib.t.
Variable connection : Connection.t.
Variable env : Env.
Variable options : CreatePayOfferOptions.t.

Lemma Conn_createPay_calls (w : World) :
  calls (snd (Conn.createPay lib connection options w))
  = calls w
    ++ [Rpc.offer (offer_params options (CreatePayOfferOptions.amount options)
                     (CreatePayOfferOptions.expiry options))].
Proof.
  unfold Conn.createPay, offer_params. run_all; reflexivity.
Qed.

Lemma Legacy_createPay_calls (w : World) :
  calls (snd (Legacy.createPay lib connection options w))
  = calls w
    ++ [Rpc.offer (offer_params options (CreatePayOfferOptions.amount options)
                     (CreatePayOfferOptions.expiry options))].
Proof.
  unfold Legacy.createPay, offer_params. run_all; reflexivity.
Qed.

Lemma Wallet_createPay_calls (w : World) :
  let expiry := CreatePayOfferOptions.expiry options in
  let amount := CreatePayOfferOptions.amount options in
  let absoluteExpiry :=
    if truthy_num expiry
    then option_map (Z.add (time_at env (clock_reads w))) expiry
    else expiry in
  calls (snd (Wallet.createPay lib connection env options w))
  = calls w
    ++ (if truthy_str amount
        then match Lib.satsToMsats lib (default "" amount) with
             | Ok amountMsat =>
                 [Rpc.offer (offer_params options (Some amountMsat) absoluteExpiry)]
             | Throw _ => []
             end
        else [Rpc.offer (offer_params options (Some "any") absoluteExpiry)]).
Proof.
  unfold Wallet.createPay, offer_params. run_all; try reflexivity; try congruence.
  all: rewrite app_nil_r; reflexivity.
Qed.

End CreatePayParams.

(** C7, its counterexample: [createPay] of the connection backends sends
    the amount of the options as it is; without an amount the [offer] call
    has no amount at all, where the claim has the sentinel ['any']. *)
Lemma Conn_createPay_no_amount_sends_none :
  calls (snd (Conn.createPay SpecLib.lib (connection_to cooperative)
                pay_any_amount initial))
  = [Rpc.offer {| OfferParams.amount := None;
                  OfferParams.description := "donation";
                  OfferParams.issuer := None;
                  OfferParams.label := "offer-2";
                  OfferParams.quantity_max := None;
                  OfferParams.absolute_expiry := None;
                  OfferParams.single_use := None |}]
  /\ map (fun call => match call with
                      | Rpc.offer params => OfferParams.amount params
                      | _ => None
                      end)
       (calls (snd (Conn.createPay SpecLib.lib (connection_to cooperative)
                      pay_any_amount initial)))
     <> [Some "any"]
  /\ calls (snd (Legacy.createPay SpecLib.lib (connection_to cooperative)
                   pay_any_amount initial))
     = calls (snd (Conn.createPay SpecLib.lib (connection_to cooperative)
                     pay_any_amount initial)).
Proof.
  split; [reflexivity|split; [discriminate|reflexivity]].
Qed.

(** C7, amended: [createPay] of [wallets/coreln/offers.ts] sends
    [satsToMsats(amount)] as the amount of the [offer] call when the
    amount is a string that is not empty, the sentinel ['any'] when it is
    absent or empty, and issues no call when the conversion fails; the two
    connection backends, whose amounts are in millisatoshis already, send
    the amount of the options as it is, absent when it is absent. *)
Theorem createPay_amount (lib : Lib.t) (connection : Connection.t) (env : Env)
    (options : CreatePayOfferOptions.t) (w : World) :
  let expiry := CreatePayOfferOptions.expiry options in
  let amount := CreatePayOfferOptions.amount options in
  let absoluteExpiry :=
    if truthy_num expiry
    then option_map (Z.add (time_at env (clock_reads w))) expiry
    else expiry in
  calls (snd (Wallet.createPay lib connection env options w))
  = calls w
    ++ (if truthy_str amount
        then match Lib.satsToMsats lib (default "" amount) with
             | Ok amountMsat =>
                 [Rpc.offer (offer_params options (Some amountMsat) absoluteExpiry)]
             | Throw _ => []
             end
        else [Rpc.offer (offer_params options (Some "any") absoluteExpiry)])
  /\ calls (snd (Conn.createPay lib connection options w))
     = calls w ++ [Rpc.offer (offer_params options amount expiry)]
  /\ calls (snd (Legacy.createPay lib connection options w))
     = calls w ++ [Rpc.offer (offer_params options amount expiry)].
Proof.
  intros expiry amount absoluteExpiry. split; [|split].
  - apply Wallet_createPay_calls.
  - apply Conn_createPay_calls.
  - apply Legacy_createPay_calls.
Qed.

(** The wallet backend on an amount of 1000 sats, and on none. *)
Example Wallet_createPay_1000 :
  map (fun call => match call with
                   | Rpc.offer params => OfferParams.amount params
                   | _ => None
                   end)
    (calls (snd (Wallet.createPay SpecLib.lib (connection_to cooperative)
                   surroundings pay_in_an_hour initial)))
  = [Some "1000000"].
Proof. reflexivity. Qed.

Example Wallet_createPay_any :
  map (fun call => match call with
                   | Rpc.offer params => OfferParams.amount params
                   | _ => None
                   end)
    (calls (snd (Wallet.createPay SpecLib.lib (connection_to cooperative)
                   surroundings pay_any_amount initial)))
  = [Some "any"].
Proof. reflexivity. Qed.

(** ** C8: the fee of a payment *)

(** Decimal strings read back as the numbers they print. *)
Lemma to_uint_nonnil (n : N) : N.to_uint n <> Decimal.Nil.
Proof.
  destruct n as [|p]; simpl; [discriminate|apply DecimalPos.Unsigned.to_uint_nonnil].
Qed.

Lemma print_nat_shape (n : N) :
  exists (c : ascii) (s : string),
    print_nat n = String c s /\ c <> "-"%char.
Proof.
  unfold print_nat. pose proof (to_uint_nonnil n) as H.
  destruct (N.to_uint n); [congruence|..]; simpl;
    eexists; eexists; (split; [reflexivity|discriminate]).
Qed.

Lemma parse_nat_print_nat (n : N) : parse_nat (print_nat n) = Some n.
Proof.
  unfold parse_nat.
  destruct (print_nat_shape n) as (c & s & Hs & _).
  assert (Hne : String.eqb (print_nat n) "" = false) by (rewrite Hs; reflexivity).
  rewrite Hne. unfold print_nat.
  rewrite NilEmpty.usu. simpl. rewrite DecimalN.Unsigned.of_to. reflexivity.
Qed.

Lemma parse_int_print_nat (n : N) : parse_int (print_nat n) = Some (Z.of_N n).
Proof.
  unfold parse_int.
  destruct (print_nat_shape n) as (c & s & Hs & Hc).
  pose proof (parse_nat_print_nat n) as Hp. rewrite Hs in *.
  destruct c as [[] [] [] [] [] [] [] []]; try (rewrite Hp; reflexivity).
  congruence.
Qed.








(** ** C9: the completion time of a received invoice *)



(** ** C5: the order of the offers that [get] returns *)

(** A list of tasks that all fulfil. *)
Lemma map_fulfilled {E X A} (f : X -> Outcome E A) (l : list X) :
  (forall x, In x l -> exists v, f x = Ok v) ->
  exists values : list A,
    map f l = map Ok values /\ Forall2 (fun x v => f x = Ok v) l values.
Proof.
  induction l as [|x l IH]; intros H.
  - exists []. split; [reflexivity|constructor].
  - destruct (H x (or_introl eq_refl)) as [v Hv].
    destruct IH as (values & Hmap & Hall).
    { intros y Hy. apply H. right. exact Hy. }
    exists (v :: values). split.
    + simpl. rewrite Hv, Hmap. reflexivity.
    + constructor; assumption.
Qed.

Lemma outcome_map_Ok {E A B} (f : A -> B) (o : Outcome E A) (b : B) :
  outcome_map f o = Ok b -> exists a, o = Ok a /\ b = f a.
Proof.
  destruct o as [a|e]; simpl; [|discriminate].
  intros [= <-]. exists a. split; reflexivity.
Qed.

(** The two listing calls awaited together, when both are answered. *)
Lemma Promise_all_listing (offers : list OfferSummary.t)
    (invoicerequests : list InvoiceRequestSummary.t) (order : list nat) :
  Promise_all (E := CoreLnError)
    [outcome_map ListOffersResponse (Ok offers);
     outcome_map ListInvoiceRequestsResponse (Ok invoicerequests)] order
  = Ok [ListOffersResponse offers; ListInvoiceRequestsResponse invoicerequests].
Proof.
  apply (Promise_all_fulfilled
           [ListOffersResponse offers; ListInvoiceRequestsResponse invoicerequests]).
Qed.

Section GetOrder.

Variable lib : Lib.t.
Variable connection : Connection.t.
Variable offers : list OfferSummary.t.
Variable invoicerequests : list InvoiceRequestSummary.t.

Hypothesis listoffers_answered :
  Node.listoffers (Connection.node connection) = Ok offers.
Hypothesis listinvoicerequests_answered :
  Node.listinvoicerequests (Connection.node connection) = Ok invoicerequests.

Lemma Wallet_get_order :
  (forall bolt12,
      In bolt12 (map OfferSummary.bolt12 offers
                   ++ map InvoiceRequestSummary.bolt12 invoicerequests) ->
      exists decoded, Lib.decodeBolt12 lib bolt12 = Ok decoded) ->
  exists pays withdraws : list Offer.t,
    Forall2 (lists_pay lib connection) offers pays
    /\ Forall2 (lists_withdraw lib connection) invoicerequests withdraws
    /\ forall (env : Env) (w : World),
         exists w', Wallet.get lib connection env w = (Ok (pays ++ withdraws), w').
Proof.
  intros Hdecode.
  pose (pay_task := fun offer : OfferSummary.t =>
    outcome_map
      (listed_offer connection pay_offer
         (OfferSummary.offer_id offer) (OfferSummary.bolt12 offer)
         (OfferSummary.active offer) (OfferSummary.single_use offer)
         (OfferSummary.used offer) (OfferSummary.label offer))
      (Lib.decodeBolt12 lib (OfferSummary.bolt12 offer))).
  pose (withdraw_task := fun offer : InvoiceRequestSummary.t =>
    outcome_map
      (listed_offer connection withdraw_offer
         (InvoiceRequestSummary.invreq_id offer)
         (InvoiceRequestSummary.bolt12 offer)
         (InvoiceRequestSummary.active offer)
         (InvoiceRequestSummary.single_use offer)
         (InvoiceRequestSummary.used offer)
         (InvoiceRequestSummary.label offer))
      (Lib.decodeBolt12 lib (InvoiceRequestSummary.bolt12 offer))).
  destruct (map_fulfilled pay_task offers) as (pays & Hpays & Hlists).
  { intros offer Hin.
    destruct (Hdecode (OfferSummary.bolt12 offer)) as [decoded Hd].
    - apply in_or_app. left. apply in_map. exact Hin.
    - unfold pay_task. rewrite Hd. eexists. reflexivity. }
  destruct (map_fulfilled withdraw_task invoicerequests)
    as (withdraws & Hwithdraws & Hlists').
  { intros offer Hin.
    destruct (Hdecode (InvoiceRequestSummary.bolt12 offer)) as [decoded Hd].
    - apply in_or_app. right. apply in_map. exact Hin.
    - unfold withdraw_task. rewrite Hd. eexists. reflexivity. }
  exists pays, withdraws. split; [|split].
  - eapply Forall2_impl; [exact Hlists|].
    intros offer formatted H. apply outcome_map_Ok in H as (decoded & Hd & ->).
    exists decoded. split; [exact Hd|reflexivity].
  - eapply Forall2_impl; [exact Hlists'|].
    intros offer formatted H. apply outcome_map_Ok in H as (decoded & Hd & ->).
    exists decoded. split; [exact Hd|reflexivity].
  - intros env w. eexists.
    unfold Wallet.get, try_catch, bind, issue, await.
    rewrite listoffers_answered, listinvoicerequests_answered.
    rewrite Promise_all_listing.
    cbn [defined offers_of invoicerequests_of lookup list_lookup ret fst snd].
    change (map _ offers) with (map pay_task offers).
    rewrite Hpays, Promise_all_fulfilled.
    cbn [defined offers_of invoicerequests_of lookup list_lookup ret fst snd].
    change (map _ invoicerequests) with (map withdraw_task invoicerequests).
    rewrite Hwithdraws, Promise_all_fulfilled.
    reflexivity.
Qed.

Lemma Conn_get_order :
  (forall offer : Listed.t,
      In offer (map inl offers ++ map inr invoicerequests) ->
      exists formattedOffer,
        Lib.bolt12ToOffer lib (Listed.bolt12 offer)
          (or_str (Listed.offer_id offer) (Listed.invreq_id offer))
        = Ok formattedOffer) ->
  exists result : list FormattedOffer.t,
    Forall2 (lists_entry lib) (map inl offers ++ map inr invoicerequests) result
    /\ forall (env : Env) (w : World),
         exists w', Conn.get lib connection env w = (Ok result, w').
Proof.
  intros Hformat.
  pose (task := fun offer : Listed.t =>
    outcome_map
      (fun formattedOffer =>
         {| FormattedOffer.formattedOffer := formattedOffer;
            FormattedOffer.active := Listed.active offer;
            FormattedOffer.single_use := Listed.single_use offer;
            FormattedOffer.used := Listed.used offer;
            FormattedOffer.bolt12 := Listed.bolt12 offer;
            FormattedOffer.label := Listed.label offer |})
      (Lib.bolt12ToOffer lib (Listed.bolt12 offer)
         (or_str (Listed.offer_id offer) (Listed.invreq_id offer)))).
  destruct (map_fulfilled task (map inl offers ++ map inr invoicerequests))
    as (result & Hresult & Hlists).
  { intros offer Hin. destruct (Hformat offer Hin) as [formattedOffer Hf].
    unfold task. rewrite Hf. eexists. reflexivity. }
  exists result. split.
  - eapply Forall2_impl; [exact Hlists|].
    intros offer formatted H.
    apply outcome_map_Ok in H as (formattedOffer & Hf & ->).
    unfold lists_entry. simpl. repeat split; try reflexivity. exact Hf.
  - intros env w. eexists.
    unfold Conn.get, try_catch, bind, issue, await, settle_as.
    rewrite listoffers_answered, listinvoicerequests_answered.
    rewrite Promise_all_listing.
    cbn [defined offers_of invoicerequests_of lookup list_lookup ret fst snd].
    change (map _ (map inl offers ++ map inr invoicerequests))
      with (map task (map inl offers ++ map inr invoicerequests)).
    rewrite Hresult, Promise_all_fulfilled.
    reflexivity.
Qed.

Lemma Legacy_get_order :
  (forall offer : Listed.t,
      In offer (map inl offers ++ map inr invoicerequests) ->
      exists formattedOffer,
        Lib.bolt12ToOffer lib (Listed.bolt12 offer)
          (or_str (Listed.offer_id offer) (Listed.invreq_id offer))
        = Ok formattedOffer) ->
  exists result : list FormattedOffer.t,
    Forall2 (lists_entry lib) (map inl offers ++ map inr invoicerequests) result
    /\ forall (env : Env) (w : World),
         exists w', Legacy.get lib connection env w = (Ok result, w').
Proof.
  intros Hformat.
  pose (task := fun offer : Listed.t =>
    outcome_map
      (fun formattedOffer =>
         {| FormattedOffer.formattedOffer := formattedOffer;
            FormattedOffer.active := Listed.active offer;
            FormattedOffer.single_use := Listed.single_use offer;
            FormattedOffer.used := Listed.used offer;
            FormattedOffer.bolt12 := Listed.bolt12 offer;
            FormattedOffer.label := Listed.label offer |})
      (Lib.bolt12ToOffer lib (Listed.bolt12 offer)
         (or_str (Listed.offer_id offer) (Listed.invreq_id offer)))).
  destruct (map_fulfilled task (map inl offers ++ map inr invoicerequests))
    as (result & Hresult & Hlists).
  { intros offer Hin. destruct (Hformat offer Hin) as [formattedOffer Hf].
    unfold task. rewrite Hf. eexists. reflexivity. }
  exists result. split.
  - eapply Forall2_impl; [exact Hlists|].
    intros offer formatted H.
    apply outcome_map_Ok in H as (formattedOffer & Hf & ->).
    unfold lists_entry. simpl. repeat split; try reflexivity. exact Hf.
  - intros env w. eexists.
    unfold Legacy.get, try_catch, bind, issue, await, settle_as.
    rewrite listoffers_answered, listinvoicerequests_answered.
    rewrite Promise_all_listing.
    cbn [defined offers_of invoicerequests_of lookup list_lookup ret fst snd].
    change (map _ (map inl offers ++ map inr invoicerequests))
      with (map task (map inl offers ++ map inr invoicerequests)).
    rewrite Hresult, Promise_all_fulfilled.
    reflexivity.
Qed.

End GetOrder.

(** C5, amended: when the node answers both listing calls and every listed
    [bolt12] decodes, [get] returns one offer for each entry: those of the
    pay offers in the order of [listoffers], then those of the invoice
    requests in the order of [listinvoicerequests]; and it returns this
    same list whatever the surroundings, the order in which the decoding
    tasks complete among them. *)
Theorem get_order (lib : Lib.t) (connection : Connection.t)
    (offers : list OfferSummary.t)
    (invoicerequests : list InvoiceRequestSummary.t) :
  Node.listoffers (Connection.node connection) = Ok offers ->
  Node.listinvoicerequests (Connection.node connection) = Ok invoicerequests ->
  ((forall bolt12,
       In bolt12 (map OfferSummary.bolt12 offers
                    ++ map InvoiceRequestSummary.bolt12 invoicerequests) ->
       exists decoded, Lib.decodeBolt12 lib bolt12 = Ok decoded) ->
   exists pays withdraws : list Offer.t,
     Forall2 (lists_pay lib connection) offers pays
     /\ Forall2 (lists_withdraw lib connection) invoicerequests withdraws
     /\ forall (env : Env) (w : World),
          exists w', Wallet.get lib connection env w = (Ok (pays ++ withdraws), w'))
  /\ ((forall offer : Listed.t,
          In offer (map inl offers ++ map inr invoicerequests) ->
          exists formattedOffer,
            Lib.bolt12ToOffer lib (Listed.bolt12 offer)
              (or_str (Listed.offer_id offer) (Listed.invreq_id offer))
            = Ok formattedOffer) ->
      (exists result : list FormattedOffer.t,
          Forall2 (lists_entry lib)
            (map inl offers ++ map inr invoicerequests) result
          /\ forall (env : Env) (w : World),
               exists w', Conn.get lib connection env w = (Ok result, w'))
      /\ (exists result : list FormattedOffer.t,
             Forall2 (lists_entry lib)
               (map inl offers ++ map inr invoicerequests) result
             /\ forall (env : Env) (w : World),
                  exists w', Legacy.get lib connection env w = (Ok result, w'))).
Proof.
  intros Hoffers Hrequests. split.
  - apply Wallet_get_order; assumption.
  - intros Hformat. split.
    + apply Conn_get_order; assumption.
    + apply Legacy_get_order; assumption.
Qed.

(** The order scenario: one pay offer [o1] and one invoice request [w1]
    listed by the node, in each of the three backends. *)
Lemma get_order_witness :
  (exists pays withdraws : list Offer.t,
      Forall2 (lists_pay SpecLib.lib (connection_to cooperative))
        [{| OfferSummary.offer_id := "o1";
            OfferSummary.bolt12 := "lno1pay";
            OfferSummary.active := true;
            OfferSummary.single_use := false;
            OfferSummary.used := false;
            OfferSummary.label := Some "coffee" |}] pays
      /\ Forall2 (lists_withdraw SpecLib.lib (connection_to cooperative))
           [{| InvoiceRequestSummary.invreq_id := "w1";
               InvoiceRequestSummary.bolt12 := "lnr1withdraw";
               InvoiceRequestSummary.active := true;
               InvoiceRequestSummary.single_use := true;
               InvoiceRequestSummary.used := false;
               InvoiceRequestSummary.label := Some "refund" |}] withdraws
      /\ forall (env : Env) (w : World),
           exists w',
             Wallet.get SpecLib.lib (connection_to cooperative) env w
             = (Ok (pays ++ withdraws), w'))
  /\ (exists result : list FormattedOffer.t,
         Forall2 (lists_entry SpecLib.lib)
           (map inl
              [{| OfferSummary.offer_id := "o1";
                  OfferSummary.bolt12 := "lno1pay";
                  OfferSummary.active := true;
                  OfferSummary.single_use := false;
                  OfferSummary.used := false;
                  OfferSummary.label := Some "coffee" |}]
            ++ map inr
                 [{| InvoiceRequestSummary.invreq_id := "w1";
                     InvoiceRequestSummary.bolt12 := "lnr1withdraw";
                     InvoiceRequestSummary.active := true;
                     InvoiceRequestSummary.single_use := true;
                     InvoiceRequestSummary.used := false;
                     InvoiceRequestSummary.label := Some "refund" |}]) result
         /\ forall (env : Env) (w : World),
              exists w',
                Conn.get SpecLib.lib (connection_to cooperative) env w
                = (Ok result, w'))
  /\ (exists result : list FormattedOffer.t,
         Forall2 (lists_entry SpecLib.lib)
           (map inl
              [{| OfferSummary.offer_id := "o1";
                  OfferSummary.bolt12 := "lno1pay";
                  OfferSummary.active := true;
                  OfferSummary.single_use := false;
                  OfferSummary.used := false;
                  OfferSummary.label := Some "coffee" |}]
            ++ map inr
                 [{| InvoiceRequestSummary.invreq_id := "w1";
                     InvoiceRequestSummary.bolt12 := "lnr1withdraw";
                     InvoiceRequestSummary.active := true;
                     InvoiceRequestSummary.single_use := true;
                     InvoiceRequestSummary.used := false;
                     InvoiceRequestSummary.label := Some "refund" |}]) result
         /\ forall (env : Env) (w : World),
              exists w',
                Legacy.get SpecLib.lib (connection_to cooperative) env w
                = (Ok result, w')).
Proof.
  split.
  - apply (proj1 (get_order SpecLib.lib (connection_to cooperative) _ _
                    eq_refl eq_refl)).
    intros bolt12 [<-|[<-|[]]]; eexists; reflexivity.
  - apply (proj2 (get_order SpecLib.lib (connection_to cooperative) _ _
                    eq_refl eq_refl)).
    intros offer [<-|[<-|[]]]; eexists; reflexivity.
Defined.

(** C5 as it is stated, for every pair of answers, fails where a listed
    [bolt12] does not decode: the node [garbled] answers both listing
    calls, with one pay offer and no invoice request, and [get] returns
    a list in none of the three backends. *)
Lemma get_garbled_returns_no_list :
  (exists offer, Node.listoffers garbled = Ok [offer])
  /\ Node.listinvoicerequests garbled = Ok []
  /\ (forall offers,
        fst (Wallet.get SpecLib.lib (connection_to garbled) surroundings initial)
        <> Ok offers)
  /\ (forall offers,
        fst (Conn.get SpecLib.lib (connection_to garbled) surroundings initial)
        <> Ok offers)
  /\ (forall offers,
        fst (Legacy.get SpecLib.lib (connection_to garbled) surroundings initial)
        <> Ok offers).
Proof.
  split; [eexists; reflexivity|]. split; [reflexivity|].
  repeat split; intros offers; vm_compute; discriminate.
Qed.

(** The same scenario run with the second task of every [Promise.all]
    completing before the first: [o1], a pay offer, then [w1], a withdraw
    offer. *)
Example Wallet_get_o1_w1 :
  let env := {| time_at := time_at surroundings;
                hex_at := hex_at surroundings;
                completion := fun _ => [1; 0]%nat |} in
  outcome_map (map (fun offer => (Offer.id offer, Offer.type offer)))
    (fst (Wallet.get SpecLib.lib (connection_to cooperative) env initial))
  = Ok [("o1", pay_offer); ("w1", withdraw_offer)].
Proof. reflexivity. Qed.

Example Conn_get_o1_w1 :
  let env := {| time_at := time_at surroundings;
                hex_at := hex_at surroundings;
                completion := fun _ => [1; 0]%nat |} in
  outcome_map
    (map (fun offer =>
            (Offer.id (FormattedOffer.formattedOffer offer),
             Offer.type (FormattedOffer.formattedOffer offer))))
    (fst (Conn.get SpecLib.lib (connection_to cooperative) env initial))
  = Ok [("o1", pay_offer); ("w1", withdraw_offer)].
Proof. reflexivity. Qed.

(** * Properties of more of the code *)

(** ** The histories of [streams.ts] *)

(** X1: the history that [connectionErrors$] keeps for a connection
    identifier is made of the errors with a [connection_] key and that
    identifier, in order of arrival, whatever else is emitted in between,
    up to the first connection error whose identifier names a property
    that every object inherits ([constructor], [toString], [__proto__]
    and the like): on that error the reducer throws and the stream ends,
    so that the histories stay what they were. A history holds the first
    ten of these errors and no more, and nothing is kept under the empty
    identifier or under an inherited name. *)
Theorem connectionErrors_history (emitted : list AppError) (cid : string) :
  (cid <> "" ->
   Streams.connectionErrors emitted !! cid
   = match List.filter (reaches cid)
             (before_end (List.filter Streams.is_connection_error emitted)) with
     | [] => None
     | mine => Some (take 10 mine)
     end)
  /\ Streams.connectionErrors emitted !! "" = None
  /\ (Streams.is_inherited cid = true ->
      Streams.connectionErrors emitted !! cid = None)
  /\ (forall history,
         Streams.connectionErrors emitted !! cid = Some history ->
         (0 < length history <= 10)%nat)
  /\ (Streams.ended (Streams.connectionErrors_scanned emitted) = true
      <-> exists error,
            In error emitted
            /\ Streams.is_connection_error error = true
            /\ ends_stream error = true)
  /\ (forall more error,
         In error emitted ->
         Streams.is_connection_error error = true ->
         ends_stream error = true ->
         Streams.connectionErrors (emitted ++ more)
         = Streams.connectionErrors emitted).
Proof.
  split; [|split; [|split; [|split; [|split]]]].
  - apply connectionErrors_lookup.
  - apply connectionErrors_lookup_empty.
  - intros Hname.
    assert (Hne : cid <> "") by (intros ->; discriminate Hname).
    rewrite connectionErrors_lookup by exact Hne.
    destruct (List.filter (reaches cid)
                (before_end (List.filter Streams.is_connection_error emitted)))
      as [|m mine] eqn:Hmine; [reflexivity|].
    assert (Hin : In m (List.filter (reaches cid)
                          (before_end
                             (List.filter Streams.is_connection_error emitted))))
      by (rewrite Hmine; left; reflexivity).
    apply filter_In in Hin as [Hin Hreach].
    apply In_before_end in Hin as [_ Halive].
    unfold reaches in Hreach. unfold ends_stream in Halive.
    destruct (connectionId (detail m)) as [c|]; [|discriminate Hreach].
    apply String.eqb_eq in Hreach. subst c. congruence.
  - intros history Hlookup. split.
    + destruct (String.eqb_spec cid "") as [->|Hne].
      * rewrite connectionErrors_lookup_empty in Hlookup. discriminate.
      * rewrite connectionErrors_lookup in Hlookup by assumption.
        destruct (List.filter (reaches cid)
                    (before_end
                       (List.filter Streams.is_connection_error emitted)))
          as [|m mine]; [discriminate|].
        injection Hlookup as <-. simpl. lia.
    + eapply connectionErrors_at_most_ten. exact Hlookup.
  - apply connectionErrors_ended_iff.
  - intros more error Hin Hkey Hends.
    unfold Streams.connectionErrors, Streams.connectionErrors_scanned.
    rewrite List.filter_app, fold_left_app.
    rewrite scan_next_ended; [reflexivity|].
    apply connectionErrors_ended_iff. exists error.
    repeat split; assumption.
Qed.

(** Two connections and an application error in between; then an error
    that carries [constructor] for an identifier, after which an error of
    the first connection is not taken in. *)
Lemma connectionErrors_history_witness :
  Streams.connectionErrors
    [numbered_error 1;
     {| key := "connection_error";
        detail := {| context := "get (offers)";
                     connectionId := Some "c2";
                     payload := connection_lost |} |};
     {| key := "app_error"; detail := detail (numbered_error 2) |};
     numbered_error 3;
     {| key := "connection_error";
        detail := {| context := "get (offers)";
                     connectionId := Some "constructor";
                     payload := connection_lost |} |};
     numbered_error 4] !! "c1"
  = Some [numbered_error 1; numbered_error 3].
Proof.
  rewrite (proj1 (connectionErrors_history _ "c1")) by discriminate.
  reflexivity.
Defined.

Lemma shift_while_longer_drop (limit : nat) (allLogs : list string) :
  shift_while_longer limit allLogs = drop (length allLogs - limit) allLogs.
Proof.
  induction allLogs as [|log allLogs IH]; [reflexivity|].
  cbn [shift_while_longer].
  destruct (Nat.ltb_spec limit (length (log :: allLogs))) as [Hlt|Hge].
  - rewrite IH. simpl length in *.
    replace (S (length allLogs) - limit)%nat
      with (S (length allLogs - limit)) by lia.
    reflexivity.
  - replace (length (log :: allLogs) - limit)%nat with 0%nat by lia.
    reflexivity.
Qed.

(** Without a clearing, the recent logs are the last fifty. *)
Lemma recentLogs_from (logs acc : list string) :
  ~ In "CLEAR_ALL_LOGS" logs ->
  (length acc <= 50)%nat ->
  fold_left recentLogs_step logs acc
  = drop (length (acc ++ logs) - 50) (acc ++ logs).
Proof.
  revert acc. induction logs as [|log logs IH]; intros acc Hclear Hlen.
  - rewrite app_nil_r. replace (length acc - 50)%nat with 0%nat by lia.
    reflexivity.
  - simpl fold_left. unfold recentLogs_step at 2.
    destruct (String.eqb_spec log "CLEAR_ALL_LOGS") as [->|Hne].
    { exfalso. apply Hclear. left. reflexivity. }
    rewrite shift_while_longer_drop.
    rewrite IH.
    + replace (acc ++ log :: logs) with ((acc ++ [log]) ++ logs)
        by (rewrite <- app_assoc; reflexivity).
      set (pushed_logs := acc ++ [log]).
      set (k := (length pushed_logs - 50)%nat).
      assert (Hk : (k <= length pushed_logs)%nat) by (unfold k; lia).
      rewrite <- (drop_app_le pushed_logs logs k Hk).
      rewrite drop_drop, length_drop, !length_app.
      f_equal. unfold k. lia.
    + intros Hin. apply Hclear. right. exact Hin.
    + rewrite length_drop, length_app. simpl. lia.
Qed.

(** X2: [recentLogs$] holds the logs emitted since the last
    [CLEAR_ALL_LOGS], the last fifty of them when there are more, oldest
    first: the oldest are the ones evicted, and there are never more than
    fifty. *)
Theorem recentLogs_last_fifty (before logs : list string) :
  ~ In "CLEAR_ALL_LOGS" logs ->
  recentLogs logs = drop (length logs - 50) logs
  /\ recentLogs (before ++ "CLEAR_ALL_LOGS" :: logs) = drop (length logs - 50) logs
  /\ (length (recentLogs (before ++ "CLEAR_ALL_LOGS" :: logs)) <= 50)%nat.
Proof.
  intros Hclear.
  assert (H1 : recentLogs logs = drop (length logs - 50) logs).
  { unfold recentLogs. rewrite recentLogs_from by (simpl; auto with arith).
    reflexivity. }
  assert (H2 : recentLogs (before ++ "CLEAR_ALL_LOGS" :: logs)
               = drop (length logs - 50) logs).
  { unfold recentLogs. rewrite fold_left_app. simpl fold_left.
    unfold recentLogs_step at 2. simpl.
    rewrite recentLogs_from by (simpl; auto with arith). reflexivity. }
  split; [exact H1|split; [exact H2|]].
  rewrite H2, length_drop. lia.
Qed.

(** Fifty-two logs after a clearing: the first two are gone. *)
Lemma recentLogs_last_fifty_witness :
  recentLogs (["boot"] ++ "CLEAR_ALL_LOGS"
                :: map (fun n => print_nat (N.of_nat n)) (seq 1 52))
  = map (fun n => print_nat (N.of_nat n)) (seq 3 50).
Proof.
  assert (Hclear : ~ In "CLEAR_ALL_LOGS"
                       (map (fun n => print_nat (N.of_nat n)) (seq 1 52))).
  { vm_compute. intros H.
    repeat (destruct H as [H|H]; [discriminate H|]). exact H. }
  destruct (recentLogs_last_fifty ["boot"] _ Hclear) as (_ & H & _).
  exact H.
Defined.

(** ** The calls that reach the node *)

Section Silent.

Context {E : Type}.

Lemma silent_ret {A} (a : A) : silent (ret (E := E) a).
Proof. intros w. reflexivity. Qed.

Lemma silent_throw {A} (e : E) : silent (throw (A := A) e).
Proof. intros w. reflexivity. Qed.

Lemma silent_await {A} (o : Outcome E A) : silent (await o).
Proof. intros w. reflexivity. Qed.

Lemma silent_nowSeconds (env : Env) : silent (nowSeconds (E := E) env).
Proof. intros w. reflexivity. Qed.

Lemma silent_createRandomHex (env : Env) : silent (createRandomHex (E := E) env).
Proof. intros w. reflexivity. Qed.

Lemma silent_errors_next (error : AppError) : silent (errors_next (E := E) error).
Proof. intros w. reflexivity. Qed.

Lemma silent_bind {A B} (m : M E A) (k : A -> M E B) :
  silent m -> (forall a, silent (k a)) -> silent (bind m k).
Proof.
  intros Hm Hk w. unfold bind. specialize (Hm w).
  destruct (m w) as [[a|e] w']; simpl in *.
  - rewrite Hk. exact Hm.
  - exact Hm.
Qed.

(** Issuing a call and going on without another. *)
Lemma calls_issue_then {A} (call : Rpc.Call) (k : M E A) (w : World) :
  silent k ->
  calls (snd ((issue call ;; k) w)) = calls w ++ [call].
Proof.
  intros Hk. unfold bind, issue. simpl.
  match goal with |- context [k ?w'] => specialize (Hk w'); destruct (k w') as [[a|e] w''] end;
    simpl in *; exact Hk.
Qed.

End Silent.

Lemma silent_defined {A} (v : option A) : silent (defined v).
Proof.
  destruct v; [apply silent_ret|apply silent_throw].
Qed.

Lemma silent_settle_as {A} (p : Outcome CoreLnError A) : silent (settle_as p).
Proof.
  intros w. destruct p; reflexivity.
Qed.

(** A [catch] block that issues no call leaves the calls of the body. *)
Lemma calls_try_catch {E E' A} (body : M E A) (handler : E -> M E' A) (w : World) :
  (forall e, silent (handler e)) ->
  calls (snd (try_catch body handler w)) = calls (snd (body w)).
Proof.
  intros Hh. unfold try_catch.
  destruct (body w) as [[a|e] w']; simpl; [reflexivity|apply Hh].
Qed.

(** Going on without a call leaves the calls of the first step. *)
Lemma calls_bind_silent {E A B} (m : M E A) (k : A -> M E B) (w : World) :
  (forall a, silent (k a)) ->
  calls (snd (bind m k w)) = calls (snd (m w)).
Proof.
  intros Hk. unfold bind.
  destruct (m w) as [[a|e] w']; simpl; [apply Hk|reflexivity].
Qed.

Ltac silent_steps :=
  cbv zeta;
  repeat first
    [ apply silent_ret
    | apply silent_throw
    | apply silent_await
    | apply silent_nowSeconds
    | apply silent_createRandomHex
    | apply silent_errors_next
    | apply silent_defined
    | apply silent_settle_as
    | apply silent_bind; [|intros ?]
    | match goal with
      | |- silent (if ?b then _ else _) => destruct b
      end ].

(** Two calls issued one after the other, and none after. *)
Lemma calls_issue_twice {E A} (first second : Rpc.Call) (k : M E A) (w : World) :
  silent k ->
  calls (snd ((issue first ;; issue second ;; k) w))
  = calls w ++ [first; second].
Proof.
  intros Hk.
  change ((issue first ;; issue second ;; k) w)
    with ((issue second ;; k)
            {| calls := calls w ++ [first]; pushed := pushed w;
               clock_reads := clock_reads w; random_draws := random_draws w |}).
  rewrite calls_issue_then by assumption. simpl. rewrite <- app_assoc. reflexivity.
Qed.

Section CallsIssued.

Variable lib : Lib.t.
Variable connection : Connection.t.
Variable env : Env.

(** X3: in every run, whatever the node answers and whatever fails, [get]
    of each backend issues the two listing calls, [listoffers] first, and
    no other call: both are on the wire before either answer is looked
    at, and nothing is retried. *)
Theorem get_calls (w : World) :
  calls (snd (Wallet.get lib connection env w))
  = calls w ++ [Rpc.listoffers; Rpc.listinvoicerequests]
  /\ calls (snd (Conn.get lib connection env w))
     = calls w ++ [Rpc.listoffers; Rpc.listinvoicerequests]
  /\ calls (snd (Legacy.get lib connection env w))
     = calls w ++ [Rpc.listoffers; Rpc.listinvoicerequests].
Proof.
  split; [|split].
  - unfold Wallet.get.
    rewrite calls_try_catch by (intros e; silent_steps).
    apply calls_issue_twice. silent_steps.
  - unfold Conn.get.
    rewrite calls_bind_silent by (intros p; silent_steps).
    rewrite calls_try_catch by (intros e; silent_steps).
    apply calls_issue_twice. silent_steps.
  - unfold Legacy.get.
    rewrite calls_bind_silent by (intros p; silent_steps).
    rewrite calls_try_catch by (intros e; silent_steps).
    apply calls_issue_twice. silent_steps.
Qed.

End CallsIssued.

(** X5: [createWithdraw] of the wallet backend sends the amount of the
    options converted with [satsToMsats] and the expiry counted from the
    clock, and issues no call when the conversion fails; the connection
    backends send the amount and the expiry of the options as they are. *)
Theorem createWithdraw_calls (lib : Lib.t) (connection : Connection.t) (env : Env)
    (options : CreateWithdrawOfferOptions.t) (w : World) :
  let amount := CreateWithdrawOfferOptions.amount options in
  let expiry := CreateWithdrawOfferOptions.expiry options in
  let absoluteExpiry :=
    if truthy_num expiry
    then option_map (fun expiry => expiry + time_at env (clock_reads w)) expiry
    else expiry in
  calls (snd (Wallet.createWithdraw lib connection env options w))
  = calls w
    ++ match Lib.satsToMsats lib amount with
       | Ok amountMsat =>
           [Rpc.invoicerequest
              (invoicerequest_params options (Some amountMsat) absoluteExpiry)]
       | Throw _ => []
       end
  /\ calls (snd (Conn.createWithdraw lib connection options w))
     = calls w
       ++ [Rpc.invoicerequest (invoicerequest_params options (Some amount) expiry)]
  /\ calls (snd (Legacy.createWithdraw lib connection options w))
     = calls w
       ++ [Rpc.invoicerequest (invoicerequest_params options (Some amount) expiry)].
Proof.
  intros amount expiry absoluteExpiry.
  unfold absoluteExpiry, expiry, amount, invoicerequest_params.
  split; [|split].
  - unfold Wallet.createWithdraw. run_all; try reflexivity; try congruence.
    all: rewrite app_nil_r; reflexivity.
  - unfold Conn.createWithdraw. run_all; reflexivity.
  - unfold Legacy.createWithdraw. run_all; reflexivity.
Qed.

(** X6: [fetchInvoice] of the wallet backend sends [satsToMsats(amount)]
    as [amount_msat] when the amount is a string that is not empty, the
    amount as it is (absent, or empty) otherwise, and issues no call when
    the conversion fails; the connection backends send the amount as it
    is. What any of the three returns is the invoice of the node's answer
    to that call. *)
Theorem fetchInvoice_calls (lib : Lib.t) (connection : Connection.t)
    (options : FetchInvoiceOptions.t) (w : World) :
  let amount := FetchInvoiceOptions.amount options in
  (calls (snd (Wallet.fetchInvoice lib connection options w))
   = calls w
     ++ (if truthy_str amount
         then match Lib.satsToMsats lib (default "" amount) with
              | Ok amountMsat =>
                  [Rpc.fetchinvoice (fetchinvoice_params options (Some amountMsat))]
              | Throw _ => []
              end
         else [Rpc.fetchinvoice (fetchinvoice_params options amount)])
   /\ calls (snd (Conn.fetchInvoice lib connection options w))
      = calls w ++ [Rpc.fetchinvoice (fetchinvoice_params options amount)]
   /\ calls (snd (Legacy.fetchInvoice lib connection options w))
      = calls w ++ [Rpc.fetchinvoice (fetchinvoice_params options amount)])
  /\ (forall invoice w',
         Wallet.fetchInvoice lib connection options w = (Ok invoice, w')
         \/ Conn.fetchInvoice lib connection options w = (Ok invoice, w')
         \/ Legacy.fetchInvoice lib connection options w = (Ok invoice, w') ->
         exists params,
           Node.fetchinvoice (Connection.node connection) params = Ok invoice
           /\ calls w' = calls w ++ [Rpc.fetchinvoice params]).
Proof.
  intros amount. unfold amount, fetchinvoice_params. split; [split; [|split]|].
  - unfold Wallet.fetchInvoice. run_all; try reflexivity; try congruence.
    all: rewrite app_nil_r; reflexivity.
  - unfold Conn.fetchInvoice. run_all; reflexivity.
  - unfold Legacy.fetchInvoice. run_all; reflexivity.
  - intros invoice w' [H|[H|H]]; revert H.
    + unfold Wallet.fetchInvoice. run_all; intros [= <- <-];
        eexists; (split; [eassumption|reflexivity]).
    + unfold Conn.fetchInvoice. run_all; intros [= <- <-];
        eexists; (split; [eassumption|reflexivity]).
    + unfold Legacy.fetchInvoice. run_all; intros [= <- <-];
        eexists; (split; [eassumption|reflexivity]).
Qed.

(** The amount of an invoice fetch on the three backends, the node
    answering [lni1invoice]. *)
Lemma fetchInvoice_calls_witness :
  exists params,
    Node.fetchinvoice (Connection.node (connection_to cooperative)) params
    = Ok "lni1invoice"
    /\ calls (snd (Wallet.fetchInvoice SpecLib.lib (connection_to cooperative)
                     {| FetchInvoiceOptions.amount := Some "21";
                        FetchInvoiceOptions.offer := "lno1pay";
                        FetchInvoiceOptions.quantity := None;
                        FetchInvoiceOptions.timeout := None;
                        FetchInvoiceOptions.payerNote := Some "thanks" |} initial))
       = calls initial ++ [Rpc.fetchinvoice params]
    /\ FetchInvoiceParams.amount_msat params = Some "21000".
Proof.
  destruct (proj2 (fetchInvoice_calls SpecLib.lib (connection_to cooperative)
                     {| FetchInvoiceOptions.amount := Some "21";
                        FetchInvoiceOptions.offer := "lno1pay";
                        FetchInvoiceOptions.quantity := None;
                        FetchInvoiceOptions.timeout := None;
                        FetchInvoiceOptions.payerNote := Some "thanks" |} initial)
              "lni1invoice" _ (or_introl eq_refl))
    as (params & Hanswer & Hcalls).
  exists params. split; [exact Hanswer|]. split; [exact Hcalls|].
  simpl in Hcalls. injection Hcalls as <-. reflexivity.
Defined.

(** ** A listed offer that does not decode *)

(** A list of tasks all fulfil, or one of them rejects. *)
Lemma fulfilled_or_rejected {E A} (tasks : list (Outcome E A)) :
  (exists values, tasks = map Ok values)
  \/ (exists i e, tasks !! i = Some (Throw e)).
Proof.
  induction tasks as [|[a|e] tasks IH].
  - left. exists []. reflexivity.
  - destruct IH as [[values ->]|(i & e & H)].
    + left. exists (a :: values). reflexivity.
    + right. exists (S i), e. exact H.
  - right. exists 0%nat, e. reflexivity.
Qed.

(** What [settle] rejects with is the rejection of one of the tasks. *)
Lemma settle_rejects_with {E A} (tasks : list (Outcome E A)) (e : E) :
  forall (order : list nat) (slots : list (option A)),
    settle tasks order slots = Throw e ->
    exists i, tasks !! i = Some (Throw e).
Proof.
  induction order as [|j order IH]; intros slots H; [discriminate|].
  simpl in H.
  destruct (slots !! j) as [[v|]|]; [eapply IH; exact H| |eapply IH; exact H].
  destruct (tasks !! j) as [[v|e']|] eqn:Hj; [eapply IH; exact H| |eapply IH; exact H].
  injection H as ->. exists j. exact Hj.
Qed.

(** [Promise.all] over tasks of which one rejects: it rejects, with the
    rejection of one of them. *)
Lemma Promise_all_rejects_with {E A} (tasks : list (Outcome E A))
    (order : list nat) (i : nat) (e : E) :
  tasks !! i = Some (Throw e) ->
  exists j e', Promise_all tasks order = Throw e' /\ tasks !! j = Some (Throw e').
Proof.
  intros Htask.
  destruct (Promise_all_rejected tasks order i e Htask) as [e' He'].
  unfold Promise_all in He'.
  destruct (settle tasks (order ++ seq 0 (length tasks))
              (replicate (length tasks) None)) as [slots|e''] eqn:Hs;
    [discriminate|].
  injection He' as ->.
  destruct (settle_rejects_with tasks e' _ _ Hs) as [j Hj].
  exists j, e'. split; [|exact Hj].
  unfold Promise_all. rewrite Hs. reflexivity.
Qed.

Lemma lookup_map_Throw {X E A} (f : X -> Outcome E A) (l : list X) (i : nat) (e : E) :
  map f l !! i = Some (Throw e) -> exists x, In x l /\ f x = Throw e.
Proof.
  rewrite list_lookup_fmap. destruct (l !! i) as [x|] eqn:Hx; [|discriminate].
  simpl. intros [= H]. exists x. split; [|exact H].
  apply list_elem_of_In. eapply list_elem_of_lookup_2. exact Hx.
Qed.

Lemma In_map_Throw {X E A} (f : X -> Outcome E A) (l : list X) (x : X) (e : E) :
  In x l -> f x = Throw e -> exists i, map f l !! i = Some (Throw e).
Proof.
  intros Hin Hf. apply list_elem_of_In, list_elem_of_lookup_1 in Hin as [i Hi].
  exists i. rewrite list_lookup_fmap, Hi. simpl. rewrite Hf. reflexivity.
Qed.

Section Undecodable.

Variable lib : Lib.t.
Variable connection : Connection.t.
Variable env : Env.
Variable offers : list OfferSummary.t.
Variable invoicerequests : list InvoiceRequestSummary.t.

Hypothesis listoffers_answered :
  Node.listoffers (Connection.node connection) = Ok offers.
Hypothesis listinvoicerequests_answered :
  Node.listinvoicerequests (Connection.node connection) = Ok invoicerequests.

(** X7: [get] of the wallet backend returns all the offers or none: when
    both listing calls are answered and one listed [bolt12] does not
    decode, [get] fails as a whole, with the failure of one of the
    undecodable entries mapped under the context [get (offers)] and pushed
    on the error channel. *)
Theorem Wallet_get_undecodable (w : World) :
  (exists bolt12 e,
      In bolt12 (map OfferSummary.bolt12 offers
                   ++ map InvoiceRequestSummary.bolt12 invoicerequests)
      /\ Lib.decodeBolt12 lib bolt12 = Throw e) ->
  exists bolt12 error w',
    In bolt12 (map OfferSummary.bolt12 offers
                 ++ map InvoiceRequestSummary.bolt12 invoicerequests)
    /\ Lib.decodeBolt12 lib bolt12 = Throw error
    /\ Wallet.get lib connection env w
       = (Throw (Mapped (handleError lib error "get (offers)"
                           (Some (Connection.walletId connection)))), w')
    /\ pushed w'
       = pushed w ++ [handleError lib error "get (offers)"
                        (Some (Connection.walletId connection))].
Proof.
  intros (bolt12 & e & Hin & Hdecode).
  pose (pay_task := fun offer : OfferSummary.t =>
    outcome_map
      (listed_offer connection pay_offer
         (OfferSummary.offer_id offer) (OfferSummary.bolt12 offer)
         (OfferSummary.active offer) (OfferSummary.single_use offer)
         (OfferSummary.used offer) (OfferSummary.label offer))
      (Lib.decodeBolt12 lib (OfferSummary.bolt12 offer))).
  pose (withdraw_task := fun offer : InvoiceRequestSummary.t =>
    outcome_map
      (listed_offer connection withdraw_offer
         (InvoiceRequestSummary.invreq_id offer)
         (InvoiceRequestSummary.bolt12 offer)
         (InvoiceRequestSummary.active offer)
         (InvoiceRequestSummary.single_use offer)
         (InvoiceRequestSummary.used offer)
         (InvoiceRequestSummary.label offer))
      (Lib.decodeBolt12 lib (InvoiceRequestSummary.bolt12 offer))).
  destruct (fulfilled_or_rejected (map pay_task offers))
    as [[pays Hpays]|(i & e0 & Hi)].
  - (* every pay offer decodes: the failure is among the invoice requests *)
    apply in_app_or in Hin as [Hin|Hin].
    { apply in_map_iff in Hin as (offer & <- & Hin).
      destruct (In_map_Throw pay_task offers offer e Hin) as [j Hj].
      { unfold pay_task. rewrite Hdecode. reflexivity. }
      rewrite Hpays, list_lookup_fmap in Hj.
      destruct (pays !! j); discriminate. }
    apply in_map_iff in Hin as (request & <- & Hin).
    destruct (In_map_Throw withdraw_task invoicerequests request e Hin) as [j Hj].
    { unfold withdraw_task. rewrite Hdecode. reflexivity. }
    destruct (Promise_all_rejects_with _ (completion env 2) j e Hj)
      as (k & error & Hreject & Hk).
    apply lookup_map_Throw in Hk as (failing & Hfailing & Htask).
    exists (InvoiceRequestSummary.bolt12 failing), error. eexists.
    split; [apply in_or_app; right; apply in_map; exact Hfailing|].
    split.
    { unfold withdraw_task in Htask.
      destruct (Lib.decodeBolt12 lib (InvoiceRequestSummary.bolt12 failing));
        [discriminate|]. simpl in Htask. congruence. }
    unfold Wallet.get, try_catch, bind, issue, await, errors_next, throw.
    rewrite listoffers_answered, listinvoicerequests_answered.
    rewrite Promise_all_listing.
    cbn [defined offers_of invoicerequests_of lookup list_lookup ret fst snd].
    change (map _ offers) with (map pay_task offers).
    rewrite Hpays, Promise_all_fulfilled.
    cbn [defined offers_of invoicerequests_of lookup list_lookup ret fst snd].
    change (map _ invoicerequests) with (map withdraw_task invoicerequests).
    rewrite Hreject. split; reflexivity.
  - (* a pay offer does not decode *)
    destruct (Promise_all_rejects_with _ (completion env 1) i e0 Hi)
      as (k & error & Hreject & Hk).
    apply lookup_map_Throw in Hk as (failing & Hfailing & Htask).
    exists (OfferSummary.bolt12 failing), error. eexists.
    split; [apply in_or_app; left; apply in_map; exact Hfailing|].
    split.
    { unfold pay_task in Htask.
      destruct (Lib.decodeBolt12 lib (OfferSummary.bolt12 failing));
        [discriminate|]. simpl in Htask. congruence. }
    unfold Wallet.get, try_catch, bind, issue, await, errors_next, throw.
    rewrite listoffers_answered, listinvoicerequests_answered.
    rewrite Promise_all_listing.
    cbn [defined offers_of invoicerequests_of lookup list_lookup ret fst snd].
    change (map _ offers) with (map pay_task offers).
    rewrite Hreject. split; reflexivity.
Qed.

(** X8: in the two connection backends a listed [bolt12] that
    [bolt12ToOffer] fails on makes [get] fail as a whole too, but with the
    raw failure of one of the failing entries: it is not mapped to a
    connection error and nothing is pushed on the error channel. *)
Theorem connection_get_undecodable (w : World) :
  (exists offer e,
      In offer (map inl offers ++ map inr invoicerequests)
      /\ Lib.bolt12ToOffer lib (Listed.bolt12 offer)
           (or_str (Listed.offer_id offer) (Listed.invreq_id offer)) = Throw e) ->
  (exists offer error w',
      In offer (map inl offers ++ map inr invoicerequests)
      /\ Lib.bolt12ToOffer lib (Listed.bolt12 offer)
           (or_str (Listed.offer_id offer) (Listed.invreq_id offer)) = Throw error
      /\ Conn.get lib connection env w = (Throw (Raw error), w')
      /\ pushed w' = pushed w)
  /\ (exists offer error w',
         In offer (map inl offers ++ map inr invoicerequests)
         /\ Lib.bolt12ToOffer lib (Listed.bolt12 offer)
              (or_str (Listed.offer_id offer) (Listed.invreq_id offer)) = Throw error
         /\ Legacy.get lib connection env w = (Throw (Raw error), w')
         /\ pushed w' = pushed w).
Proof.
  intros (offer & e & Hin & Hformat).
  pose (task := fun offer : Listed.t =>
    outcome_map
      (fun formattedOffer =>
         {| FormattedOffer.formattedOffer := formattedOffer;
            FormattedOffer.active := Listed.active offer;
            FormattedOffer.single_use := Listed.single_use offer;
            FormattedOffer.used := Listed.used offer;
            FormattedOffer.bolt12 := Listed.bolt12 offer;
            FormattedOffer.label := Listed.label offer |})
      (Lib.bolt12ToOffer lib (Listed.bolt12 offer)
         (or_str (Listed.offer_id offer) (Listed.invreq_id offer)))).
  destruct (In_map_Throw task _ offer e Hin) as [j Hj].
  { unfold task. rewrite Hformat. reflexivity. }
  destruct (Promise_all_rejects_with _ (completion env 1) j e Hj)
    as (k & error & Hreject & Hk).
  apply lookup_map_Throw in Hk as (failing & Hfailing & Htask).
  assert (Hfails : Lib.bolt12ToOffer lib (Listed.bolt12 failing)
                     (or_str (Listed.offer_id failing) (Listed.invreq_id failing))
                   = Throw error).
  { unfold task in Htask.
    destruct (Lib.bolt12ToOffer lib (Listed.bolt12 failing)
                (or_str (Listed.offer_id failing) (Listed.invreq_id failing)));
      [discriminate|]. simpl in Htask. congruence. }
  split; exists failing, error; eexists;
    (split; [exact Hfailing|]); (split; [exact Hfails|]).
  - unfold Conn.get, try_catch, bind, issue, await, settle_as.
    rewrite listoffers_answered, listinvoicerequests_answered.
    rewrite Promise_all_listing.
    cbn [defined offers_of invoicerequests_of lookup list_lookup ret fst snd].
    change (map _ (map inl offers ++ map inr invoicerequests))
      with (map task (map inl offers ++ map inr invoicerequests)).
    rewrite Hreject. split; reflexivity.
  - unfold Legacy.get, try_catch, bind, issue, await, settle_as.
    rewrite listoffers_answered, listinvoicerequests_answered.
    rewrite Promise_all_listing.
    cbn [defined offers_of invoicerequests_of lookup list_lookup ret fst snd].
    change (map _ (map inl offers ++ map inr invoicerequests))
      with (map task (map inl offers ++ map inr invoicerequests)).
    rewrite Hreject. split; reflexivity.
Qed.

End Undecodable.

(** A node that lists one offer, which does not decode: [get] of the
    wallet backend reports the decoding failure. *)
Lemma Wallet_get_undecodable_witness :
  exists bolt12 error w',
    In bolt12 ["garbage"]
    /\ Lib.decodeBolt12 SpecLib.lib bolt12 = Throw error
    /\ Wallet.get SpecLib.lib (connection_to garbled) surroundings initial
       = (Throw (Mapped (handleError SpecLib.lib error "get (offers)"
                           (Some "wallet-1"))), w')
    /\ pushed w'
       = pushed initial ++ [handleError SpecLib.lib error "get (offers)"
                              (Some "wallet-1")].
Proof.
  apply (Wallet_get_undecodable SpecLib.lib (connection_to garbled) surroundings
           _ _ eq_refl eq_refl initial).
  exists "garbage", SpecLib.DecodeError. split; [left|]; reflexivity.
Defined.

(** The same node on the connection backends: the failure comes out
    raw. *)
Lemma connection_get_undecodable_witness :
  exists (offer : Listed.t) error w',
    In offer (map (@inl OfferSummary.t InvoiceRequestSummary.t)
                [{| OfferSummary.offer_id := "o9";
                    OfferSummary.bolt12 := "garbage";
                    OfferSummary.active := true;
                    OfferSummary.single_use := false;
                    OfferSummary.used := false;
                    OfferSummary.label := None |}]
                ++ map (@inr OfferSummary.t InvoiceRequestSummary.t) [])
    /\ Lib.bolt12ToOffer SpecLib.lib (Listed.bolt12 offer)
         (or_str (Listed.offer_id offer) (Listed.invreq_id offer)) = Throw error
    /\ Conn.get SpecLib.lib (connection_to garbled) surroundings initial
       = (Throw (Raw error), w')
    /\ pushed w' = pushed initial.
Proof.
  apply (proj1 (connection_get_undecodable SpecLib.lib (connection_to garbled)
                  surroundings _ _ eq_refl eq_refl initial
                  (ex_intro _ _ (ex_intro _ SpecLib.DecodeError
                     (conj (or_introl eq_refl) eq_refl))))).
Defined.

(** ** The amount of a received invoice *)

(** X9: the amount of the invoice that [sendInvoice] of the wallet
    backend returns is read from the [amount_received_msat] of the node's
    answer to the call it issued when that answer has one, whatever amount
    was asked for. When the answer
    has none, the amount asked for comes back: if the helpers undo
    [satsToMsats] ([formatMsatString] leaves the converted amount as it is
    and [msatsToSats] gives back the sats), the invoice carries the amount
    of the options. *)
Theorem Wallet_sendInvoice_amount (lib : Lib.t) (connection : Connection.t)
    (env : Env) (options : SendInvoiceOptions.t) (w : World) :
  (forall (invoice : Wallet.Invoice.t) (w' : World),
      Wallet.sendInvoice lib connection env options w = (Ok invoice, w') ->
      exists (params : list JsVal) (result : SendInvoiceResponse.t),
        Node.sendinvoice (Connection.node connection) params = Ok result
        /\ calls w' = calls w ++ [Rpc.sendinvoice params]
        /\ (truthy_str (SendInvoiceResponse.amount_received_msat result) = true ->
            exists formatted,
              Lib.formatMsatString lib
                (SendInvoiceResponse.amount_received_msat result) = Ok formatted
              /\ Lib.msatsToSats lib formatted = Ok (Wallet.Invoice.amount invoice)))
  /\ (forall (sats amountMsat : string) (result : SendInvoiceResponse.t),
         SendInvoiceOptions.amount options = Some sats ->
         sats <> "" ->
         Lib.satsToMsats lib sats = Ok amountMsat ->
         amountMsat <> "" ->
         Node.sendinvoice (Connection.node connection)
           [JStr (SendInvoiceOptions.offer options);
            JStr (SendInvoiceOptions.label options);
            JStr amountMsat;
            of_num (SendInvoiceOptions.timeout options);
            of_num (SendInvoiceOptions.quantity options)] = Ok result ->
         truthy_str (SendInvoiceResponse.amount_received_msat result) = false ->
         Lib.formatMsatString lib (Some amountMsat) = Ok amountMsat ->
         Lib.msatsToSats lib amountMsat = Ok sats ->
         exists (invoice : Wallet.Invoice.t) (w' : World),
           Wallet.sendInvoice lib connection env options w = (Ok invoice, w')
           /\ Wallet.Invoice.amount invoice = sats
           /\ Wallet.Invoice.id invoice = SendInvoiceOptions.label options
           /\ Wallet.Invoice.direction invoice = receive).
Proof.
  split.
  - intros invoice w'. unfold Wallet.sendInvoice. run_all; intros [= <- <-];
      do 2 eexists; (split; [eassumption|]); (split; [reflexivity|]);
      intros Hreceived; simpl;
      unfold or_str in *;
      match goal with
      | H : Lib.formatMsatString _ _ = Ok _ |- _ => rewrite Hreceived in H
      end; eauto.
  - intros sats amountMsat result Hamount Hsats Hconvert Hmsat Hanswer Hnone
      Hformat Hback.
    assert (Htruthy : forall s, s <> "" -> truthy_str (Some s) = true).
    { intros s Hs. unfold truthy_str.
      destruct (String.eqb_spec s "") as [Hs'|_]; [contradiction|reflexivity]. }
    unfold Wallet.sendInvoice, try_catch, bind, rpc, issue, await, ret,
      nowSeconds, outcome_map.
    rewrite Hamount, (Htruthy sats Hsats). simpl default. rewrite Hconvert.
    rewrite (Htruthy amountMsat Hmsat). simpl.
    rewrite Hanswer. simpl. unfold or_str. rewrite Hnone, Hformat, Hback.
    destruct (truthy_num (SendInvoiceResponse.paid_at result));
      do 2 eexists; (split; [reflexivity|]); repeat split.
Qed.


(** 5000 sats asked for, and a node that does not say what it received:
    the invoice is for 5000 sats. *)
Lemma Wallet_sendInvoice_amount_witness :
  exists (invoice : Wallet.Invoice.t) (w' : World),
    Wallet.sendInvoice SpecLib.lib (connection_to silent_on_amount) surroundings
      send_5000 initial = (Ok invoice, w')
    /\ Wallet.Invoice.amount invoice = "5000"
    /\ Wallet.Invoice.id invoice = "invoice-1"
    /\ Wallet.Invoice.direction invoice = receive.
Proof.
  eapply (proj2 (Wallet_sendInvoice_amount SpecLib.lib
                   (connection_to silent_on_amount) surroundings send_5000 initial)
            "5000" "5000000");
    try reflexivity; discriminate.
Defined.

(** ** The utilities: values shown *)

Lemma slice_first_nine (request : list ascii) :
  Utils.slice request 0 (Some 9) = take 9 request.
Proof.
  unfold Utils.slice. cbv zeta.
  change (0 <? 0) with false. change (9 <? 0) with false. cbv iota.
  replace (Z.to_nat (Z.min 9 (Z.of_nat (length request))
                     - Z.min 0 (Z.of_nat (length request))))
    with (Nat.min 9 (length request)) by lia.
  replace (Z.to_nat (Z.min 0 (Z.of_nat (length request)))) with 0%nat by lia.
  rewrite drop_0.
  destruct (Nat.min_spec 9 (length request)) as [[_ ->]|[Hle ->]];
    [reflexivity|].
  rewrite !firstn_all2 by lia. reflexivity.
Qed.
Lemma slice_last_nine (request : list ascii) :
  Utils.slice request (-9) None = drop (length request - 9) request.
Proof.
  unfold Utils.slice. cbv zeta. change (-9 <? 0) with true. cbv iota.
  replace (Z.to_nat (Z.max (Z.of_nat (length request) + -9) 0))
    with (length request - 9)%nat by lia.
  apply firstn_all2. rewrite length_drop. lia.
Qed.

Lemma truncateValue_parts (request : list ascii) :
  Utils.truncateValue request
  = take 9 request ++ Utils.units "..." ++ drop (length request - 9) request.
Proof.
  unfold Utils.truncateValue.
  rewrite slice_first_nine, slice_last_nine. reflexivity.
Qed.

Lemma truncateValue_length (request : list ascii) :
  length (Utils.truncateValue request)
  = (2 * Nat.min (length request) 9 + 3)%nat.
Proof.
  rewrite truncateValue_parts, !length_app, length_take, length_drop.
  change (length (Utils.units "...")) with 3%nat. lia.
Qed.

(** X10: [truncateValue] puts three dots between the first nine and the
    last nine code units of a value, so that its result has 21 code units
    for a value of nine or more; a value of nine code units or fewer is
    not shortened: it comes out whole on both sides of the dots. *)
Theorem truncateValue_shape (request : list ascii) :
  Utils.truncateValue request
  = take 9 request ++ Utils.units "..." ++ drop (length request - 9) request
  /\ length (Utils.truncateValue request)
     = (2 * Nat.min (length request) 9 + 3)%nat
  /\ ((length request <= 9)%nat ->
      Utils.truncateValue request = request ++ Utils.units "..." ++ request).
Proof.
  split; [apply truncateValue_parts|split; [apply truncateValue_length|]].
  intros Hshort. rewrite truncateValue_parts.
  replace (length request - 9)%nat with 0%nat by lia.
  rewrite drop_0, firstn_all2 by lia. reflexivity.
Qed.

(** A value of three code units. *)
Lemma truncateValue_shape_witness :
  Utils.truncateValue (Utils.units "abc") = Utils.units "abc...abc".
Proof.
  apply (proj2 (proj2 (truncateValue_shape (Utils.units "abc")))).
  simpl. lia.
Defined.

(** ** The utilities: kinds of value *)

Lemma starts_with_spec (class : ascii -> bool) (n : nat) (s : list ascii) :
  Utils.starts_with class n s = true
  <-> exists key rest,
        s = key ++ rest /\ length key = n /\ forallb class key = true.
Proof.
  revert s. induction n as [|n IH]; intros s; simpl.
  - split; [intros _; exists [], s; repeat split|reflexivity].
  - destruct s as [|c s].
    + split; [discriminate|].
      intros (key & rest & Hs & Hlen & _).
      destruct key; [discriminate Hlen|discriminate Hs].
    + rewrite andb_true_iff, IH. split.
      * intros (Hc & key & rest & -> & Hlen & Hkey).
        exists (c :: key), rest. simpl. rewrite Hc, Hkey, Hlen. repeat split.
      * intros (key & rest & Hs & Hlen & Hkey).
        destruct key as [|k key]; [discriminate Hlen|].
        injection Hs as -> ->. simpl in Hkey, Hlen.
        apply andb_true_iff in Hkey as [Hk Hkey].
        split; [exact Hk|]. exists key, rest. repeat split; [lia|exact Hkey].
Qed.

(** The test for a public key holds of the values that have 66
    hexadecimal digits in a row somewhere. *)
Lemma nodePublicKeyRegex_spec (s : list ascii) :
  Utils.nodePublicKeyRegex s = true
  <-> exists before key rest,
        s = before ++ key ++ rest
        /\ length key = 66%nat /\ forallb Utils.is_hex key = true.
Proof.
  induction s as [|c s IH].
  - cbn [Utils.nodePublicKeyRegex]. rewrite orb_false_r, starts_with_spec. split.
    + intros (key & rest & Hs & H). exists [], key, rest. split; [exact Hs|exact H].
    + intros (before & key & rest & Hs & H).
      destruct before; [|discriminate Hs]. exists key, rest. split; [exact Hs|exact H].
  - cbn [Utils.nodePublicKeyRegex]. rewrite orb_true_iff, IH, starts_with_spec.
    split.
    + intros [(key & rest & Hs & H)|(before & key & rest & -> & H)].
      * exists [], key, rest. split; [exact Hs|exact H].
      * exists (c :: before), key, rest. split; [reflexivity|exact H].
    + intros (before & key & rest & Hs & H).
      destruct before as [|b before].
      * left. exists key, rest. split; [exact Hs|exact H].
      * injection Hs as -> ->. right. exists before, key, rest.
        split; [reflexivity|exact H].
Qed.

Lemma strip_prefix_spec (prefix s rest : list ascii) :
  Utils.strip_prefix prefix s = Some rest <-> s = prefix ++ rest.
Proof.
  revert s. induction prefix as [|p prefix IH]; intros s; simpl.
  - destruct s; split; congruence.
  - destruct s as [|c s]; [split; discriminate|].
    destruct (Ascii.eqb_spec p c) as [->|Hne].
    + rewrite IH. split; [intros ->; reflexivity|intros [= ->]; reflexivity].
    + split; [discriminate|intros [= -> _]; contradiction].
Qed.

(** The test for an invoice holds of [lnbc] followed by one character or
    more of the class, and by nothing else: the alternative [lnbcrt] adds
    no value. *)
Lemma lightningInvoiceRegex_spec (s : list ascii) :
  Utils.lightningInvoiceRegex s = true
  <-> exists data,
        s = Utils.units "lnbc" ++ data
        /\ data <> [] /\ forallb Utils.is_invoice_char data = true.
Proof.
  unfold Utils.lightningInvoiceRegex. rewrite orb_true_iff. split.
  - intros [H|H].
    + destruct (Utils.strip_prefix (Utils.units "lnbcrt") s) as [rest|] eqn:Hs;
        [|discriminate].
      apply strip_prefix_spec in Hs as ->.
      destruct rest as [|c rest]; [discriminate|].
      exists (Utils.units "rt" ++ c :: rest). split; [reflexivity|].
      split; [discriminate|]. simpl in *. exact H.
    + destruct (Utils.strip_prefix (Utils.units "lnbc") s) as [rest|] eqn:Hs;
        [|discriminate].
      apply strip_prefix_spec in Hs as ->.
      destruct rest as [|c rest]; [discriminate|].
      exists (c :: rest). split; [reflexivity|]. split; [discriminate|exact H].
  - intros (data & -> & Hdata & Hclass). right.
    rewrite (proj2 (strip_prefix_spec (Utils.units "lnbc")
                      (Utils.units "lnbc" ++ data) data) eq_refl).
    destruct data as [|c data]; [contradiction|exact Hclass].
Qed.

(** X11: [getPaymentType] takes for a node public key every value that
    has 66 hexadecimal digits in a row anywhere in it, whatever is before
    and after them, and no other; it takes for a payment request the
    values that are [lnbc] followed by one or more characters among
    [a-z], [A-H], [J-N], [P-Z] and the digits, and that have no such run
    of 66 hexadecimal digits; every other value is of no kind. *)
Theorem getPaymentType_kinds (value : list ascii) :
  let has_key :=
    exists before key rest,
      value = before ++ key ++ rest
      /\ length key = 66%nat /\ forallb Utils.is_hex key = true in
  let is_invoice :=
    exists data,
      value = Utils.units "lnbc" ++ data
      /\ data <> [] /\ forallb Utils.is_invoice_char data = true in
  (Utils.getPaymentType value = Some "node_public_key" <-> has_key)
  /\ (Utils.getPaymentType value = Some "payment_request"
      <-> ~ has_key /\ is_invoice)
  /\ (Utils.getPaymentType value = None <-> ~ has_key /\ ~ is_invoice).
Proof.
  intros has_key is_invoice. unfold has_key, is_invoice.
  rewrite <- nodePublicKeyRegex_spec, <- lightningInvoiceRegex_spec.
  unfold Utils.getPaymentType.
  destruct (Utils.nodePublicKeyRegex value);
    destruct (Utils.lightningInvoiceRegex value);
    repeat split; try discriminate; try reflexivity; try tauto;
    intros []; try discriminate; try congruence; intuition congruence.
Qed.

(** X12: [formatDestination] applied to a value and to the kind that
    [getPaymentType] finds it shows 21 code units of a value taken for a
    node public key, the first nine and the last nine around three dots,
    and leaves a value of no kind as it is. *)
Theorem formatDestination_of_kind (value : list ascii) :
  (Utils.getPaymentType value = Some "node_public_key" ->
   Utils.formatDestination value (Utils.getPaymentType value)
   = take 9 value ++ Utils.units "..." ++ drop (length value - 9) value
   /\ length (Utils.formatDestination value (Utils.getPaymentType value)) = 21%nat)
  /\ (Utils.getPaymentType value = None ->
      Utils.formatDestination value (Utils.getPaymentType value) = value).
Proof.
  split.
  - intros Hkind. rewrite Hkind. unfold Utils.formatDestination. simpl.
    split; [apply truncateValue_parts|]. rewrite truncateValue_length.
    unfold Utils.getPaymentType in Hkind.
    destruct (Utils.nodePublicKeyRegex value) eqn:Hkey;
      [|destruct (Utils.lightningInvoiceRegex value); discriminate].
    apply nodePublicKeyRegex_spec in Hkey as (before & key & rest & -> & Hkey & _).
    rewrite !length_app, Hkey. lia.
  - intros Hkind. rewrite Hkind. reflexivity.
Qed.

(** A public key followed by a host, and a value of no kind. *)
Lemma formatDestination_of_kind_witness :
  Utils.formatDestination
    (Utils.units "02aabbccddeeff00112233445566778899aabbccddeeff00112233445566778899@1.2.3.4:9735")
    (Utils.getPaymentType
       (Utils.units "02aabbccddeeff00112233445566778899aabbccddeeff00112233445566778899@1.2.3.4:9735"))
  = Utils.units "02aabbccd....3.4:9735"
  /\ Utils.formatDestination (Utils.units "hello")
       (Utils.getPaymentType (Utils.units "hello"))
     = Utils.units "hello".
Proof.
  split.
  - exact (proj1 (proj1 (formatDestination_of_kind
                          (Utils.units "02aabbccddeeff00112233445566778899aabbccddeeff00112233445566778899@1.2.3.4:9735"))
                   eq_refl)).
  - exact (proj2 (formatDestination_of_kind (Utils.units "hello")) eq_refl).
Defined.

(** ** The utilities: thousands *)

Lemma without_commas_commas_after (previous : ascii) (s : list ascii) :
  without_commas (Utils.commas_after previous s) = without_commas s.
Proof.
  revert previous. induction s as [|c s IH]; intros previous; [reflexivity|].
  cbn [Utils.commas_after].
  destruct (Utils.is_word previous && Utils.groups_of_three (c :: s));
    unfold without_commas in *; simpl; rewrite IH; reflexivity.
Qed.

Lemma without_commas_with_commas (s : list ascii) :
  without_commas (Utils.with_commas s) = without_commas s.
Proof.
  destruct s as [|c s]; [reflexivity|].
  unfold Utils.with_commas.
  pose proof (without_commas_commas_after c s) as H.
  unfold without_commas in *. simpl. rewrite H. reflexivity.
Qed.

Lemma split_not_nil (separator : ascii) (s : list ascii) :
  Utils.split separator s <> [].
Proof.
  destruct s as [|c s]; simpl; [discriminate|].
  destruct (Ascii.eqb c separator); [discriminate|].
  destruct (Utils.split separator s); discriminate.
Qed.

(** What [join] makes of a first part and of the others. *)
Lemma join_cons (separator : ascii) (part : list ascii)
    (parts : list (list ascii)) :
  Utils.join separator (part :: parts)
  = part ++ match parts with
            | [] => []
            | _ :: _ => separator :: Utils.join separator parts
            end.
Proof.
  destruct parts; simpl; [rewrite app_nil_r|]; reflexivity.
Qed.

(** Splitting and joining on the same separator gives the string back. *)
Lemma join_split (separator : ascii) (s : list ascii) :
  Utils.join separator (Utils.split separator s) = s.
Proof.
  induction s as [|c s IH]; [reflexivity|].
  cbn [Utils.split].
  pose proof (split_not_nil separator s) as Hnil.
  destruct (Utils.split separator s) as [|p ps] eqn:Hsplit; [contradiction|].
  destruct (Ascii.eqb_spec c separator) as [->|Hne].
  - rewrite join_cons, app_nil_l, IH. reflexivity.
  - rewrite join_cons in IH. rewrite join_cons, <- IH. reflexivity.
Qed.

(** X13: [formatWithCommas] only puts commas in: without its commas, the
    formatted string is the string it was given without its commas, and
    so the string itself when it had none; no character is dropped or
    changed, with and without [commasAfterDecimal]. *)
Theorem formatWithCommas_only_inserts (val : list ascii)
    (commasAfterDecimal : option bool) :
  without_commas (Utils.formatWithCommas val commasAfterDecimal)
  = without_commas val.
Proof.
  unfold Utils.formatWithCommas.
  destruct (default false commasAfterDecimal).
  - apply without_commas_with_commas.
  - pose proof (join_split "."%char val) as Hjoin.
    destruct (Utils.split "."%char val) as [|part parts].
    + rewrite Hjoin. reflexivity.
    + rewrite <- Hjoin. rewrite !join_cons.
      unfold without_commas. rewrite !List.filter_app.
      f_equal. apply without_commas_with_commas.
Qed.

Lemma digit_run_digits (s : list ascii) :
  forallb Utils.is_digit s = true -> Utils.digit_run s = length s.
Proof.
  induction s as [|c s IH]; [reflexivity|]. simpl.
  intros H. apply andb_true_iff in H as [Hc Hs]. rewrite Hc, IH by assumption.
  reflexivity.
Qed.

Lemma is_digit_is_word (c : ascii) :
  Utils.is_digit c = true -> Utils.is_word c = true.
Proof.
  intros H. unfold Utils.is_word. rewrite H. reflexivity.
Qed.

(** The commas put into a run of digits that goes to the end of the
    string, after a word character. *)
Lemma commas_after_digits (s : list ascii) :
  forall previous : ascii,
    Utils.is_word previous = true ->
    forallb Utils.is_digit s = true ->
    Utils.commas_after previous s
    = concat (imap (fun j c => if ((length s - j) mod 3 =? 0)%nat
                               then [","%char; c] else [c]) s).
Proof.
  induction s as [|c s IH]; intros previous Hword Hdigits; [reflexivity|].
  pose proof Hdigits as Hall. simpl in Hdigits.
  apply andb_true_iff in Hdigits as [Hc Hs].
  cbn [Utils.commas_after]. rewrite Hword. unfold Utils.groups_of_three.
  rewrite (digit_run_digits (c :: s) Hall).
  rewrite imap_cons. cbn [concat].
  rewrite (IH c (is_digit_is_word c Hc) Hs).
  replace (imap ((fun j c0 => if ((length (c :: s) - j) mod 3 =? 0)%nat
                              then [","%char; c0] else [c0]) ∘ S) s)
    with (imap (fun j c0 => if ((length s - j) mod 3 =? 0)%nat
                            then [","%char; c0] else [c0]) s)
    by (apply imap_ext; intros; reflexivity).
  rewrite Nat.sub_0_r.
  assert (Hpos : (0 <? length (c :: s))%nat = true) by (apply Nat.ltb_lt; simpl; lia).
  rewrite Hpos, andb_true_l.
  destruct ((length (c :: s) mod 3 =? 0)%nat); reflexivity.
Qed.

Lemma with_commas_digits (digits : list ascii) :
  forallb Utils.is_digit digits = true ->
  Utils.with_commas digits = in_thousands digits.
Proof.
  destruct digits as [|c s]; [reflexivity|].
  intros Hdigits. simpl in Hdigits. apply andb_true_iff in Hdigits as [Hc Hs].
  unfold Utils.with_commas, in_thousands.
  rewrite imap_cons. cbn [concat].
  change (0 <? 0)%nat with false. rewrite andb_false_l. cbn [app].
  rewrite (commas_after_digits s c (is_digit_is_word c Hc) Hs).
  reflexivity.
Qed.

Lemma split_without_separator (separator : ascii) (s : list ascii) :
  forallb (fun c => negb (Ascii.eqb c separator)) s = true ->
  Utils.split separator s = [s].
Proof.
  induction s as [|c s IH]; [reflexivity|]. simpl.
  intros H. apply andb_true_iff in H as [Hc Hs].
  apply negb_true_iff in Hc. rewrite Hc, IH by assumption. reflexivity.
Qed.

Lemma split_at_separator (separator : ascii) (s rest : list ascii) :
  forallb (fun c => negb (Ascii.eqb c separator)) s = true ->
  Utils.split separator (s ++ separator :: rest)
  = s :: Utils.split separator rest.
Proof.
  induction s as [|c s IH]; simpl.
  - intros _. rewrite Ascii.eqb_refl. reflexivity.
  - intros H. apply andb_true_iff in H as [Hc Hs].
    apply negb_true_iff in Hc. rewrite Hc, IH by assumption. reflexivity.
Qed.

Lemma digits_without_point (digits : list ascii) :
  forallb Utils.is_digit digits = true ->
  forallb (fun c => negb (Ascii.eqb c "."%char)) digits = true.
Proof.
  induction digits as [|c s IH]; [reflexivity|]. simpl.
  intros H. apply andb_true_iff in H as [Hc Hs]. rewrite IH by assumption.
  rewrite andb_true_r. apply negb_true_iff.
  destruct (Ascii.eqb_spec c "."%char) as [->|]; [discriminate Hc|reflexivity].
Qed.

(** X14: [formatWithCommas] writes a string of digits in groups of three
    counted from its end, and, unless [commasAfterDecimal] is set, does
    so for the digits before the first point of a string and leaves what
    follows the point as it is. *)
Theorem formatWithCommas_thousands (digits rest : list ascii)
    (commasAfterDecimal : option bool) :
  forallb Utils.is_digit digits = true ->
  Utils.formatWithCommas digits commasAfterDecimal = in_thousands digits
  /\ (default false commasAfterDecimal = false ->
      Utils.formatWithCommas (digits ++ "."%char :: rest) commasAfterDecimal
      = in_thousands digits ++ "."%char :: rest).
Proof.
  intros Hdigits. split.
  - unfold Utils.formatWithCommas.
    destruct (default false commasAfterDecimal).
    + apply with_commas_digits. exact Hdigits.
    + rewrite split_without_separator by (apply digits_without_point; exact Hdigits).
      simpl. apply with_commas_digits. exact Hdigits.
  - intros Hflag. unfold Utils.formatWithCommas. rewrite Hflag.
    rewrite split_at_separator by (apply digits_without_point; exact Hdigits).
    rewrite join_cons.
    pose proof (split_not_nil "."%char rest) as Hnil.
    pose proof (join_split "."%char rest) as Hjoin.
    destruct (Utils.split "."%char rest) as [|p ps]; [contradiction|].
    rewrite Hjoin, with_commas_digits by exact Hdigits. reflexivity.
Qed.

(** A number with seven digits before the point. *)
Lemma formatWithCommas_thousands_witness :
  Utils.formatWithCommas (Utils.units "1234567") None = Utils.units "1,234,567"
  /\ Utils.formatWithCommas (Utils.units "1234567" ++ "."%char :: Utils.units "8912")
       None
     = Utils.units "1,234,567.8912".
Proof.
  destruct (formatWithCommas_thousands (Utils.units "1234567") (Utils.units "8912")
              None eq_refl) as [Hwhole Hpoint].
  split; [exact Hwhole|exact (Hpoint eq_refl)].
Defined.

(** ** The utilities: pay index and balance *)

Lemma highest_index_from (payments : list Utils.Payment.t) (start : Z) :
  let highest :=
    fold_left
      (fun currentHighestIndex payment =>
         let payIndex := Utils.Payment.payIndex payment in
         if truthy_num payIndex && (default 0 payIndex >? currentHighestIndex)
         then default 0 payIndex
         else currentHighestIndex)
      payments start in
  start <= highest
  /\ (forall payment i,
         In payment payments ->
         Utils.Payment.payIndex payment = Some i -> i <= highest \/ i = 0)
  /\ (highest = start
      \/ exists payment,
           In payment payments /\ Utils.Payment.payIndex payment = Some highest).
Proof.
  revert start. induction payments as [|p payments IH]; intros start; simpl.
  - repeat split; [lia|intros ? ? []|left; reflexivity].
  - set (next := if truthy_num (Utils.Payment.payIndex p)
                    && (default 0 (Utils.Payment.payIndex p) >? start)
                 then default 0 (Utils.Payment.payIndex p) else start).
    destruct (IH next) as (Hle & Hbound & Hattained).
    assert (Hnext : start <= next
                    /\ (forall i, Utils.Payment.payIndex p = Some i ->
                                  i <= next \/ i = 0)
                    /\ (next = start \/ Utils.Payment.payIndex p = Some next)).
    { unfold next. destruct (Utils.Payment.payIndex p) as [i|]; simpl.
      - destruct (Z.eqb_spec i 0) as [->|Hnz]; simpl.
        + repeat split; [lia|intros ? [= <-]; right; reflexivity|left; reflexivity].
        + destruct (Z.gtb_spec i start) as [Hgt|Hle'].
          * repeat split; [lia|intros ? [= <-]; left; lia|right; reflexivity].
          * repeat split; [lia|intros ? [= <-]; left; lia|left; reflexivity].
      - repeat split; [lia|discriminate|left; reflexivity]. }
    destruct Hnext as (Hs & Hp & Ha).
    split; [eapply Z.le_trans; [exact Hs|exact Hle]|split].
    + intros payment i [<-|Hin] Hi.
      * destruct (Hp i Hi) as [H|H]; [left|right; exact H].
        eapply Z.le_trans; [exact H|exact Hle].
      * apply (Hbound payment i Hin Hi).
    + destruct Hattained as [Heq|(payment & Hin & Hi)].
      * destruct Ha as [Ha|Ha].
        -- left. transitivity next; [exact Heq|exact Ha].
        -- right. exists p. split; [left; reflexivity|].
           rewrite Ha. f_equal. symmetry. exact Heq.
      * right. exists payment. split; [right; exact Hin|exact Hi].
Qed.

(** X15: [deriveLastPayIndex] gives the highest pay index among the
    payments and 0 when no payment has a positive one: its result is not
    negative, no payment has a pay index above it, and it is 0 or the pay
    index of one of the payments. *)
Theorem deriveLastPayIndex_highest (payments : list Utils.Payment.t) :
  0 <= Utils.deriveLastPayIndex payments
  /\ (forall payment i,
         In payment payments ->
         Utils.Payment.payIndex payment = Some i ->
         i <= Utils.deriveLastPayIndex payments)
  /\ (Utils.deriveLastPayIndex payments = 0
      \/ exists payment,
           In payment payments
           /\ Utils.Payment.payIndex payment
              = Some (Utils.deriveLastPayIndex payments)).
Proof.
  unfold Utils.deriveLastPayIndex.
  destruct payments as [|p payments].
  - simpl. repeat split; [lia|intros ? ? []|left; reflexivity].
  - change (length (p :: payments) =? 0)%nat with false. cbv iota.
    destruct (highest_index_from (p :: payments) 0) as (Hle & Hbound & Hattained).
    split; [exact Hle|split].
    + intros payment i Hin Hi.
      destruct (Hbound payment i Hin Hi) as [H | ->]; [exact H|exact Hle].
    + exact Hattained.
Qed.

(** Four payments, one without a pay index. *)
Lemma deriveLastPayIndex_highest_witness :
  5 <= Utils.deriveLastPayIndex
         [{| Utils.Payment.payIndex := Some 3 |};
          {| Utils.Payment.payIndex := None |};
          {| Utils.Payment.payIndex := Some 7 |};
          {| Utils.Payment.payIndex := Some 5 |}].
Proof.
  apply (proj1 (proj2 (deriveLastPayIndex_highest _))
           {| Utils.Payment.payIndex := Some 5 |}).
  - simpl. tauto.
  - reflexivity.
Defined.

Lemma add_channels_sum (channels : list Utils.Channel.t) :
  forall (amounts : list N) (total : Z),
    map Utils.Channel.our_amount_msat channels = map print_nat amounts ->
    Utils.add_channels total channels = Ok (total + Z.of_N (total_of amounts)).
Proof.
  induction channels as [|channel channels IH]; intros [|n amounts] total H;
    try discriminate H.
  - simpl. f_equal. lia.
  - injection H as Hn H. cbn [Utils.add_channels]. unfold Utils.Big_add.
    rewrite Hn, parse_int_print_nat, (IH amounts) by exact H.
    f_equal. unfold total_of. simpl. fold (total_of amounts). lia.
Qed.

Lemma total_of_Permutation (amounts amounts' : list N) :
  Permutation amounts amounts' -> total_of amounts = total_of amounts'.
Proof.
  induction 1; unfold total_of in *; simpl; lia.
Qed.

(** X16: [calculateBalance] adds up the [our_amount_msat] of the
    channels: when these are the decimal strings of whole amounts, the
    balance is the string of their sum; it does not depend on the order
    of the channels, and the on-chain outputs count for nothing. *)
Theorem calculateBalance_sum (funds : Utils.ListfundsResponse.t)
    (amounts : list N) :
  map Utils.Channel.our_amount_msat (Utils.ListfundsResponse.channels funds)
  = map print_nat amounts ->
  Utils.calculateBalance funds = Ok (Big_toString (Z.of_N (total_of amounts)))
  /\ (forall funds' : Utils.ListfundsResponse.t,
         Permutation (Utils.ListfundsResponse.channels funds)
           (Utils.ListfundsResponse.channels funds') ->
         Utils.calculateBalance funds' = Utils.calculateBalance funds).
Proof.
  intros Hamounts.
  assert (Hsum : forall f ns,
             map Utils.Channel.our_amount_msat (Utils.ListfundsResponse.channels f)
             = map print_nat ns ->
             Utils.calculateBalance f = Ok (Big_toString (Z.of_N (total_of ns)))).
  { intros f ns H. unfold Utils.calculateBalance.
    change (Big "0") with (Ok (E := CoreLnError) 0). cbv beta iota.
    rewrite (add_channels_sum _ ns 0 H). reflexivity. }
  split; [apply Hsum; exact Hamounts|].
  intros funds' Hperm.
  apply (Permutation_map Utils.Channel.our_amount_msat) in Hperm.
  rewrite Hamounts in Hperm.
  apply Permutation_sym, Permutation_map_inv in Hperm as (amounts' & Heq & Hperm).
  rewrite (Hsum funds' amounts' Heq), (Hsum funds amounts Hamounts).
  do 3 f_equal. apply total_of_Permutation. apply Permutation_sym. exact Hperm.
Qed.

(** Two channels and an output. *)
Lemma calculateBalance_sum_witness :
  Utils.calculateBalance
    {| Utils.ListfundsResponse.channels :=
         [{| Utils.Channel.our_amount_msat := "1000" |};
          {| Utils.Channel.our_amount_msat := "2500" |}];
       Utils.ListfundsResponse.outputs :=
         [{| Utils.Output.amount_msat := "999999" |}] |}
  = Ok "3500".
Proof.
  apply (proj1 (calculateBalance_sum
                  {| Utils.ListfundsResponse.channels :=
                       [{| Utils.Channel.our_amount_msat := "1000" |};
                        {| Utils.Channel.our_amount_msat := "2500" |}];
                     Utils.ListfundsResponse.outputs :=
                       [{| Utils.Output.amount_msat := "999999" |}] |}
                  [1000%N; 2500%N] eq_refl)).
Defined.

(** ** The utilities: the sections of a decoded invoice *)

(** The reducer of [formatDecodedInvoice]. *)
Lemma sections_skip (name : string) (sections : list Utils.Section_.t) :
  forall acc : gmap string JsVal,
    Forall (fun section =>
              Utils.Section_.name section <> name
              \/ Utils.truthy (Utils.Section_.value section) = false) sections ->
    fold_left
      (fun acc section =>
         if Utils.truthy (JStr (Utils.Section_.name section))
            && Utils.truthy (Utils.Section_.value section)
         then Utils.assign acc (Utils.Section_.name section)
                (Utils.Section_.value section)
         else acc)
      sections acc !! name
    = acc !! name.
Proof.
  induction sections as [|section sections IH]; intros acc Hall; [reflexivity|].
  apply Forall_cons in Hall as [Hsection Hall]. cbn [fold_left].
  rewrite IH by exact Hall.
  destruct (Utils.truthy (JStr (Utils.Section_.name section))
            && Utils.truthy (Utils.Section_.value section)) eqn:Htruthy;
    [|reflexivity].
  apply andb_true_iff in Htruthy as [_ Hvalue].
  destruct Hsection as [Hname|Hfalsy]; [|congruence].
  unfold Utils.assign.
  destruct (String.eqb (Utils.Section_.name section) "__proto__");
    [reflexivity|].
  apply lookup_insert_ne. exact Hname.
Qed.

Lemma sections_never (key : string) (sections : list Utils.Section_.t) :
  key = "" \/ key = "__proto__" ->
  forall acc : gmap string JsVal,
    fold_left
      (fun acc section =>
         if Utils.truthy (JStr (Utils.Section_.name section))
            && Utils.truthy (Utils.Section_.value section)
         then Utils.assign acc (Utils.Section_.name section)
                (Utils.Section_.value section)
         else acc)
      sections acc !! key
    = acc !! key.
Proof.
  intros Hkey.
  induction sections as [|section sections IH]; intros acc; [reflexivity|].
  cbn [fold_left]. rewrite IH.
  destruct (Utils.truthy (JStr (Utils.Section_.name section))
            && Utils.truthy (Utils.Section_.value section)) eqn:Htruthy;
    [|reflexivity].
  apply andb_true_iff in Htruthy as [Hnamed _].
  unfold Utils.assign.
  destruct (String.eqb_spec (Utils.Section_.name section) "__proto__")
    as [Hproto|Hproto]; [reflexivity|].
  apply lookup_insert_ne. intros Heq.
  destruct Hkey as [-> | ->]; [|contradiction].
  rewrite Heq in Hnamed. discriminate Hnamed.
Qed.

(** X17: in the object that [formatDecodedInvoice] returns, a property
    has the value of the last section of its name whose value is truthy:
    later sections replace earlier ones, sections with an empty, zero or
    missing value are passed over, and a section named [paymentRequest]
    replaces the payment request itself. Without such a section the
    property is absent, or the payment request for [paymentRequest].
    Sections without a name, or named [__proto__], leave no property. *)
Theorem formatDecodedInvoice_properties (paymentRequest : string)
    (sections : list Utils.Section_.t) (name : string) :
  (forall before section after,
      sections = before ++ section :: after ->
      Utils.Section_.name section = name ->
      name <> "" -> name <> "__proto__" ->
      Utils.truthy (Utils.Section_.value section) = true ->
      Forall (fun later =>
                Utils.Section_.name later <> name
                \/ Utils.truthy (Utils.Section_.value later) = false) after ->
      Utils.formatDecodedInvoice paymentRequest sections !! name
      = Some (Utils.Section_.value section))
  /\ (Forall (fun section =>
                Utils.Section_.name section <> name
                \/ Utils.truthy (Utils.Section_.value section) = false) sections ->
      Utils.formatDecodedInvoice paymentRequest sections !! name
      = if String.eqb name "paymentRequest" then Some (JStr paymentRequest)
        else None)
  /\ Utils.formatDecodedInvoice paymentRequest sections !! "" = None
  /\ Utils.formatDecodedInvoice paymentRequest sections !! "__proto__" = None.
Proof.
  split; [|split; [|split]].
  - intros before section after -> Hname Hnamed Hproto Htruthy Hlater.
    unfold Utils.formatDecodedInvoice.
    apply lookup_union_Some_l.
    rewrite fold_left_app. cbn [fold_left].
    rewrite sections_skip by exact Hlater.
    rewrite Hname, Htruthy.
    assert (Hn : Utils.truthy (JStr name) = true).
    { simpl. destruct (String.eqb_spec name ""); [contradiction|reflexivity]. }
    rewrite Hn. cbn [andb]. unfold Utils.assign.
    destruct (String.eqb_spec name "__proto__"); [contradiction|].
    apply lookup_insert_eq.
  - intros Hall. unfold Utils.formatDecodedInvoice.
    rewrite lookup_union_r
      by (rewrite sections_skip by exact Hall; apply lookup_empty).
    destruct (String.eqb_spec name "paymentRequest") as [->|Hne].
    + apply lookup_singleton_eq.
    + apply lookup_singleton_ne. congruence.
  - unfold Utils.formatDecodedInvoice.
    rewrite lookup_union_r
      by (rewrite sections_never by (left; reflexivity); apply lookup_empty).
    apply lookup_singleton_ne. discriminate.
  - unfold Utils.formatDecodedInvoice.
    rewrite lookup_union_r
      by (rewrite sections_never by (right; reflexivity); apply lookup_empty).
    apply lookup_singleton_ne. discriminate.
Qed.

(** ** The utilities: addresses *)

Lemma in_one_of (class : ascii -> bool) (s r : list ascii) :
  In r (Utils.one_of class s) <-> exists c, s = c :: r /\ class c = true.
Proof.
  unfold Utils.one_of. destruct s as [|c s'].
  - split; [intros []|intros (c & Hs & _); discriminate Hs].
  - destruct (class c) eqn:Hclass; split.
    + intros [<-|[]]. exists c. split; [reflexivity|exact Hclass].
    + intros (c' & Hs & _). injection Hs as _ ->. left. reflexivity.
    + intros [].
    + intros (c' & Hs & Hc'). injection Hs as <- _. congruence.
Qed.

Lemma in_and_then (rests : list (list ascii))
    (next : list ascii -> list (list ascii)) (r : list ascii) :
  In r (Utils.and_then rests next) <-> exists m, In m rests /\ In r (next m).
Proof. unfold Utils.and_then. apply in_flat_map. Qed.

Lemma class_between (low high : nat) (c : ascii) :
  (low <=? nat_of_ascii c)%nat && (nat_of_ascii c <=? high)%nat = true ->
  In c (map ascii_of_nat (seq low (high + 1 - low))).
Proof.
  intros Hclass. apply andb_true_iff in Hclass as [Hlow Hhigh].
  apply Nat.leb_le in Hlow, Hhigh.
  rewrite <- (ascii_nat_embedding c). apply in_map.
  apply in_seq. lia.
Qed.

Ltac regex_cases :=
  repeat match goal with
    | H : In _ (_ ++ _) |- _ => apply in_app_or in H as [H|H]
    | H : In _ (Utils.and_then _ _) |- _ =>
        let m := fresh "m" in
        let Hm := fresh "Hm" in
        apply in_and_then in H as (m & Hm & H)
    | H : In _ (Utils.char _ _) |- _ => unfold Utils.char in H
    | H : In _ (Utils.between _ _ _) |- _ => unfold Utils.between in H
    | H : In _ (Utils.one_of _ _) |- _ =>
        let c := fresh "c" in
        let Hc := fresh "Hc" in
        apply in_one_of in H as (c & -> & Hc)
    | H : In _ [_] |- _ => destruct H as [H|[]]; subst
    | H : Ascii.eqb _ _ = true |- _ => apply Ascii.eqb_eq in H; subst
    | H : _ :: _ = _ :: _ |- _ => injection H as <- <-
    | H : Utils.is_digit _ = true |- _ =>
        apply class_between in H; vm_compute in H
    | H : (_ <=? nat_of_ascii _)%nat && (nat_of_ascii _ <=? _)%nat = true |- _ =>
        apply class_between in H; vm_compute in H
    | H : _ \/ _ |- _ => destruct H as [H|H]
    | H : False |- _ => destruct H
    | H : _ = ?c |- _ => is_var c; subst c
    end.

Ltac number_read :=
  lazymatch goal with
  | |- exists n, _ /\ ?c1 :: ?c2 :: ?c3 :: ?r = _ =>
      exists (N.of_nat ((nat_of_ascii c1 - 48) * 100
                        + (nat_of_ascii c2 - 48) * 10
                        + (nat_of_ascii c3 - 48)))
  | |- exists n, _ /\ ?c1 :: ?c2 :: ?r = _ =>
      exists (N.of_nat ((nat_of_ascii c1 - 48) * 10 + (nat_of_ascii c2 - 48)))
  | |- exists n, _ /\ ?c1 :: ?r = _ =>
      exists (N.of_nat (nat_of_ascii c1 - 48))
  end;
  split; [vm_compute; discriminate|vm_compute; reflexivity].

(** What [(25[0-5]|(2[0-4]|1\d|[1-9]|)\d)] matches is a number up to 255
    in decimal, *)
Lemma octet_reads (l r : list ascii) :
  In r (Utils.octet l) ->
  exists n, (n <= 255)%N /\ l = Utils.units (print_nat n) ++ r.
Proof.
  unfold Utils.octet. intros H.
  regex_cases; number_read.
Qed.

(** What an expression matches at the start of a string, it matches
    with more of a string after it. *)
Lemma one_of_app (class : ascii -> bool) (r l m : list ascii) :
  In m (Utils.one_of class l) -> In (m ++ r) (Utils.one_of class (l ++ r)).
Proof.
  intros H. apply in_one_of in H as (c & -> & Hc).
  apply in_one_of. exists c. split; [reflexivity|exact Hc].
Qed.

Lemma and_then_app (r : list ascii) (rests rests' : list (list ascii))
    (next : list ascii -> list (list ascii)) :
  (forall m, In m rests -> In (m ++ r) rests') ->
  (forall x m, In m (next x) -> In (m ++ r) (next (x ++ r))) ->
  forall m, In m (Utils.and_then rests next) ->
            In (m ++ r) (Utils.and_then rests' next).
Proof.
  intros Hrests Hnext m H. apply in_and_then in H as (x & Hx & Hm).
  apply in_and_then. exists (x ++ r). split; [apply Hrests|apply Hnext]; assumption.
Qed.

Lemma alternatives_app (r : list ascii) (A A' B B' : list (list ascii)) :
  (forall m, In m A -> In (m ++ r) A') ->
  (forall m, In m B -> In (m ++ r) B') ->
  forall m, In m (A ++ B) -> In (m ++ r) (A' ++ B').
Proof.
  intros HA HB m H. apply in_or_app.
  apply in_app_or in H as [H|H]; [left; apply HA|right; apply HB]; exact H.
Qed.

Lemma nothing_app (r l : list ascii) :
  forall m, In m [l] -> In (m ++ r) [l ++ r].
Proof. intros m [<-|[]]. left. reflexivity. Qed.

Lemma octet_app (r l : list ascii) :
  forall m, In m (Utils.octet l) -> In (m ++ r) (Utils.octet (l ++ r)).
Proof.
  unfold Utils.octet, Utils.char, Utils.between.
  repeat first [ apply alternatives_app
               | apply and_then_app
               | apply nothing_app
               | intros m; apply one_of_app
               | intros x m; apply one_of_app ].
Qed.

(** and it matches every such number. *)
Lemma octet_writes (n : N) (r : list ascii) :
  (n <= 255)%N -> In r (Utils.octet (Utils.units (print_nat n) ++ r)).
Proof.
  intros Hn.
  assert (Hall : forallb
                   (fun k =>
                      existsb (fun m => match m with [] => true | _ => false end)
                        (Utils.octet (Utils.units (print_nat (N.of_nat k)))))
                   (seq 0 256) = true)
    by (vm_compute; reflexivity).
  rewrite forallb_forall in Hall.
  specialize (Hall (N.to_nat n)). rewrite N2Nat.id in Hall.
  assert (Hin : In (N.to_nat n) (seq 0 256)) by (apply in_seq; lia).
  apply Hall in Hin. apply existsb_exists in Hin as (m & Hm & Hnil).
  destruct m; [|discriminate Hnil].
  apply (octet_app r) in Hm. exact Hm.
Qed.

Lemma point_or_end_cons (c : ascii) (m : list ascii) :
  Utils.point_or_end (c :: m)
  = if Ascii.eqb c "." then match m with c' :: m' => [c' :: m'] | [] => [] end
    else [].
Proof.
  destruct m; destruct c as [[] [] [] [] [] [] [] []]; reflexivity.
Qed.

Lemma in_point_or_end (m r : list ascii) :
  In r (Utils.point_or_end m)
  <-> (m = "."%char :: r /\ r <> []) \/ (m = [] /\ r = []).
Proof.
  destruct m as [|c m].
  - simpl. split.
    + intros [<-|[]]. right. split; reflexivity.
    + intros [[Hm _]|[_ ->]]; [discriminate Hm|left; reflexivity].
  - rewrite point_or_end_cons.
    destruct (Ascii.eqb_spec c ".") as [->|Hc].
    + destruct m as [|c' m']; split.
      * intros [].
      * intros [[Hm Hr]|[Hm _]]; [|discriminate Hm].
        injection Hm as <-. contradiction.
      * intros [<-|[]]. left. split; [reflexivity|discriminate].
      * intros [[Hm _]|[Hm _]]; [|discriminate Hm].
        injection Hm as <-. left. reflexivity.
    + split; [intros []|].
      intros [[Hm _]|[Hm _]]; [|discriminate Hm].
      injection Hm as -> _. contradiction.
Qed.

(** One group of [ipRegex]: a number up to 255, then a point with
    something after it, or the end. *)
Lemma in_octet_group (l r : list ascii) :
  In r (Utils.octet_group l)
  <-> exists n, (n <= 255)%N
                /\ ((l = Utils.units (print_nat n) ++ "."%char :: r /\ r <> [])
                    \/ (l = Utils.units (print_nat n) /\ r = [])).
Proof.
  unfold Utils.octet_group. rewrite in_and_then. split.
  - intros (m & Hm & Hr). apply octet_reads in Hm as (n & Hn & ->).
    exists n. split; [exact Hn|].
    apply in_point_or_end in Hr as [[-> Hr]|[-> ->]].
    + left. split; [reflexivity|exact Hr].
    + right. split; [apply app_nil_r|reflexivity].
  - intros (n & Hn & [[-> Hr]|[-> ->]]).
    + exists ("."%char :: r). split; [apply octet_writes; exact Hn|].
      apply in_point_or_end. left. split; [reflexivity|exact Hr].
    + exists []. split.
      * rewrite <- (app_nil_r (Utils.units (print_nat n))) at 1.
        apply octet_writes. exact Hn.
      * apply in_point_or_end. right. split; reflexivity.
Qed.

(** The four groups of [ipRegex]. *)
Lemma ipRegex_spec (s : list ascii) :
  Utils.ipRegex s = true
  <-> exists a b c d : N,
        (a <= 255)%N /\ (b <= 255)%N /\ (c <= 255)%N /\ (d <= 255)%N
        /\ s = Utils.units (print_nat a) ++ "."%char
               :: Utils.units (print_nat b) ++ "."%char
               :: Utils.units (print_nat c) ++ "."%char
               :: Utils.units (print_nat d).
Proof.
  unfold Utils.ipRegex. rewrite existsb_exists. split.
  - intros (rest & Hin & Hrest). destruct rest; [clear Hrest|discriminate Hrest].
    apply in_and_then in Hin as (r3 & Hin & H4).
    apply in_and_then in Hin as (r2 & Hin & H3).
    apply in_and_then in Hin as (r1 & H1 & H2).
    apply in_octet_group in H4 as (d & Hd & [[_ Habs]|[-> _]]);
      [contradiction|].
    apply in_octet_group in H3 as (c & Hc & [[-> _]|[_ Habs]]);
      [|pose proof (octet_writes d [] Hd) as Hin;
        rewrite Habs in Hin; destruct Hin].
    apply in_octet_group in H2 as (b & Hb & [[-> _]|[_ Habs]]);
      [|destruct (Utils.units (print_nat c)); discriminate Habs].
    apply in_octet_group in H1 as (a & Ha & [[-> _]|[_ Habs]]);
      [|destruct (Utils.units (print_nat b)); discriminate Habs].
    exists a, b, c, d. repeat split; assumption.
  - intros (a & b & c & d & Ha & Hb & Hc & Hd & ->).
    exists []. split; [|reflexivity].
    assert (Hlast : Utils.units (print_nat d) <> []).
    { intros Habs. pose proof (octet_writes d [] Hd) as Hin.
      rewrite Habs in Hin. destruct Hin. }
    apply in_and_then. exists (Utils.units (print_nat d)). split.
    + apply in_and_then.
      exists (Utils.units (print_nat c) ++ "."%char :: Utils.units (print_nat d)).
      split.
      * apply in_and_then.
        exists (Utils.units (print_nat b) ++ "."%char
                :: Utils.units (print_nat c) ++ "."%char
                :: Utils.units (print_nat d)).
        split.
        -- apply in_octet_group. exists a. split; [exact Ha|].
           left. split; [reflexivity|].
           destruct (Utils.units (print_nat b)); discriminate.
        -- apply in_octet_group. exists b. split; [exact Hb|].
           left. split; [reflexivity|].
           destruct (Utils.units (print_nat c)); discriminate.
      * apply in_octet_group. exists c. split; [exact Hc|].
        left. split; [reflexivity|exact Hlast].
    + apply in_octet_group. exists d. split; [exact Hd|].
      right. split; reflexivity.
Qed.

(** X18: [ipRegex] accepts exactly the dotted quads: four numbers from 0
    to 255 in decimal without leading zeros, with a point between each
    two, and nothing before, between or after. *)
Theorem ipRegex_dotted_quads (s : list ascii) :
  Utils.ipRegex s = true
  <-> exists a b c d : N,
        (a <= 255)%N /\ (b <= 255)%N /\ (c <= 255)%N /\ (d <= 255)%N
        /\ s = Utils.units (print_nat a) ++ "."%char
               :: Utils.units (print_nat b) ++ "."%char
               :: Utils.units (print_nat c) ++ "."%char
               :: Utils.units (print_nat d).
Proof. exact (ipRegex_spec s). Qed.

(** ** The utilities: connection strings *)

Lemma without_separator_iff (separator : ascii) (s : list ascii) :
  forallb (fun c => negb (Ascii.eqb c separator)) s = true
  <-> ~ In separator s.
Proof.
  rewrite forallb_forall. split.
  - intros H Hin. apply H in Hin. rewrite Ascii.eqb_refl in Hin.
    discriminate Hin.
  - intros H c Hc. apply negb_true_iff.
    destruct (Ascii.eqb_spec c separator) as [->|_]; [contradiction|reflexivity].
Qed.

(** A string up to its first separator. *)
Lemma split_first (separator : ascii) (s : list ascii) :
  exists part tail,
    s = part ++ tail
    /\ ~ In separator part
    /\ (tail = [] \/ exists rest, tail = separator :: rest).
Proof.
  induction s as [|c s (part & tail & -> & Hpart & Htail)].
  - exists [], []. split; [reflexivity|]. split; [intros []|left; reflexivity].
  - destruct (Ascii.eqb_spec c separator) as [->|Hc].
    + exists [], (separator :: part ++ tail).
      split; [reflexivity|]. split; [intros []|].
      right. exists (part ++ tail). reflexivity.
    + exists (c :: part), tail. split; [reflexivity|]. split; [|exact Htail].
      intros [Heq|Hin]; [congruence|contradiction].
Qed.

Lemma split_lookup_0 (separator : ascii) (part tail : list ascii) :
  ~ In separator part ->
  (tail = [] \/ exists rest, tail = separator :: rest) ->
  Utils.split separator (part ++ tail) !! 0%nat = Some part.
Proof.
  intros Hpart [->|(rest & ->)]; apply without_separator_iff in Hpart.
  - rewrite app_nil_r, split_without_separator by exact Hpart. reflexivity.
  - rewrite split_at_separator by exact Hpart. reflexivity.
Qed.

Lemma split_lookup_1_none (separator : ascii) (part : list ascii) :
  ~ In separator part ->
  Utils.split separator part !! 1%nat = None.
Proof.
  intros Hpart. apply without_separator_iff in Hpart.
  rewrite split_without_separator by exact Hpart. reflexivity.
Qed.

Lemma split_lookup_1 (separator : ascii) (part rest : list ascii) :
  ~ In separator part ->
  Utils.split separator (part ++ separator :: rest) !! 1%nat
  = Utils.split separator rest !! 0%nat.
Proof.
  intros Hpart. apply without_separator_iff in Hpart.
  rewrite split_at_separator by exact Hpart. reflexivity.
Qed.

(** [validateConnectionString] on a string cut at its separators. *)
Lemma validateConnectionString_parts
    (publicKey ip port after_port after_host : list ascii) :
  ~ In "@"%char publicKey ->
  ~ In "@"%char (ip ++ ":"%char :: port ++ after_port) ->
  (after_host = [] \/ exists rest, after_host = "@"%char :: rest) ->
  ~ In ":"%char ip ->
  ~ In ":"%char port ->
  (after_port = [] \/ exists rest, after_port = ":"%char :: rest) ->
  Utils.validateConnectionString
    (publicKey ++ "@"%char :: (ip ++ ":"%char :: port ++ after_port) ++ after_host)
  = negb (Utils.missing (Some publicKey))
    && negb (Utils.missing (Some ip))
    && negb (Utils.missing (Some port))
    && negb (match Utils.parseInt port with
             | Some n => (n <? 1) || (n >? 65535)
             | None => false
             end)
    && Utils.nodePublicKeyRegex publicKey
    && Utils.ipRegex ip.
Proof.
  intros Hkey Hhost Hafter_host Hip Hport Hafter_port.
  unfold Utils.validateConnectionString. cbv zeta.
  rewrite (split_lookup_0 "@" publicKey) by (try exact Hkey; right; eexists; reflexivity).
  rewrite (split_lookup_1 "@" publicKey) by exact Hkey.
  rewrite (split_lookup_0 "@" _ after_host) by assumption.
  cbn [default from_option id].
  rewrite (split_lookup_0 ":" ip) by (try exact Hip; right; eexists; reflexivity).
  rewrite (split_lookup_1 ":" ip) by exact Hip.
  rewrite (split_lookup_0 ":" port after_port) by assumption.
  cbn [default from_option id].
  assert (Hsome : Utils.missing (Some (ip ++ ":"%char :: port ++ after_port)) = false)
    by (destruct ip; reflexivity).
  rewrite Hsome.
  destruct (Utils.missing (Some publicKey)); [reflexivity|].
  destruct (Utils.missing (Some ip)); [reflexivity|].
  destruct (Utils.missing (Some port)); [reflexivity|].
  destruct (match Utils.parseInt port with
            | Some n => (n <? 1) || (n >? 65535)
            | None => false
            end); [reflexivity|].
  destruct (Utils.nodePublicKeyRegex publicKey); [|reflexivity].
  destruct (Utils.ipRegex ip); reflexivity.
Qed.

(** A string that [validateConnectionString] accepts has these parts. *)
Lemma validateConnectionString_cut (connect : list ascii) :
  Utils.validateConnectionString connect = true ->
  exists publicKey ip port after_port after_host,
    connect
    = publicKey ++ "@"%char :: (ip ++ ":"%char :: port ++ after_port) ++ after_host
    /\ ~ In "@"%char publicKey
    /\ ~ In "@"%char (ip ++ ":"%char :: port ++ after_port)
    /\ (after_host = [] \/ exists rest, after_host = "@"%char :: rest)
    /\ ~ In ":"%char ip
    /\ ~ In ":"%char port
    /\ (after_port = [] \/ exists rest, after_port = ":"%char :: rest).
Proof.
  intros Hvalid.
  destruct (split_first "@" connect)
    as (publicKey & tail & -> & Hkey & [->|(rest & ->)]).
  { exfalso. revert Hvalid. unfold Utils.validateConnectionString. cbv zeta.
    rewrite app_nil_r, (split_lookup_1_none "@" publicKey) by exact Hkey.
    cbn [Utils.missing]. rewrite orb_true_r. discriminate. }
  destruct (split_first "@" rest) as (host & after_host & -> & Hhost & Hafter_host).
  destruct (split_first ":" host)
    as (ip & tail & -> & Hip & [->|(rest & ->)]).
  { exfalso. revert Hvalid. unfold Utils.validateConnectionString. cbv zeta.
    rewrite (split_lookup_1 "@" publicKey) by exact Hkey.
    rewrite (split_lookup_0 "@" _ after_host) by assumption.
    cbn [default from_option id].
    rewrite app_nil_r, (split_lookup_1_none ":" ip) by exact Hip.
    cbn [Utils.missing]. rewrite orb_true_r.
    destruct (_ || _); discriminate. }
  destruct (split_first ":" rest) as (port & after_port & -> & Hport & Hafter_port).
  exists publicKey, ip, port, after_port, after_host.
  repeat split; assumption.
Qed.

Lemma octet_characters (n : N) :
  (n <= 255)%N ->
  forallb Utils.is_digit (Utils.units (print_nat n)) = true.
Proof.
  intros Hn.
  assert (Hall : forallb
                   (fun k => forallb Utils.is_digit
                               (Utils.units (print_nat (N.of_nat k))))
                   (seq 0 256) = true)
    by (vm_compute; reflexivity).
  rewrite forallb_forall in Hall.
  specialize (Hall (N.to_nat n)). rewrite N2Nat.id in Hall.
  apply Hall. apply in_seq. lia.
Qed.

Lemma ipRegex_characters (ip : list ascii) :
  Utils.ipRegex ip = true ->
  forallb (fun c => Utils.is_digit c || Ascii.eqb c ".") ip = true.
Proof.
  intros H. apply ipRegex_spec in H
    as (a & b & c & d & Ha & Hb & Hc & Hd & ->).
  assert (Hdigits : forall n, (n <= 255)%N ->
            forallb (fun c => Utils.is_digit c || Ascii.eqb c ".")
              (Utils.units (print_nat n)) = true).
  { intros n Hn. apply octet_characters in Hn.
    rewrite forallb_forall in *. intros x Hx. rewrite (Hn x Hx). reflexivity. }
  repeat (rewrite forallb_app; cbn [forallb]).
  rewrite !Hdigits by assumption. reflexivity.
Qed.

(** X19: [validateConnectionString] accepts exactly the strings
    [publicKey@ip:port] followed by nothing or by anything that starts
    with [:] or [@], where the public key has no [@] and holds 66
    hexadecimal digits in a row, the address is a dotted quad, the port
    is not empty and has no [:] or [@], and the number that [parseInt]
    reads at the start of the port, if it reads one, is from 1 to 65535.
    A port in which [parseInt] reads no number is accepted. *)
Theorem validateConnectionString_accepts (connect : list ascii) :
  Utils.validateConnectionString connect = true
  <-> exists publicKey ip port more,
        connect = publicKey ++ "@"%char :: ip ++ ":"%char :: port ++ more
        /\ ~ In "@"%char publicKey
        /\ Utils.nodePublicKeyRegex publicKey = true
        /\ Utils.ipRegex ip = true
        /\ port <> [] /\ ~ In "@"%char port /\ ~ In ":"%char port
        /\ (more = []
            \/ exists rest, more = "@"%char :: rest \/ more = ":"%char :: rest)
        /\ match Utils.parseInt port with
           | Some n => 1 <= n <= 65535
           | None => True
           end.
Proof.
  split.
  - intros Hvalid.
    destruct (validateConnectionString_cut connect Hvalid)
      as (publicKey & ip & port & after_port & after_host
          & -> & Hkey & Hhost & Hafter_host & Hip & Hport & Hafter_port).
    rewrite validateConnectionString_parts in Hvalid by assumption.
    repeat (apply andb_true_iff in Hvalid as [Hvalid ?]).
    exists publicKey, ip, port, (after_port ++ after_host).
    split; [rewrite <- !app_assoc; cbn [app]; rewrite <- !app_assoc; reflexivity|].
    split; [exact Hkey|]. split; [assumption|]. split; [assumption|].
    split; [destruct port; [discriminate|discriminate]|].
    split.
    { intros Hin. apply Hhost. apply in_or_app. right. right.
      apply in_or_app. left. exact Hin. }
    split; [exact Hport|]. split.
    { destruct Hafter_port as [->|(rest & ->)].
      - destruct Hafter_host as [->|(rest & ->)]; [left; reflexivity|].
        right. exists rest. left. reflexivity.
      - right. exists (rest ++ after_host). right. reflexivity. }
    destruct (Utils.parseInt port) as [n|]; [|exact I].
    match goal with H : negb _ = true |- _ =>
      apply negb_true_iff, orb_false_iff in H as [Hlow Hhigh] end.
    apply Z.ltb_ge in Hlow. apply Z.gtb_ltb, Z.ltb_ge in Hhigh || idtac.
    lia.
  - intros (publicKey & ip & port & more & -> & Hkey & Hhex & Haddress
            & Hsome & Hport_at & Hport & Hmore & Hnumber).
    destruct (split_first "@" more)
      as (after_port & after_host & -> & Hafter_port & Hafter_host).
    pose proof (ipRegex_characters ip Haddress) as Hchars.
    rewrite forallb_forall in Hchars.
    assert (Hip_at : ~ In "@"%char ip).
    { intros Hin. apply Hchars in Hin. discriminate Hin. }
    assert (Hip : ~ In ":"%char ip).
    { intros Hin. apply Hchars in Hin. discriminate Hin. }
    assert (Hends : after_port = [] \/ exists rest, after_port = ":"%char :: rest).
    { destruct after_port as [|c after_port']; [left; reflexivity|].
      right. exists after_port'.
      destruct Hmore as [Hmore|(rest & [Hmore|Hmore])];
        [discriminate Hmore| |]; injection Hmore as -> _;
        [exfalso; apply Hafter_port; left; reflexivity|reflexivity]. }
    replace (publicKey ++ "@"%char :: ip ++ ":"%char :: port
             ++ after_port ++ after_host)
      with (publicKey ++ "@"%char
            :: (ip ++ ":"%char :: port ++ after_port) ++ after_host)
      by (rewrite <- !app_assoc; cbn [app]; rewrite <- !app_assoc; reflexivity).
    rewrite validateConnectionString_parts; try assumption.
    + rewrite Hhex, Haddress.
      assert (Hnum : match Utils.parseInt port with
                     | Some n => (n <? 1) || (n >? 65535)
                     | None => false
                     end = false).
      { destruct (Utils.parseInt port) as [n|]; [|reflexivity].
        apply orb_false_iff. split; [apply Z.ltb_ge; lia|].
        rewrite Z.gtb_ltb. apply Z.ltb_ge. lia. }
      rewrite Hnum.
      assert (Hk : publicKey <> []).
      { intros ->. discriminate Hhex. }
      assert (Hi : ip <> []).
      { intros ->. discriminate Haddress. }
      destruct publicKey; [contradiction|].
      destruct ip; [contradiction|].
      destruct port; [contradiction|]. reflexivity.
    + intros Hin. apply in_app_or in Hin as [Hin|[Hin|Hin]];
        [contradiction|discriminate Hin|].
      apply in_app_or in Hin as [Hin|Hin]; contradiction.
Qed.

(** [parseInt] reads a decimal number back. *)
Lemma read_digits_uint (d : Decimal.uint) :
  forall d' : Decimal.uint,
    Utils.read_digits 10 (Some (Z.of_N (DecimalPos.Unsigned.of_lu d')))
      (Utils.units (NilEmpty.string_of_uint d))
    = Some (Z.of_N (DecimalPos.Unsigned.of_lu (Decimal.revapp d d'))).
Proof.
  induction d as [|d IH|d IH|d IH|d IH|d IH|d IH|d IH|d IH|d IH|d IH];
    intros d'; [reflexivity|..];
    cbn [Decimal.revapp]; rewrite <- IH;
    cbn [NilEmpty.string_of_uint Utils.units list_ascii_of_string
         Utils.read_digits];
    match goal with
    | |- context [Utils.digit_value 10 ?c] =>
        let v := eval vm_compute in (Utils.digit_value 10 c) in
        change (Utils.digit_value 10 c) with v
    end;
    cbv iota beta; cbn [default from_option id];
    f_equal; f_equal;
    match goal with
    | |- _ = Z.of_N (DecimalPos.Unsigned.of_lu ?x) =>
        rewrite (DecimalPos.Unsigned.of_lu_eqn x)
    end;
    cbn [DecimalPos.Unsigned.hd DecimalPos.Unsigned.tl]; lia.
Qed.

Lemma parseInt_digits (d : Decimal.uint) :
  d <> Decimal.Nil ->
  Utils.parseInt (Utils.units (NilEmpty.string_of_uint d))
  = Some (Z.of_N (DecimalPos.Unsigned.of_lu (Decimal.rev d))).
Proof.
  intros Hd.
  assert (Hread : Utils.read_digits 10 None
                    (Utils.units (NilEmpty.string_of_uint d))
                  = Some (Z.of_N (DecimalPos.Unsigned.of_lu (Decimal.rev d)))).
  { unfold Decimal.rev. rewrite <- read_digits_uint.
    destruct d; [contradiction|..]; reflexivity. }
  transitivity
    (match Utils.read_digits 10 None (Utils.units (NilEmpty.string_of_uint d)) with
     | Some n => Some n
     | None => None
     end).
  - destruct d as [|d|d|d|d|d|d|d|d|d|d]; [contradiction|..];
      destruct d; reflexivity.
  - rewrite Hread. reflexivity.
Qed.

Lemma parseInt_print_nat (n : N) :
  Utils.parseInt (Utils.units (print_nat n)) = Some (Z.of_N n).
Proof.
  unfold print_nat. rewrite parseInt_digits by apply to_uint_nonnil.
  rewrite <- DecimalPos.Unsigned.of_uint_alt.
  change (Pos.of_uint (N.to_uint n)) with (N.of_uint (N.to_uint n)).
  rewrite DecimalN.Unsigned.of_to. reflexivity.
Qed.

Lemma string_of_uint_digits (d : Decimal.uint) :
  forallb Utils.is_digit (Utils.units (NilEmpty.string_of_uint d)) = true.
Proof.
  induction d; [reflexivity|..]; exact IHd.
Qed.

(** X20: with a public key that has no [@] and holds 66 hexadecimal
    digits in a row, and a dotted quad for the address,
    [validateConnectionString] accepts [publicKey@ip:port] for a port
    written in decimal exactly when the port is from 1 to 65535. *)
Theorem validateConnectionString_port (publicKey ip : list ascii) (port : N) :
  forallb (fun c => negb (Ascii.eqb c "@")) publicKey = true ->
  Utils.nodePublicKeyRegex publicKey = true ->
  Utils.ipRegex ip = true ->
  Utils.validateConnectionString
    (publicKey ++ "@"%char :: ip ++ ":"%char :: Utils.units (print_nat port))
  = true
  <-> (1 <= port <= 65535)%N.
Proof.
  intros Hkey Hhex Haddress.
  apply without_separator_iff in Hkey.
  pose proof (ipRegex_characters ip Haddress) as Hchars.
  rewrite forallb_forall in Hchars.
  pose proof (string_of_uint_digits (N.to_uint port)) as Hdigits.
  fold (print_nat port) in Hdigits. rewrite forallb_forall in Hdigits.
  assert (Hip_at : ~ In "@"%char ip).
  { intros Hin. apply Hchars in Hin. discriminate Hin. }
  assert (Hip : ~ In ":"%char ip).
  { intros Hin. apply Hchars in Hin. discriminate Hin. }
  assert (Hport_at : ~ In "@"%char (Utils.units (print_nat port))).
  { intros Hin. apply Hdigits in Hin. discriminate Hin. }
  assert (Hport : ~ In ":"%char (Utils.units (print_nat port))).
  { intros Hin. apply Hdigits in Hin. discriminate Hin. }
  replace (publicKey ++ "@"%char :: ip ++ ":"%char :: Utils.units (print_nat port))
    with (publicKey ++ "@"%char
          :: (ip ++ ":"%char :: Utils.units (print_nat port) ++ []) ++ [])
    by (rewrite !app_nil_r; reflexivity).
  rewrite validateConnectionString_parts;
    [|assumption| |left; reflexivity|assumption|assumption|left; reflexivity].
  - rewrite Hhex, Haddress, parseInt_print_nat, !andb_true_r.
    assert (Hk : Utils.missing (Some publicKey) = false).
    { destruct publicKey; [discriminate Hhex|reflexivity]. }
    assert (Hi : Utils.missing (Some ip) = false).
    { destruct ip; [discriminate Haddress|reflexivity]. }
    assert (Hp : Utils.missing (Some (Utils.units (print_nat port))) = false).
    { destruct (print_nat_shape port) as (c & s & -> & _). reflexivity. }
    rewrite Hk, Hi, Hp. cbn [negb andb].
    rewrite negb_true_iff, orb_false_iff, Z.gtb_ltb, !Z.ltb_ge. lia.
  - rewrite app_nil_r. intros Hin.
    apply in_app_or in Hin as [Hin|[Hin|Hin]];
      [contradiction|discriminate Hin|contradiction].
Qed.

Lemma validateConnectionString_port_witness :
  Utils.validateConnectionString
    (repeat "a"%char 66 ++ "@"%char :: Utils.units "10.0.0.1" ++ ":"%char
     :: Utils.units (print_nat 9735))
  = true
  <-> (1 <= 9735 <= 65535)%N.
Proof.
  apply (validateConnectionString_port (repeat "a"%char 66)
           (Utils.units "10.0.0.1") 9735);
    vm_compute; reflexivity.
Defined.

(** ** Instances *)

Lemma formatDecodedInvoice_properties_witness :
  Utils.formatDecodedInvoice "lnbc1"
    [{| Utils.Section_.name := "amount"; Utils.Section_.value := JStr "2000" |};
     {| Utils.Section_.name := "description"; Utils.Section_.value := JStr "tea" |};
     {| Utils.Section_.name := "amount"; Utils.Section_.value := JStr "1000" |};
     {| Utils.Section_.name := "amount"; Utils.Section_.value := JStr "" |}]
  !! "amount"
  = Some (JStr "1000").
Proof.
  apply (proj1 (formatDecodedInvoice_properties "lnbc1" _ "amount")
           [{| Utils.Section_.name := "amount"; Utils.Section_.value := JStr "2000" |};
            {| Utils.Section_.name := "description";
               Utils.Section_.value := JStr "tea" |}]
           {| Utils.Section_.name := "amount"; Utils.Section_.value := JStr "1000" |}
           [{| Utils.Section_.name := "amount"; Utils.Section_.value := JStr "" |}]);
    try reflexivity; try discriminate.
  constructor; [right; reflexivity|constructor].
Defined.

Lemma getPaymentType_kinds_witness :
  Utils.getPaymentType (Utils.units "lnbc1qpz") = Some "payment_request".
Proof.
  apply (proj2 (proj1 (proj2 (getPaymentType_kinds (Utils.units "lnbc1qpz"))))).
  split.
  - intros (before & key & rest & Heq & Hlen & _).
    apply (f_equal (@length ascii)) in Heq.
    rewrite !length_app, Hlen in Heq. simpl in Heq. lia.
  - exists (Utils.units "1qpz"). repeat split; [discriminate].
Defined.

Lemma ipRegex_dotted_quads_witness :
  Utils.ipRegex (Utils.units "10.0.0.1") = true.
Proof.
  apply (proj2 (ipRegex_dotted_quads (Utils.units "10.0.0.1"))).
  exists 10%N, 0%N, 0%N, 1%N. repeat split; discriminate.
Defined.

Lemma validateConnectionString_accepts_witness :
  Utils.validateConnectionString
    (repeat "a"%char 66 ++ Utils.units "@10.0.0.1:abc")
  = true.
Proof.
  apply (proj2 (validateConnectionString_accepts
                  (repeat "a"%char 66 ++ Utils.units "@10.0.0.1:abc"))).
  exists (repeat "a"%char 66), (Utils.units "10.0.0.1"), (Utils.units "abc"), [].
  split; [reflexivity|].
  split; [intros Hin; apply repeat_spec in Hin; discriminate Hin|].
  split; [reflexivity|]. split; [reflexivity|]. split; [discriminate|].
  split; [intros Hin; vm_compute in Hin; intuition discriminate|].
  split; [intros Hin; vm_compute in Hin; intuition discriminate|].
  split; [left; reflexivity|exact I].
Defined.
